(** * mir_eval.pattern: pattern-discovery evaluation metrics

    A shallow embedding of [mir_eval/pattern.py] and the properties of its
    six public metrics.

    Conventions of the embedding.
    - Python lists are Rocq lists; an (onset, midi) tuple is the list of
      its components, so that a tuple of the wrong arity is representable
      and [len(onset_midi) != 2] can be checked as the source does.
    - float64 numbers are modelled by exact rationals ([Q]); two numbers
      are the same Python value when they are [Qeq].
    - A call either returns a value or raises: [result].  The warnings a
      call emits are collected in front of its outcome: [Py].
    - numpy arrays of rank 2 carry their shape: [ndarray]. *)

From Stdlib Require Import String Bool Arith ZArith QArith Qabs Qminmax List.
From Stdlib Require Import Lia Lqa.
Import ListNotations.

Local Open Scope Q_scope.
Local Open Scope list_scope.

(** ** Outcomes of a call *)

Inductive exn : Type :=
| ValueError (msg : string)
| ZeroDivisionError
| IndexError
| NanResult.
(* [NanResult] is not a Python exception: [np.mean] of an empty array
   evaluates to nan.  Rationals have no nan, so the model stops there;
   [np_mean] is the only place that produces it. *)

Inductive result (A : Type) : Type :=
| Ok (a : A)
| Raise (e : exn).
Arguments Ok {A} a.
Arguments Raise {A} e.

Definition bind {A B} (r : result A) (k : A -> result B) : result B :=
  match r with
  | Ok a => k a
  | Raise e => Raise e
  end.

Declare Scope py_scope.
Delimit Scope py_scope with py.
Notation "x <- r ;; k" := (bind r (fun x => k))
  (at level 61, r at next level, right associativity) : py_scope.
Notation "' pat <- r ;; k" := (bind r (fun x => match x with pat => k end))
  (at level 61, pat pattern, r at next level, right associativity) : py_scope.
Local Open Scope py_scope.

(** [for x in l: s = body x s], stopping at the first exception. *)
Fixpoint for_each {A S : Type} (body : A -> S -> result S) (l : list A) (s : S)
  : result S :=
  match l with
  | [] => Ok s
  | a :: rest => s' <- body a s ;; for_each body rest s'
  end.

(** [enumerate(l)] *)
Definition enumerate {A : Type} (l : list A) : list (nat * A) :=
  combine (seq 0 (length l)) l.

(** A list comprehension whose element expression may raise. *)
Fixpoint mapM {A B : Type} (f : A -> result B) (l : list A) : result (list B) :=
  match l with
  | [] => Ok []
  | a :: rest => b <- f a ;; bs <- mapM f rest ;; Ok (b :: bs)
  end.

(** Warnings emitted, then the outcome. *)
Definition Py (A : Type) : Type := (list string * result A)%type.

Definition py_lift {A} (r : result A) : Py A := ([], r).

Definition py_bind {A B} (m : Py A) (k : A -> Py B) : Py B :=
  match m with
  | (w, Ok a) => let (w', r) := k a in (w ++ w', r)
  | (w, Raise e) => (w, Raise e)
  end.

Definition warnings_warn (msg : string) : Py unit := ([msg], Ok tt).

Definition warned {A} (m : Py A) : list string := fst m.
Definition outcome {A} (m : Py A) : result A := snd m.

Notation "x <~ m ;; k" := (py_bind m (fun x => k))
  (at level 61, m at next level, right associativity) : py_scope.
Notation "m ;;; k" := (py_bind m (fun _ => k))
  (at level 61, right associativity) : py_scope.

(** ** Data model *)

Definition onset_midi := list Q.
Definition occurrence := list onset_midi.
Definition pattern := list occurrence.
Definition patterns := list pattern.

(** What a metric hands back: the tuple [(f_measure, precision, recall)]
    or one float. *)
Inductive pyval : Type :=
| Triple (f_measure precision recall : Q)
| Single (x : Q).

Definition float_of_nat (n : nat) : Q := inject_Z (Z.of_nat n).

(** Python's [a / b] on floats. *)
Definition py_div (a b : Q) : result Q :=
  if Qeq_bool b 0 then Raise ZeroDivisionError else Ok (a / b).

(** [len([o_m for pat in patterns for occ in pat for o_m in occ])] *)
Definition _n_onset_midi (ps : patterns) : nat :=
  length (flat_map (fun pat => flat_map (fun occ => occ) pat) ps).

(** ** validate *)

Definition msg_no_occurrence : string :=
  "Each pattern must contain at least one occurrence.".
Definition msg_not_pair : string :=
  "The (onset, midi) tuple must contain exactly 2 elements.".

Definition check_onset_midi (o_m : onset_midi) (_ : unit) : result unit :=
  if negb (length o_m =? 2)%nat then Raise (ValueError msg_not_pair) else Ok tt.

Definition check_occurrence (occ : occurrence) (_ : unit) : result unit :=
  for_each check_onset_midi occ tt.

Definition check_pattern (pat : pattern) (_ : unit) : result unit :=
  if (length pat <=? 0)%nat then Raise (ValueError msg_no_occurrence)
  else for_each check_occurrence pat tt.

Definition check_patterns (ps : patterns) (_ : unit) : result unit :=
  for_each check_pattern ps tt.

Definition validate {A} (metric : patterns -> patterns -> Py A)
  (reference_patterns estimated_patterns : patterns) : Py A :=
  (if (_n_onset_midi reference_patterns =? 0)%nat
   then warnings_warn "Reference patterns are empty." else py_lift (Ok tt)) ;;;
  (if (_n_onset_midi estimated_patterns =? 0)%nat
   then warnings_warn "Estimated patterns are empty." else py_lift (Ok tt)) ;;;
  py_lift (for_each check_patterns [reference_patterns; estimated_patterns] tt) ;;;
  metric reference_patterns estimated_patterns.

(** ** Sets of tuples *)

Fixpoint tuple_eqb (a b : onset_midi) : bool :=
  match a, b with
  | [], [] => true
  | x :: a', y :: b' => Qeq_bool x y && tuple_eqb a' b'
  | _, _ => false
  end.

Definition set_mem (x : onset_midi) (s : list onset_midi) : bool :=
  existsb (tuple_eqb x) s.

(** [set(l)]: one representative per value. *)
Fixpoint py_set (l : list onset_midi) : list onset_midi :=
  match l with
  | [] => []
  | x :: rest => if set_mem x rest then py_set rest else x :: py_set rest
  end.

(** [s & t] *)
Definition set_and (s t : list onset_midi) : list onset_midi :=
  filter (fun x => set_mem x t) s.

Definition _occurrence_intersection (occ_P occ_Q : occurrence) : list onset_midi :=
  let set_P := py_set occ_P in
  let set_Q := py_set occ_Q in
  set_and set_P set_Q.

(** ** The numpy operations the module uses *)

Record ndarray : Type := mk_ndarray {
  nrows : nat;
  ncols : nat;
  cells : list (list Q)
}.

(** [np.zeros((n, m))] *)
Definition np_zeros (n m : nat) : ndarray :=
  mk_ndarray n m (repeat (repeat 0 m) n).

Fixpoint list_set {A : Type} (l : list A) (i : nat) (v : A) : list A :=
  match l, i with
  | [], _ => []
  | _ :: rest, O => v :: rest
  | a :: rest, S i' => a :: list_set rest i' v
  end.

(** [a[i, j] = v]; an index out of range raises [IndexError]. *)
Definition setitem (a : ndarray) (i j : nat) (v : Q) : result ndarray :=
  if (i <? nrows a)%nat && (j <? ncols a)%nat
  then Ok (mk_ndarray (nrows a) (ncols a)
             (list_set (cells a) i (list_set (nth i (cells a) []) j v)))
  else Raise IndexError.

(** [a[i, j]] *)
Definition getitem (a : ndarray) (i j : nat) : result Q :=
  if (i <? nrows a)%nat && (j <? ncols a)%nat
  then Ok (nth j (nth i (cells a) []) 0)
  else Raise IndexError.

(** [l[i]] on a Python list *)
Definition list_getitem {A : Type} (l : list A) (i : nat) : result A :=
  match nth_error l i with
  | Some a => Ok a
  | None => Raise IndexError
  end.

Definition msg_zero_size : string :=
  "zero-size array to reduction operation maximum which has no identity".

(** The maximum of the entries of a flat array. *)
Definition reduce_max (l : list Q) : result Q :=
  match l with
  | [] => Raise (ValueError msg_zero_size)
  | x :: rest => Ok (fold_left Qmax rest x)
  end.

(** [np.max(a)] *)
Definition np_max (a : ndarray) : result Q := reduce_max (concat (cells a)).

Definition column (a : ndarray) (j : nat) : list Q :=
  map (fun row => nth j row 0) (cells a).

(** [np.max(a, axis=0)]: one maximum per column. *)
Definition np_max_axis0 (a : ndarray) : result (list Q) :=
  mapM (fun j => reduce_max (column a j)) (seq 0 (ncols a)).

(** [np.max(a, axis=1)]: one maximum per row. *)
Definition np_max_axis1 (a : ndarray) : result (list Q) :=
  mapM reduce_max (cells a).

Definition np_sum (l : list Q) : Q := fold_left Qplus l 0.

(** [np.mean(l)] of a flat array *)
Definition np_mean (l : list Q) : result Q :=
  match l with
  | [] => Raise NanResult
  | _ => Ok (np_sum l / float_of_nat (length l))
  end.

(** [a[np.ix_(rs, cs)]]: the array of the entries [a[r, c]], [r] running
    through [rs] and [c] through [cs], repetitions included. *)
Definition ix_ (a : ndarray) (rs cs : list nat) : result ndarray :=
  sub <- mapM (fun r => mapM (fun c => getitem a r c) cs) rs ;;
  Ok (mk_ndarray (length rs) (length cs) sub).

Fixpoint zip_with {A B C : Type} (f : A -> B -> C) (l : list A) (l' : list B)
  : list C :=
  match l, l' with
  | a :: t, b :: t' => f a b :: zip_with f t t'
  | _, _ => []
  end.

(** [P - Q] for two arrays of one shape ([np.asarray] of two occurrences
    of equal length whose events are pairs). *)
Definition array_sub (P Q_ : list (list Q)) : list (list Q) :=
  zip_with (zip_with Qminus) P Q_.

(** [np.diff(a, axis=0)]: [a[1:] - a[:-1]] *)
Definition np_diff (a : list (list Q)) : list (list Q) :=
  zip_with (zip_with Qminus) (tl a) a.

(** [np.sum(a)] over all entries *)
Definition array_sum (a : list (list Q)) : Q := np_sum (concat a).

(** ** util.f_measure *)

(** Modelled from the spec: [util.f_measure] lives in [mir_eval/util.py],
    which is not part of the sources at hand.  The spec gives
    f(P, R) = 2*P*R / (P + R) when P + R > 0, else 0. *)
Definition f_measure (precision recall : Q) : Q :=
  if Qle_bool (precision + recall) 0 then 0
  else 2 * precision * recall / (precision + recall).

(** ** _compute_score_matrix *)

Definition msg_similarity : string :=
  "The similarity metric (%s) can only be: 'cardinality_score'.".

Definition _compute_score_matrix (P Q_ : pattern) (similarity_metric : string)
  : result ndarray :=
  let sm := np_zeros (length P) (length Q_) in
  for_each (fun '(iP, occ_P) sm =>
    for_each (fun '(iQ, occ_Q) sm =>
      if String.eqb similarity_metric "cardinality_score" then
        let denom := float_of_nat (Nat.max (length occ_P) (length occ_Q)) in
        v <- py_div (float_of_nat
                       (length (_occurrence_intersection occ_P occ_Q))) denom ;;
        setitem sm iP iQ v
      else Raise (ValueError msg_similarity))
      (enumerate Q_) sm)
    (enumerate P) sm.

(** ** standard_FPR *)

Definition zero_scores : pyval := Triple 0 0 0.

(** The test of line 231: [np.abs(np.sum(np.diff(P - Q, axis=0))) <= tol] *)
Definition transposition_test (tol : Q) (P Q_ : occurrence) : bool :=
  Qle_bool (Qabs (array_sum (np_diff (array_sub P Q_)))) tol.

(** The inner loop over the estimated patterns; [true] when it left
    through [k += 1; break]. *)
Fixpoint search_estimated (tol : Q) (P : occurrence) (estimated_patterns : patterns)
  : result bool :=
  match estimated_patterns with
  | [] => Ok false
  | est_pattern :: rest =>
      Q_ <- list_getitem est_pattern 0 ;;
      if negb (length P =? length Q_)%nat then search_estimated tol P rest
      else if transposition_test tol P Q_ then Ok true
      else search_estimated tol P rest
  end.

Definition count_matches (tol : Q) (reference_patterns estimated_patterns : patterns)
  : result nat :=
  for_each (fun ref_pattern k =>
    P <- list_getitem ref_pattern 0 ;;
    hit <- search_estimated tol P estimated_patterns ;;
    Ok (if hit then S k else k))
    reference_patterns 0%nat.

Definition no_events (reference_patterns estimated_patterns : patterns) : bool :=
  (_n_onset_midi reference_patterns =? 0)%nat
  || (_n_onset_midi estimated_patterns =? 0)%nat.

Definition standard_FPR_body (tol : Q)
  (reference_patterns estimated_patterns : patterns) : result pyval :=
  let nP := length reference_patterns in
  let nQ := length estimated_patterns in
  if no_events reference_patterns estimated_patterns then Ok zero_scores
  else
    k <- count_matches tol reference_patterns estimated_patterns ;;
    precision <- py_div (float_of_nat k) (float_of_nat nQ) ;;
    recall <- py_div (float_of_nat k) (float_of_nat nP) ;;
    let f_measure := f_measure precision recall in
    Ok (Triple f_measure precision recall).

Definition standard_FPR (tol : Q) : patterns -> patterns -> Py pyval :=
  validate (fun r e => py_lift (standard_FPR_body tol r e)).

(** ** establishment_FPR *)

Definition establishment_matrix (similarity_metric : string)
  (reference_patterns estimated_patterns : patterns) : result ndarray :=
  let nP := length reference_patterns in
  let nQ := length estimated_patterns in
  let S := np_zeros nP nQ in
  for_each (fun '(iP, ref_pattern) S =>
    for_each (fun '(iQ, est_pattern) S =>
      s <- _compute_score_matrix ref_pattern est_pattern similarity_metric ;;
      m <- np_max s ;;
      setitem S iP iQ m)
      (enumerate estimated_patterns) S)
    (enumerate reference_patterns) S.

Definition establishment_FPR_body (similarity_metric : string)
  (reference_patterns estimated_patterns : patterns) : result pyval :=
  if no_events reference_patterns estimated_patterns then Ok zero_scores
  else
    S <- establishment_matrix similarity_metric
           reference_patterns estimated_patterns ;;
    col_max <- np_max_axis0 S ;;
    precision <- np_mean col_max ;;
    row_max <- np_max_axis1 S ;;
    recall <- np_mean row_max ;;
    let f_measure := f_measure precision recall in
    Ok (Triple f_measure precision recall).

Definition establishment_FPR (similarity_metric : string)
  : patterns -> patterns -> Py pyval :=
  validate (fun r e => py_lift (establishment_FPR_body similarity_metric r e)).

(** ** occurrence_FPR *)

(** [O_PR] has shape (nP, nQ, 2); it is kept as its two planes
    [O_PR[:, :, 0]] and [O_PR[:, :, 1]].  [rel_idx] is the list of its
    rows, each an index pair. *)
Record occ_state : Type := mk_occ_state {
  O_P : ndarray;
  O_R : ndarray;
  rel_idx : list (nat * nat)
}.

Definition occurrence_step (thres : Q) (similarity_metric : string)
  (iP : nat) (ref_pattern : pattern) (iQ : nat) (est_pattern : pattern)
  (st : occ_state) : result occ_state :=
  s <- _compute_score_matrix ref_pattern est_pattern similarity_metric ;;
  m <- np_max s ;;
  if Qle_bool thres m then
    c <- np_max_axis0 s ;;
    p <- np_mean c ;;
    P' <- setitem (O_P st) iP iQ p ;;
    r <- np_max_axis1 s ;;
    q <- np_mean r ;;
    R' <- setitem (O_R st) iP iQ q ;;
    Ok (mk_occ_state P' R' (rel_idx st ++ [(iP, iQ)]))
  else Ok st.

Definition occurrence_loop (thres : Q) (similarity_metric : string)
  (reference_patterns estimated_patterns : patterns) : result occ_state :=
  let nP := length reference_patterns in
  let nQ := length estimated_patterns in
  let st := mk_occ_state (np_zeros nP nQ) (np_zeros nP nQ) [] in
  for_each (fun '(iP, ref_pattern) st =>
    for_each (fun '(iQ, est_pattern) st =>
      occurrence_step thres similarity_metric iP ref_pattern iQ est_pattern st)
      (enumerate estimated_patterns) st)
    (enumerate reference_patterns) st.

Definition occurrence_FPR_body (thres : Q) (similarity_metric : string)
  (reference_patterns estimated_patterns : patterns) : result pyval :=
  if no_events reference_patterns estimated_patterns then Ok zero_scores
  else
    st <- occurrence_loop thres similarity_metric
            reference_patterns estimated_patterns ;;
    '(precision, recall) <-
      (if (length (rel_idx st) =? 0)%nat then Ok (0, 0)
       else
         subP <- ix_ (O_P st) (map fst (rel_idx st)) (map snd (rel_idx st)) ;;
         cP <- np_max_axis0 subP ;;
         precision <- np_mean cP ;;
         subR <- ix_ (O_R st) (map fst (rel_idx st)) (map snd (rel_idx st)) ;;
         rR <- np_max_axis1 subR ;;
         recall <- np_mean rR ;;
         Ok (precision, recall)) ;;
    let f_measure := f_measure precision recall in
    Ok (Triple f_measure precision recall).

Definition occurrence_FPR (thres : Q) (similarity_metric : string)
  : patterns -> patterns -> Py pyval :=
  validate (fun r e => py_lift (occurrence_FPR_body thres similarity_metric r e)).

(** ** three_layer_FPR *)

Definition compute_first_layer_PR (ref_occs est_occs : occurrence)
  : result (Q * Q) :=
  let s := length (_occurrence_intersection ref_occs est_occs) in
  precision <- py_div (float_of_nat s) (float_of_nat (length ref_occs)) ;;
  recall <- py_div (float_of_nat s) (float_of_nat (length est_occs)) ;;
  Ok (precision, recall).

(** [compute_layer(ref_elements, est_elements, layer)].  The source picks
    [func] from [layer]; here the caller passes [func], so that layer 1
    (occurrences) and layer 2 (patterns) are the two instances below. *)
Definition compute_layer {A : Type} (func : A -> A -> result (Q * Q))
  (ref_elements est_elements : list A) : result ndarray :=
  let nP := length ref_elements in
  let nQ := length est_elements in
  let F := np_zeros nP nQ in
  for_each (fun iP F =>
    for_each (fun iQ F =>
      ref_element <- list_getitem ref_elements iP ;;
      est_element <- list_getitem est_elements iQ ;;
      '(precision, recall) <- func ref_element est_element ;;
      setitem F iP iQ (f_measure precision recall))
      (seq 0 nQ) F)
    (seq 0 nP) F.

Definition compute_second_layer_PR (ref_pattern est_pattern : pattern)
  : result (Q * Q) :=
  F_1 <- compute_layer compute_first_layer_PR ref_pattern est_pattern ;;
  col_max <- np_max_axis0 F_1 ;;
  precision <- np_mean col_max ;;
  row_max <- np_max_axis1 F_1 ;;
  recall <- np_mean row_max ;;
  Ok (precision, recall).

Definition three_layer_FPR_body
  (reference_patterns estimated_patterns : patterns) : result pyval :=
  if no_events reference_patterns estimated_patterns then Ok zero_scores
  else
    F_2 <- compute_layer compute_second_layer_PR
             reference_patterns estimated_patterns ;;
    col_max <- np_max_axis0 F_2 ;;
    precision_3 <- np_mean col_max ;;
    row_max <- np_max_axis1 F_2 ;;
    recall_3 <- np_mean row_max ;;
    let f_measure_3 := f_measure precision_3 recall_3 in
    Ok (Triple f_measure_3 precision_3 recall_3).

Definition three_layer_FPR : patterns -> patterns -> Py pyval :=
  validate (fun r e => py_lift (three_layer_FPR_body r e)).

(** ** The first-n metrics *)

(** [l[:min(len(l), n)]]; a negative bound counts from the end. *)
Definition first_n {A : Type} (l : list A) (n : Z) : list A :=
  let stop := Z.min (Z.of_nat (length l)) n in
  if (stop <? 0)%Z
  then firstn (Z.to_nat (Z.of_nat (length l) + stop)) l
  else firstn (Z.to_nat stop) l.

(** [F, P, R = ...]: unpacking a 3-tuple *)
Definition unpack3 (v : pyval) : result (Q * Q * Q) :=
  match v with
  | Triple f p r => Ok (f, p, r)
  | Single _ => Raise (ValueError "cannot unpack non-iterable float object")
  end.

Definition first_n_three_layer_P_body (n : Z)
  (reference_patterns estimated_patterns : patterns) : Py pyval :=
  if no_events reference_patterns estimated_patterns then py_lift (Ok zero_scores)
  else
    let fn_est_patterns := first_n estimated_patterns n in
    v <~ three_layer_FPR reference_patterns fn_est_patterns ;;
    fpr <~ py_lift (unpack3 v) ;;
    let '(F, P, R) := fpr in
    py_lift (Ok (Single P)).

Definition first_n_three_layer_P (n : Z) : patterns -> patterns -> Py pyval :=
  validate (first_n_three_layer_P_body n).

Definition first_n_target_proportion_R_body (n : Z)
  (reference_patterns estimated_patterns : patterns) : Py pyval :=
  if no_events reference_patterns estimated_patterns then py_lift (Ok zero_scores)
  else
    let fn_est_patterns := first_n estimated_patterns n in
    v <~ establishment_FPR "cardinality_score"
           reference_patterns fn_est_patterns ;;
    fpr <~ py_lift (unpack3 v) ;;
    let '(F, P, R) := fpr in
    py_lift (Ok (Single R)).

Definition first_n_target_proportion_R (n : Z)
  : patterns -> patterns -> Py pyval :=
  validate (first_n_target_proportion_R_body n).

(** ** The registry *)

(** The optional arguments of a call; [defaults] are the source's. *)
Record kwargs : Type := mk_kwargs {
  tol : Q;
  thres : Q;
  similarity_metric : string;
  n : Z
}.

Definition defaults : kwargs :=
  mk_kwargs (1 # 100000) (3 # 4) "cardinality_score" 5.

Definition METRICS : list (string * (kwargs -> patterns -> patterns -> Py pyval)) :=
  [ ("standard_FPR"%string, fun kw => standard_FPR (tol kw));
    ("establishment_FPR"%string, fun kw => establishment_FPR (similarity_metric kw));
    ("occurrence_FPR"%string,
       fun kw => occurrence_FPR (thres kw) (similarity_metric kw));
    ("three_layer_FPR"%string, fun _ => three_layer_FPR);
    ("first_n_three_layer_P"%string, fun kw => first_n_three_layer_P (n kw));
    ("first_n_target_proportion_R"%string,
       fun kw => first_n_target_proportion_R (n kw)) ].

(** ** Vocabulary of the statements *)

Definition pattern_ok (pat : pattern) : bool :=
  negb (length pat <=? 0)%nat
  && forallb (forallb (fun o_m : onset_midi => (length o_m =? 2)%nat)) pat.

(** Every pattern has an occurrence and every event is a pair. *)
Definition well_formed (ps : patterns) : bool := forallb pattern_ok ps.

Definition has_empty_pattern (ps : patterns) : Prop := In [] ps.

Definition has_bad_event (ps : patterns) : Prop :=
  exists pat occ o_m,
    In pat ps /\ In occ pat /\ In o_m occ /\ length o_m <> 2%nat.

Definition malformed (ps : patterns) : Prop :=
  has_empty_pattern ps \/ has_bad_event ps.

Definition validation_message (msg : string) : Prop :=
  msg = msg_no_occurrence \/ msg = msg_not_pair.

(** The event [(onset, midi)] with integer components. *)
Definition ev (onset midi : Z) : onset_midi := [inject_Z onset; inject_Z midi].

(** The outcome is the triple [(f, p, r)], up to equality of numbers. *)
Definition returns_triple (m : Py pyval) (f p r : Q) : Prop :=
  exists f' p' r',
    outcome m = Ok (Triple f' p' r') /\ f' == f /\ p' == p /\ r' == r.

Definition in_unit_interval (x : Q) : Prop := 0 <= x /\ x <= 1.

Definition scores_in_unit_interval (v : pyval) : Prop :=
  match v with
  | Triple f p r =>
      in_unit_interval f /\ in_unit_interval p /\ in_unit_interval r
  | Single x => in_unit_interval x
  end.

(** The warnings of [validate] itself. *)
Definition validate_warnings (reference_patterns estimated_patterns : patterns)
  : list string :=
  (if (_n_onset_midi reference_patterns =? 0)%nat
   then ["Reference patterns are empty."%string] else [])
  ++ (if (_n_onset_midi estimated_patterns =? 0)%nat
      then ["Estimated patterns are empty."%string] else []).

(** The test applied to two prototypes: equal length, then line 231. *)
Definition prototypes_match (tol : Q) (P Q_ : occurrence) : bool :=
  (length P =? length Q_)%nat && transposition_test tol P Q_.

(** Some estimated prototype passes the test against the prototype of
    [ref_pattern]. *)
Definition is_matched (tol : Q) (estimated_patterns : patterns)
  (ref_pattern : pattern) : bool :=
  match ref_pattern with
  | [] => false
  | P :: _ =>
      existsb (fun est_pattern : pattern =>
                 match est_pattern with
                 | [] => false
                 | Q_ :: _ => prototypes_match tol P Q_
                 end) estimated_patterns
  end.

(** Two tuples hold the same numbers. *)
Definition same_tuple (a b : onset_midi) : Prop := Forall2 Qeq a b.

(** [P] is [Q_] moved by the constant [(dt, dp)]. *)
Definition translation_of (dt dp : Q) (P Q_ : occurrence) : Prop :=
  Forall2 (fun p q => same_tuple p (zip_with Qplus q [dt; dp])) P Q_.

Definition related_by_translation (P Q_ : occurrence) : Prop :=
  exists dt dp, translation_of dt dp P Q_.

Definition all_zero (a : list (list Q)) : Prop :=
  Forall (Forall (fun x => x == 0)) a.

(** [a] with its row [i] replaced. *)
Definition set_row (a : ndarray) (i : nat) (row : list Q) : ndarray :=
  mk_ndarray (nrows a) (ncols a) (list_set (cells a) i row).

(** The value the loops of [_compute_score_matrix] store at one cell. *)
Definition score_cell (similarity_metric : string) (occ_P occ_Q : occurrence)
  : result Q :=
  if String.eqb similarity_metric "cardinality_score" then
    py_div (float_of_nat (length (_occurrence_intersection occ_P occ_Q)))
      (float_of_nat (Nat.max (length occ_P) (length occ_Q)))
  else Raise (ValueError msg_similarity).

(** The value the loops of [establishment_FPR] store at one cell. *)
Definition establishment_cell (similarity_metric : string)
  (ref_pattern est_pattern : pattern) : result Q :=
  s <- _compute_score_matrix ref_pattern est_pattern similarity_metric ;;
  np_max s.

(** The value the loops of [compute_layer] store at one cell. *)
Definition layer_cell {A : Type} (func : A -> A -> result (Q * Q))
  (ref_element est_element : A) : result Q :=
  ' (precision, recall) <- func ref_element est_element ;;
  Ok (f_measure precision recall).

(** What one iteration of the loops of [occurrence_FPR] computes: nothing
    below the threshold, else the two values it stores in [O_PR]. *)
Definition occurrence_cell (thres : Q) (similarity_metric : string)
  (ref_pattern est_pattern : pattern) : result (option (Q * Q)) :=
  s <- _compute_score_matrix ref_pattern est_pattern similarity_metric ;;
  m <- np_max s ;;
  if Qle_bool thres m then
    c <- np_max_axis0 s ;;
    p <- np_mean c ;;
    r <- np_max_axis1 s ;;
    q <- np_mean r ;;
    Ok (Some (p, q))
  else Ok None.

Definition plane_value (f : Q * Q -> Q) (c : option (Q * Q)) : Q :=
  match c with
  | Some pq => f pq
  | None => 0
  end.

(** The index pairs appended to [rel_idx] along row [i], from column [j]. *)
Fixpoint relevant_in_row (i j : nat) (row : list (option (Q * Q)))
  : list (nat * nat) :=
  match row with
  | [] => []
  | c :: rest =>
      (match c with Some _ => [(i, j)] | None => [] end)
      ++ relevant_in_row i (S j) rest
  end.

Fixpoint relevant_from (i : nat) (rows : list (list (option (Q * Q))))
  : list (nat * nat) :=
  match rows with
  | [] => []
  | row :: rest => relevant_in_row i 0 row ++ relevant_from (S i) rest
  end.

(** Row [i] of [a] is written up to [done]; [k] zero cells remain. *)
Definition row_pending (a : ndarray) (i : nat) (done : list Q) (k : nat) : Prop :=
  (i < nrows a)%nat /\ (i < length (cells a))%nat
  /\ ncols a = (length done + k)%nat
  /\ nth i (cells a) [] = done ++ repeat 0 k.

(** No two events of the occurrence are equal. *)
Fixpoint distinct_events (occ : occurrence) : bool :=
  match occ with
  | [] => true
  | x :: rest => negb (set_mem x rest) && distinct_events rest
  end.

(** Every entry of the array lies in [0, 1]. *)
Definition unit_cells (a : ndarray) : Prop :=
  Forall (Forall in_unit_interval) (cells a).

Definition unit_pair (pr : Q * Q) : Prop :=
  in_unit_interval (fst pr) /\ in_unit_interval (snd pr).

Definition unit_cell_option (c : option (Q * Q)) : Prop :=
  match c with
  | Some pr => unit_pair pr
  | None => True
  end.

(** Some pattern of the collection holds an occurrence without events. *)
Definition has_empty_occurrence (ps : patterns) : Prop :=
  exists pat, In pat ps /\ In [] pat.

(** The array has at least one row and one column, and [cells] agrees
    with the shape. *)
Definition proper (a : ndarray) : Prop :=
  (0 < nrows a)%nat /\ (0 < ncols a)%nat
  /\ length (cells a) = nrows a
  /\ Forall (fun row => length row = ncols a) (cells a).

(** ** The metrics in the words of the specification

    These definitions follow the prose of the specification, not the
    source: families indexed by position, their maxima and their means. *)

(** The largest of [f 0], ..., [f n]. *)
Fixpoint max_upto (n : nat) (f : nat -> Q) : Q :=
  match n with
  | O => f O
  | S n' => Qmax (max_upto n' f) (f (S n'))
  end.

(** The largest [f k] for [k < n] (for [n] at least 1). *)
Definition max_below (n : nat) (f : nat -> Q) : Q := max_upto (pred n) f.

(** The sum of [f k] for [k < n]. *)
Fixpoint sum_below (n : nat) (f : nat -> Q) : Q :=
  match n with
  | O => 0
  | S n' => sum_below n' f + f n'
  end.

(** The mean of [f k] for [k < n]. *)
Definition mean_below (n : nat) (f : nat -> Q) : Q :=
  sum_below n f / float_of_nat n.

(** |intersection(P_i, Q_j)| / max(|P_i|, |Q_j|) *)
Definition cardinality_score (occ_P occ_Q : occurrence) : Q :=
  float_of_nat (length (_occurrence_intersection occ_P occ_Q))
  / float_of_nat (Nat.max (length occ_P) (length occ_Q)).

(** S[i, j]: the best cardinality score over the occurrence pairs of
    reference pattern [i] and estimated pattern [j]. *)
Definition establishment_S_spec (ref est : patterns) (i j : nat) : Q :=
  let P := nth i ref [] in
  let Q_ := nth j est [] in
  max_below (length P) (fun a =>
    max_below (length Q_) (fun b =>
      cardinality_score (nth a P []) (nth b Q_ []))).

(** Mean over the estimated patterns of their best reference match. *)
Definition establishment_precision_spec (ref est : patterns) : Q :=
  mean_below (length est) (fun j =>
    max_below (length ref) (fun i => establishment_S_spec ref est i j)).

(** Mean over the reference patterns of their best estimated match. *)
Definition establishment_recall_spec (ref est : patterns) : Q :=
  mean_below (length ref) (fun i =>
    max_below (length est) (fun j => establishment_S_spec ref est i j)).

(** ** Pure counterparts of the reductions *)

Definition list_max (l : list Q) : Q :=
  match l with
  | [] => 0
  | x :: rest => fold_left Qmax rest x
  end.

(** The entry of [a] at [(i, j)]. *)
Definition entry (a : ndarray) (i j : nat) : Q := nth j (nth i (cells a) []) 0.

(** The best cardinality score over the occurrence pairs of two patterns. *)
Definition best_score (ref_pattern est_pattern : pattern) : Q :=
  list_max (concat (map (fun occ_P => map (cardinality_score occ_P) est_pattern)
                      ref_pattern)).

(** The array whose entry [(i, j)] is [g] at the [i]-th and [j]-th element. *)
Definition matrix_of {A B : Type} (g : A -> B -> Q) (xs : list A) (ys : list B)
  : ndarray :=
  mk_ndarray (length xs) (length ys) (map (fun a => map (g a) ys) xs).

(** No pair of a reference and an estimated occurrence is empty on both
    sides, so that every cardinality score has a denominator. *)
Definition scores_defined (ref est : patterns) : Prop :=
  ~ (has_empty_occurrence ref /\ has_empty_occurrence est).

(** The precision and recall [occurrence_FPR] draws from its final state
    when some pair is relevant: one term per relevant pair. *)
Definition relevant_precision (st : occ_state) : Q :=
  np_sum (map (fun b =>
                 list_max (map (fun a => entry (O_P st) (fst a) (snd b))
                             (rel_idx st)))
            (rel_idx st))
  / float_of_nat (length (rel_idx st)).

Definition relevant_recall (st : occ_state) : Q :=
  np_sum (map (fun a =>
                 list_max (map (fun b => entry (O_R st) (fst a) (snd b))
                             (rel_idx st)))
            (rel_idx st))
  / float_of_nat (length (rel_idx st)).

(** The specification's reading of the denominators: one term per distinct
    column (row) that holds a relevant entry. *)
Definition distinct_columns (rel : list (nat * nat)) : list nat :=
  nodup Nat.eq_dec (map snd rel).

Definition distinct_rows (rel : list (nat * nat)) : list nat :=
  nodup Nat.eq_dec (map fst rel).

Definition precision_over_distinct_columns (st : occ_state) : Q :=
  np_sum (map (fun c =>
                 list_max (map (fun a => entry (O_P st) (fst a) c) (rel_idx st)))
            (distinct_columns (rel_idx st)))
  / float_of_nat (length (distinct_columns (rel_idx st))).

Definition recall_over_distinct_rows (st : occ_state) : Q :=
  np_sum (map (fun r =>
                 list_max (map (fun b => entry (O_R st) r (snd b)) (rel_idx st)))
            (distinct_rows (rel_idx st)))
  / float_of_nat (length (distinct_rows (rel_idx st))).

(** Every occurrence holds at least one event and no event twice. *)
Definition occurrences_clean (ps : patterns) : bool :=
  forallb (forallb (fun occ : occurrence =>
                      negb (length occ =? 0)%nat && distinct_events occ)) ps.

(** One iteration of two nested loops that fill an array: compute the
    value of the cell, store it. *)
Definition fill_cell {X Y : Type} (g : X -> Y -> result Q)
  (ix : X -> nat) (jy : Y -> nat) (x : X) (y : Y) (F : ndarray)
  : result ndarray :=
  v <- g x y ;; setitem F (ix x) (jy y) v.

(** Every event of the occurrence is a pair. *)
Definition events_are_pairs (occ : occurrence) : Prop :=
  Forall (fun o_m : onset_midi => length o_m = 2%nat) occ.

(** ** Closed forms of the reductions *)

(** Mean over [ys] of the largest [g a b], [a] running through [xs]: the
    mean of the column maxima of the array of [g]. *)
Definition col_max_mean {A B : Type} (g : A -> B -> Q) (xs : list A)
  (ys : list B) : Q :=
  np_sum (map (fun b => list_max (map (fun a => g a b) xs)) ys)
  / float_of_nat (length ys).

(** Mean over [xs] of the largest [g a b], [b] running through [ys]: the
    mean of the row maxima of the array of [g]. *)
Definition row_max_mean {A B : Type} (g : A -> B -> Q) (xs : list A)
  (ys : list B) : Q :=
  np_sum (map (fun a => list_max (map (g a) ys)) xs)
  / float_of_nat (length xs).

(** The precision and recall of [compute_first_layer_PR] as numbers. *)
Definition first_layer_P (ref_occs est_occs : occurrence) : Q :=
  float_of_nat (length (_occurrence_intersection ref_occs est_occs))
  / float_of_nat (length ref_occs).

Definition first_layer_R (ref_occs est_occs : occurrence) : Q :=
  float_of_nat (length (_occurrence_intersection ref_occs est_occs))
  / float_of_nat (length est_occs).

Definition first_layer_F (ref_occs est_occs : occurrence) : Q :=
  f_measure (first_layer_P ref_occs est_occs) (first_layer_R ref_occs est_occs).

(** The F-measure [compute_layer] stores for two patterns at layer 2. *)
Definition second_layer_F (ref_pattern est_pattern : pattern) : Q :=
  f_measure (col_max_mean first_layer_F ref_pattern est_pattern)
    (row_max_mean first_layer_F ref_pattern est_pattern).

(** No occurrence of the collection is empty. *)
Definition no_empty_occurrence (ps : patterns) : bool :=
  forallb (forallb (fun occ : occurrence => negb (length occ =? 0)%nat)) ps.

(** What the loops of [occurrence_FPR] keep for a pattern pair whose score
    matrix is defined: nothing below the threshold, else the mean of the
    column maxima and the mean of the row maxima of the score matrix. *)
Definition relevant_cell (thres : Q) (ref_pattern est_pattern : pattern)
  : option (Q * Q) :=
  if Qle_bool thres (best_score ref_pattern est_pattern) then
    Some (col_max_mean cardinality_score ref_pattern est_pattern,
          row_max_mean cardinality_score ref_pattern est_pattern)
  else None.

(** * Properties *)

(** ** The two monads *)

Lemma bind_ok {A B} (r : result A) (k : A -> result B) (b : B) :
  bind r k = Ok b -> exists a, r = Ok a /\ k a = Ok b.
Proof. destruct r as [a|e]; simpl; [eauto | discriminate]. Qed.

Lemma bind_raise {A B} (r : result A) (k : A -> result B) (e : exn) :
  bind r k = Raise e ->
  r = Raise e \/ exists a, r = Ok a /\ k a = Raise e.
Proof. destruct r as [a|e']; simpl; [eauto | intros [= ->]; auto]. Qed.

Lemma for_each_app {A S} (body : A -> S -> result S) (l l' : list A) (s : S) :
  for_each body (l ++ l') s = s' <- for_each body l s ;; for_each body l' s'.
Proof.
  revert s; induction l as [|a l IH]; intros s; simpl; [reflexivity|].
  destruct (body a s) as [s1|e]; simpl; [apply IH | reflexivity].
Qed.

Lemma for_each_ext {A S} (body body' : A -> S -> result S) (l : list A) (s : S) :
  (forall a s, In a l -> body a s = body' a s) ->
  for_each body l s = for_each body' l s.
Proof.
  revert s; induction l as [|a l IH]; intros s H; simpl; [reflexivity|].
  rewrite (H a s (or_introl eq_refl)).
  destruct (body' a s) as [s1|e]; simpl; [|reflexivity].
  apply IH. intros; apply H; right; assumption.
Qed.

Lemma mapM_ext {A B} (f g : A -> result B) (l : list A) :
  (forall a, In a l -> f a = g a) -> mapM f l = mapM g l.
Proof.
  induction l as [|a l IH]; intros H; simpl; [reflexivity|].
  rewrite (H a (or_introl eq_refl)), IH; [reflexivity|].
  intros; apply H; right; assumption.
Qed.

Lemma mapM_ok_map {A B} (f : A -> result B) (g : A -> B) (l : list A) :
  (forall a, In a l -> f a = Ok (g a)) -> mapM f l = Ok (map g l).
Proof.
  induction l as [|a l IH]; intros H; simpl; [reflexivity|].
  rewrite (H a (or_introl eq_refl)); simpl.
  rewrite IH; [reflexivity|]. intros; apply H; right; assumption.
Qed.

Lemma mapM_ok_length {A B} (f : A -> result B) (l : list A) (bs : list B) :
  mapM f l = Ok bs -> length bs = length l.
Proof.
  revert bs; induction l as [|a l IH]; intros bs; simpl.
  - intros [= <-]; reflexivity.
  - destruct (f a) as [b|e]; simpl; [|discriminate].
    destruct (mapM f l) as [bs'|e]; simpl; [|discriminate].
    intros [= <-]; simpl; f_equal; apply IH; reflexivity.
Qed.

(** What a successful comprehension holds, element by element. *)
Lemma mapM_ok_Forall2 {A B} (f : A -> result B) (l : list A) (bs : list B) :
  mapM f l = Ok bs -> Forall2 (fun a b => f a = Ok b) l bs.
Proof.
  revert bs; induction l as [|a l IH]; intros bs; simpl.
  - intros [= <-]; constructor.
  - destruct (f a) as [b|e] eqn:Ea; simpl; [|discriminate].
    destruct (mapM f l) as [bs'|e]; simpl; [|discriminate].
    intros [= <-]; constructor; [assumption | apply IH; reflexivity].
Qed.

(** A comprehension that raises does so at one of its elements. *)
Lemma mapM_raise {A B} (f : A -> result B) (l : list A) (e : exn) :
  mapM f l = Raise e -> exists a, In a l /\ f a = Raise e.
Proof.
  induction l as [|a l IH]; simpl; [discriminate|].
  destruct (f a) as [b|e'] eqn:Ea; simpl.
  - destruct (mapM f l) as [bs|e'']; simpl; [discriminate|].
    intros [= ->]. destruct IH as (a' & Hin & Ha'); [reflexivity|]; eauto.
  - intros [= ->]; eauto.
Qed.

(** A comprehension with a raising element raises. *)
Lemma mapM_not_ok {A B} (f : A -> result B) (l : list A) (a : A) (e : exn) :
  In a l -> f a = Raise e -> exists e', mapM f l = Raise e'.
Proof.
  induction l as [|a' l IH]; simpl; [tauto|].
  intros [->|Hin] Ha.
  - rewrite Ha; simpl; eauto.
  - destruct (f a') as [b|e']; simpl; [|eauto].
    destruct (IH Hin Ha) as [e'' ->]; simpl; eauto.
Qed.

(** ** validate *)

Lemma check_occurrence_ok (occ : occurrence) :
  forallb (fun o_m : onset_midi => (length o_m =? 2)%nat) occ = true ->
  check_occurrence occ tt = Ok tt.
Proof.
  unfold check_occurrence.
  induction occ as [|o_m occ IH]; simpl; [reflexivity|].
  intros [H1 H2]%andb_prop. unfold check_onset_midi at 1.
  rewrite H1; simpl. apply IH, H2.
Qed.

Lemma check_occurrence_bad (occ : occurrence) :
  forallb (fun o_m : onset_midi => (length o_m =? 2)%nat) occ = false ->
  check_occurrence occ tt = Raise (ValueError msg_not_pair).
Proof.
  unfold check_occurrence.
  induction occ as [|o_m occ IH]; simpl; [discriminate|].
  unfold check_onset_midi at 1.
  destruct (length o_m =? 2)%nat; simpl; [apply IH | reflexivity].
Qed.

Lemma check_occurrences_ok (pat : pattern) :
  forallb (forallb (fun o_m : onset_midi => (length o_m =? 2)%nat)) pat = true ->
  for_each check_occurrence pat tt = Ok tt.
Proof.
  induction pat as [|occ pat IH]; simpl; [reflexivity|].
  intros [H1 H2]%andb_prop.
  rewrite (check_occurrence_ok occ H1); simpl. apply IH, H2.
Qed.

Lemma check_occurrences_bad (pat : pattern) :
  forallb (forallb (fun o_m : onset_midi => (length o_m =? 2)%nat)) pat = false ->
  for_each check_occurrence pat tt = Raise (ValueError msg_not_pair).
Proof.
  induction pat as [|occ pat IH]; simpl; [discriminate|].
  destruct (forallb _ occ) eqn:E; simpl.
  - rewrite (check_occurrence_ok occ E); simpl. apply IH.
  - rewrite (check_occurrence_bad occ E); reflexivity.
Qed.

Lemma check_pattern_ok (pat : pattern) :
  pattern_ok pat = true -> check_pattern pat tt = Ok tt.
Proof.
  unfold pattern_ok, check_pattern. intros [H1 H2]%andb_prop.
  apply negb_true_iff in H1. rewrite H1. apply check_occurrences_ok, H2.
Qed.

Lemma check_pattern_bad (pat : pattern) :
  pattern_ok pat = false ->
  exists msg, check_pattern pat tt = Raise (ValueError msg)
              /\ validation_message msg.
Proof.
  unfold pattern_ok, check_pattern, validation_message.
  destruct (length pat <=? 0)%nat; simpl; [eauto|].
  intros H. rewrite (check_occurrences_bad pat H). eauto.
Qed.

Lemma check_patterns_ok (ps : patterns) :
  well_formed ps = true -> check_patterns ps tt = Ok tt.
Proof.
  unfold well_formed, check_patterns.
  induction ps as [|pat ps IH]; simpl; [reflexivity|].
  intros [H1 H2]%andb_prop.
  rewrite (check_pattern_ok pat H1); simpl. apply IH, H2.
Qed.

Lemma check_patterns_bad (ps : patterns) :
  well_formed ps = false ->
  exists msg, check_patterns ps tt = Raise (ValueError msg)
              /\ validation_message msg.
Proof.
  unfold well_formed, check_patterns.
  induction ps as [|pat ps IH]; simpl; [discriminate|].
  destruct (pattern_ok pat) eqn:E; simpl.
  - rewrite (check_pattern_ok pat E); simpl. apply IH.
  - intros _. destruct (check_pattern_bad pat E) as (msg & -> & Hm).
    simpl; eauto.
Qed.

Lemma malformed_not_well_formed (ps : patterns) :
  malformed ps -> well_formed ps = false.
Proof.
  unfold well_formed. intros H.
  destruct (forallb pattern_ok ps) eqn:E; [exfalso | reflexivity].
  rewrite forallb_forall in E.
  destruct H as [H | (pat & occ & o_m & Hp & Ho & He & Hlen)].
  - specialize (E [] H). discriminate.
  - specialize (E pat Hp). unfold pattern_ok in E.
    apply andb_prop in E as [_ E].
    rewrite forallb_forall in E. specialize (E occ Ho).
    rewrite forallb_forall in E. specialize (E o_m He).
    apply Nat.eqb_eq in E. contradiction.
Qed.

Lemma not_well_formed_malformed (ps : patterns) :
  well_formed ps = false -> malformed ps.
Proof.
  unfold well_formed, malformed, has_empty_pattern, has_bad_event.
  induction ps as [|pat ps IH]; simpl; [discriminate|].
  destruct (pattern_ok pat) eqn:E; simpl.
  - intros H. destruct (IH H) as [H' | (p & o & e & Hp & Ho & He & Hl)].
    + left; right; assumption.
    + right; exists p, o, e; auto.
  - intros _. unfold pattern_ok in E.
    destruct pat as [|occ0 pat']; [left; left; reflexivity|].
    simpl (negb _) in E. rewrite andb_true_l in E.
    right. exists (occ0 :: pat').
    assert (Hex : exists occ, In occ (occ0 :: pat')
              /\ forallb (fun o_m : onset_midi => (length o_m =? 2)%nat) occ = false).
    { clear -E. induction (occ0 :: pat') as [|o l IHl]; simpl in *; [discriminate|].
      destruct (forallb _ o) eqn:Eo; simpl in E.
      - destruct (IHl E) as (o' & Hin & Ho'); eauto.
      - eauto. }
    destruct Hex as (occ & Hin & Hocc). exists occ.
    assert (Hev : exists o_m, In o_m occ /\ length o_m <> 2%nat).
    { clear -Hocc. induction occ as [|o l IHl]; simpl in *; [discriminate|].
      destruct (length o =? 2)%nat eqn:Eo; simpl in Hocc.
      - destruct (IHl Hocc) as (o' & Hin & Ho'); eauto.
      - apply Nat.eqb_neq in Eo; eauto. }
    destruct Hev as (o_m & Hin' & Hl). exists o_m; auto.
Qed.

(** On well-formed input [validate] adds its warnings and runs the metric. *)
Lemma validate_well_formed {A} (metric : patterns -> patterns -> Py A)
  (ref est : patterns) :
  well_formed ref = true -> well_formed est = true ->
  validate metric ref est
  = (validate_warnings ref est ++ warned (metric ref est),
     outcome (metric ref est)).
Proof.
  intros Hr He. unfold validate, validate_warnings, warned, outcome.
  simpl. rewrite (check_patterns_ok ref Hr); simpl.
  rewrite (check_patterns_ok est He); simpl.
  destruct (metric ref est) as [w r].
  destruct (_n_onset_midi ref =? 0)%nat, (_n_onset_midi est =? 0)%nat;
    simpl; reflexivity.
Qed.

(** On malformed input [validate] raises, whatever the metric is: the
    metric is not run. *)
Lemma validate_malformed {A} (metric : patterns -> patterns -> Py A)
  (ref est : patterns) :
  malformed ref \/ malformed est ->
  exists msg,
    validate metric ref est
    = (validate_warnings ref est, Raise (ValueError msg))
    /\ validation_message msg.
Proof.
  intros H. unfold validate, validate_warnings. simpl.
  assert (Hc : exists msg,
             (u <- check_patterns ref tt ;; u' <- check_patterns est u ;; Ok u')
             = Raise (ValueError msg) /\ validation_message msg).
  { destruct (well_formed ref) eqn:Er.
    - rewrite (check_patterns_ok ref Er); simpl.
      destruct H as [H|H].
      + apply malformed_not_well_formed in H; congruence.
      + apply malformed_not_well_formed in H.
        destruct (check_patterns_bad est H) as (msg & -> & Hm); simpl; eauto.
    - destruct (check_patterns_bad ref Er) as (msg & -> & Hm); simpl; eauto. }
  destruct Hc as (msg & Hc & Hm). exists msg. split; [|assumption].
  rewrite Hc.
  destruct (_n_onset_midi ref =? 0)%nat, (_n_onset_midi est =? 0)%nat;
    reflexivity.
Qed.

(** ** Malformed input *)

Lemma METRICS_validated (name : string)
  (metric : kwargs -> patterns -> patterns -> Py pyval) :
  In (name, metric) METRICS ->
  exists body : kwargs -> patterns -> patterns -> Py pyval,
    forall kw ref est, metric kw ref est = validate (body kw) ref est.
Proof.
  unfold METRICS. simpl.
  intros [H|[H|[H|[H|[H|[H|[]]]]]]]; inversion H; subst; clear H.
  - exists (fun kw r e => py_lift (standard_FPR_body (tol kw) r e)); reflexivity.
  - exists (fun kw r e =>
              py_lift (establishment_FPR_body (similarity_metric kw) r e));
      reflexivity.
  - exists (fun kw r e =>
              py_lift (occurrence_FPR_body (thres kw) (similarity_metric kw) r e));
      reflexivity.
  - exists (fun _ r e => py_lift (three_layer_FPR_body r e)); reflexivity.
  - exists (fun kw => first_n_three_layer_P_body (n kw)); reflexivity.
  - exists (fun kw => first_n_target_proportion_R_body (n kw)); reflexivity.
Qed.

(** C8.  Every public metric, called on collections one of which holds a
    pattern without occurrences or an event that is not a pair, raises a
    [ValueError] carrying one of the two messages of [validate], and has by
    then emitted only the warnings of [validate].  The same holds for
    [validate] around any metric body whatever, so the body (and with it
    every score matrix) is never reached. *)
Theorem C8_malformed_input_raises_in_validate (ref est : patterns) :
  malformed ref \/ malformed est ->
  (forall name metric kw,
      In (name, metric) METRICS ->
      exists msg,
        metric kw ref est = (validate_warnings ref est, Raise (ValueError msg))
        /\ validation_message msg)
  /\ (forall (A : Type) (body : patterns -> patterns -> Py A),
         exists msg,
           validate body ref est
           = (validate_warnings ref est, Raise (ValueError msg))
           /\ validation_message msg).
Proof.
  intros H. split.
  - intros name metric kw Hin.
    destruct (METRICS_validated name metric Hin) as [body Hb].
    rewrite Hb. apply validate_malformed, H.
  - intros A body. apply validate_malformed, H.
Qed.

(** A pattern whose only occurrence holds a 3-element tuple. *)
Lemma C8_three_element_tuple_witness :
  (malformed [[[ [0; 60; 1] ]]] \/ malformed [[[ev 0 60]]])
  /\ ((forall name metric kw,
          In (name, metric) METRICS ->
          exists msg,
            metric kw [[[ [0; 60; 1] ]]] [[[ev 0 60]]]
            = (validate_warnings [[[ [0; 60; 1] ]]] [[[ev 0 60]]],
               Raise (ValueError msg))
            /\ validation_message msg)
      /\ (forall (A : Type) (body : patterns -> patterns -> Py A),
             exists msg,
               validate body [[[ [0; 60; 1] ]]] [[[ev 0 60]]]
               = (validate_warnings [[[ [0; 60; 1] ]]] [[[ev 0 60]]],
                  Raise (ValueError msg))
               /\ validation_message msg)).
Proof.
  assert (H : malformed [[[ [0; 60; 1] ]]] \/ malformed [[[ev 0 60]]]).
  { left; right. exists [[ [0; 60; 1] ]], [ [0; 60; 1] ], [0; 60; 1].
    simpl. repeat split; auto. }
  split; [exact H|].
  apply (C8_malformed_input_raises_in_validate _ _ H).
Defined.

(** ** Collections without events *)

Lemma no_events_true (ref est : patterns) :
  (_n_onset_midi ref = 0 \/ _n_onset_midi est = 0)%nat ->
  no_events ref est = true.
Proof.
  unfold no_events. intros [H|H]; rewrite H; simpl;
    [reflexivity | apply orb_true_r].
Qed.

Lemma validate_warnings_nonempty (ref est : patterns) :
  (_n_onset_midi ref = 0 \/ _n_onset_midi est = 0)%nat ->
  validate_warnings ref est <> [].
Proof.
  unfold validate_warnings. intros [H|H]; rewrite H; simpl.
  - discriminate.
  - destruct (_n_onset_midi ref =? 0)%nat; discriminate.
Qed.

Lemma app_nonempty_l {A} (l l' : list A) : l <> [] -> l ++ l' <> [].
Proof. destruct l; simpl; [congruence | discriminate]. Qed.

(** C1, as the code has it.  When one of two well-formed collections has
    no event at all, every metric of the registry emits a warning and
    returns without raising; the four FPR metrics return exactly
    (0, 0, 0). *)
Theorem C1_zero_events_short_circuit (ref est : patterns) (kw : kwargs) :
  well_formed ref = true -> well_formed est = true ->
  (_n_onset_midi ref = 0 \/ _n_onset_midi est = 0)%nat ->
  (forall name metric,
      In (name, metric) METRICS ->
      warned (metric kw ref est) <> []
      /\ exists v, outcome (metric kw ref est) = Ok v)
  /\ outcome (standard_FPR (tol kw) ref est) = Ok (Triple 0 0 0)
  /\ outcome (establishment_FPR (similarity_metric kw) ref est) = Ok (Triple 0 0 0)
  /\ outcome (occurrence_FPR (thres kw) (similarity_metric kw) ref est)
     = Ok (Triple 0 0 0)
  /\ outcome (three_layer_FPR ref est) = Ok (Triple 0 0 0).
Proof.
  intros Hr He Hz.
  pose proof (no_events_true ref est Hz) as Hn.
  pose proof (validate_warnings_nonempty ref est Hz) as Hw.
  split.
  - intros name metric Hin. unfold METRICS in Hin. simpl in Hin.
    destruct Hin as [H|[H|[H|[H|[H|[H|[]]]]]]]; inversion H; subst; clear H;
      cbv beta;
      unfold standard_FPR, establishment_FPR, occurrence_FPR, three_layer_FPR,
        first_n_three_layer_P, first_n_target_proportion_R;
      rewrite (validate_well_formed _ ref est Hr He);
      unfold warned, outcome, standard_FPR_body, establishment_FPR_body,
        occurrence_FPR_body, three_layer_FPR_body, first_n_three_layer_P_body,
        first_n_target_proportion_R_body;
      rewrite Hn; simpl; (split; [apply app_nonempty_l, Hw | eauto]).
  - unfold standard_FPR, establishment_FPR, occurrence_FPR, three_layer_FPR.
    rewrite !(validate_well_formed _ ref est Hr He).
    unfold outcome, standard_FPR_body, establishment_FPR_body,
      occurrence_FPR_body, three_layer_FPR_body.
    rewrite Hn. simpl. repeat split; reflexivity.
Qed.

Lemma C1_zero_events_witness :
  well_formed [[[ev 0 60]]] = true /\ well_formed [] = true
  /\ (_n_onset_midi [[[ev 0 60]]] = 0 \/ _n_onset_midi [] = 0)%nat
  /\ outcome (three_layer_FPR [[[ev 0 60]]] []) = Ok (Triple 0 0 0).
Proof.
  split; [reflexivity|]. split; [reflexivity|]. split; [right; reflexivity|].
  apply (C1_zero_events_short_circuit [[[ev 0 60]]] [] defaults);
    [reflexivity | reflexivity | right; reflexivity].
Defined.

(** C1 as stated fails: a reference collection made of one pattern without
    occurrences has no event, yet [standard_FPR] warns and then raises. *)
Lemma C1_counterexample_empty_pattern :
  _n_onset_midi [[]] = 0%nat
  /\ In ("standard_FPR"%string, fun kw => standard_FPR (tol kw)) METRICS
  /\ standard_FPR (tol defaults) [[]] [[[ev 0 60]]]
     = (["Reference patterns are empty."%string],
        Raise (ValueError msg_no_occurrence)).
Proof.
  split; [reflexivity|]. split; [left; reflexivity | reflexivity].
Qed.

(** At the short circuit the two first-n metrics hand back the 3-tuple
    of zeros, not one float. *)
Example first_n_short_circuit_returns_a_tuple :
  outcome (first_n_three_layer_P 5 [] [[[ev 0 60]]]) = Ok (Triple 0 0 0)
  /\ outcome (first_n_target_proportion_R 5 [[[ev 0 60]]] []) = Ok (Triple 0 0 0).
Proof. split; reflexivity. Qed.

(** ** The scenario of one pattern with one two-event occurrence *)

(** C2.  On reference = [[[(0,60),(1,62)]]] and an identical estimate,
    [standard_FPR], [establishment_FPR] and [three_layer_FPR] (default
    arguments) each return (1.0, 1.0, 1.0). *)
Theorem C2_identical_single_pattern :
  let reference := [[[ev 0 60; ev 1 62]]] in
  let estimated := [[[ev 0 60; ev 1 62]]] in
  returns_triple (standard_FPR (tol defaults) reference estimated) 1 1 1
  /\ returns_triple
       (establishment_FPR (similarity_metric defaults) reference estimated) 1 1 1
  /\ returns_triple (three_layer_FPR reference estimated) 1 1 1.
Proof.
  unfold returns_triple. repeat split.
  - eexists _, _, _. split; [vm_compute; reflexivity|].
    repeat split; reflexivity.
  - eexists _, _, _. split; [vm_compute; reflexivity|].
    repeat split; reflexivity.
  - eexists _, _, _. split; [vm_compute; reflexivity|].
    repeat split; reflexivity.
Qed.

(** ** The prototype test of standard_FPR *)

Lemma Qle_bool_true (x y : Q) : x <= y -> Qle_bool x y = true.
Proof. apply Qle_bool_iff. Qed.

Lemma np_sum_acc (l : list Q) (acc : Q) :
  fold_left Qplus l acc == acc + np_sum l.
Proof.
  unfold np_sum. revert acc.
  induction l as [|x l IH]; intros acc; simpl; [lra|].
  rewrite (IH (acc + x)), (IH (0 + x)). lra.
Qed.

Lemma np_sum_cons (x : Q) (l : list Q) : np_sum (x :: l) == x + np_sum l.
Proof. unfold np_sum at 1. simpl. rewrite np_sum_acc. lra. Qed.

Lemma np_sum_app (l l' : list Q) : np_sum (l ++ l') == np_sum l + np_sum l'.
Proof.
  induction l as [|x l IH]; simpl.
  - unfold np_sum at 2; simpl; lra.
  - rewrite !np_sum_cons, IH. lra.
Qed.

Lemma np_sum_zero (l : list Q) : Forall (fun x => x == 0) l -> np_sum l == 0.
Proof.
  induction 1 as [|x l Hx _ IH]; [reflexivity|].
  rewrite np_sum_cons, Hx, IH. lra.
Qed.

Lemma array_sum_zero (a : list (list Q)) : all_zero a -> array_sum a == 0.
Proof.
  unfold array_sum, all_zero.
  induction 1 as [|r a Hr _ IH]; simpl; [reflexivity|].
  rewrite np_sum_app, (np_sum_zero r Hr), IH. lra.
Qed.

Lemma row_sub_zero (r r' : list Q) :
  Forall (fun x => x == 0) r -> Forall (fun x => x == 0) r' ->
  Forall (fun x => x == 0) (zip_with Qminus r r').
Proof.
  intros H; revert r'. induction H as [|x r Hx _ IH]; intros r' H'.
  - constructor.
  - destruct H' as [|y r' Hy H']; simpl; constructor.
    + rewrite Hx, Hy; lra.
    + apply IH, H'.
Qed.

Lemma rows_sub_zero (a a' : list (list Q)) :
  all_zero a -> all_zero a' -> all_zero (zip_with (zip_with Qminus) a a').
Proof.
  unfold all_zero. intros H; revert a'.
  induction H as [|r a Hr _ IH]; intros a' H'.
  - constructor.
  - destruct H' as [|r' a' Hr' H']; simpl; constructor.
    + apply row_sub_zero; assumption.
    + apply IH, H'.
Qed.

Lemma row_sub_self (r : list Q) : Forall (fun x => x == 0) (zip_with Qminus r r).
Proof. induction r as [|x r IH]; simpl; constructor; [lra | exact IH]. Qed.

Lemma array_sub_self (P : occurrence) : all_zero (array_sub P P).
Proof.
  unfold all_zero, array_sub.
  induction P as [|r P IH]; simpl; constructor; [apply row_sub_self | exact IH].
Qed.

Lemma np_diff_zero (a : list (list Q)) : all_zero a -> all_zero (np_diff a).
Proof.
  intros H. unfold np_diff. apply rows_sub_zero; [|exact H].
  destruct H; simpl; [constructor | assumption].
Qed.

(** An occurrence passes the test against itself for any tolerance that
    is not negative. *)
Lemma prototypes_match_self (tol : Q) (P : occurrence) :
  0 <= tol -> prototypes_match tol P P = true.
Proof.
  intros Htol. unfold prototypes_match, transposition_test.
  rewrite Nat.eqb_refl; simpl.
  apply Qle_bool_true.
  rewrite (array_sum_zero _ (np_diff_zero _ (array_sub_self P))).
  exact Htol.
Qed.

Lemma prototypes_match_length (tol : Q) (P Q_ : occurrence) :
  length P <> length Q_ -> prototypes_match tol P Q_ = false.
Proof.
  intros H. unfold prototypes_match.
  apply Nat.eqb_neq in H. rewrite H. reflexivity.
Qed.

Lemma well_formed_no_empty (ps : patterns) (pat : pattern) :
  well_formed ps = true -> In pat ps -> pat <> [].
Proof.
  unfold well_formed. rewrite forallb_forall. intros H Hin ->.
  specialize (H [] Hin). discriminate.
Qed.

(** The inner loop with its [continue] and [break] is a search. *)
Lemma search_estimated_spec (tol : Q) (P : occurrence) (est : patterns) :
  (forall pat, In pat est -> pat <> []) ->
  search_estimated tol P est = Ok (is_matched tol est (P :: [])).
Proof.
  unfold is_matched. induction est as [|ep est IH]; intros Hne; simpl.
  - reflexivity.
  - destruct ep as [|Q_ ep'].
    + exfalso. apply (Hne []); [left|]; reflexivity.
    + simpl. unfold prototypes_match at 1.
      destruct (length P =? length Q_)%nat; simpl.
      * destruct (transposition_test tol P Q_); simpl; [reflexivity|].
        apply IH. intros; apply Hne; right; assumption.
      * apply IH. intros; apply Hne; right; assumption.
Qed.

Lemma is_matched_prototype (tol : Q) (est : patterns) (P : occurrence)
  (rest : list occurrence) :
  is_matched tol est (P :: rest) = is_matched tol est (P :: []).
Proof. reflexivity. Qed.

Lemma count_matches_from (tol : Q) (ref est : patterns) (k : nat) :
  (forall pat, In pat ref -> pat <> []) ->
  (forall pat, In pat est -> pat <> []) ->
  for_each (fun ref_pattern k =>
              P <- list_getitem ref_pattern 0 ;;
              hit <- search_estimated tol P est ;;
              Ok (if hit then S k else k)) ref k
  = Ok (k + length (filter (is_matched tol est) ref))%nat.
Proof.
  intros Hr He. revert k.
  induction ref as [|rp ref IH]; intros k.
  - simpl. f_equal; lia.
  - destruct rp as [|P rest].
    + exfalso. apply (Hr []); [left|]; reflexivity.
    + cbn [for_each filter]. unfold list_getitem at 1. cbn [nth_error bind].
      rewrite (search_estimated_spec tol P est He). cbn [bind].
      rewrite IH by (intros; apply Hr; right; assumption).
      rewrite (is_matched_prototype tol est P rest).
      destruct (is_matched tol est [P]); cbn [length]; f_equal; lia.
Qed.

(** [k] is the number of matched reference patterns. *)
Lemma count_matches_spec (tol : Q) (ref est : patterns) :
  well_formed ref = true -> well_formed est = true ->
  count_matches tol ref est = Ok (length (filter (is_matched tol est) ref)).
Proof.
  intros Hr He. unfold count_matches.
  rewrite count_matches_from.
  - reflexivity.
  - intros pat; apply well_formed_no_empty, Hr.
  - intros pat; apply well_formed_no_empty, He.
Qed.

(** C4.  In [standard_FPR] (tolerance not negative, as the default 1e-5),
    [k] counts the reference patterns that pass [is_matched]; a reference
    pattern whose prototype is a copy of the prototype of some estimated
    pattern passes it; and two prototypes of different lengths never pass
    the pairwise test, whatever they hold. *)
Theorem C4_standard_copy_matches_lengths_differ_never
  (tol : Q) (ref est : patterns) :
  0 <= tol -> well_formed ref = true -> well_formed est = true ->
  count_matches tol ref est = Ok (length (filter (is_matched tol est) ref))
  /\ (forall ref_pattern est_pattern P,
         In ref_pattern ref -> In est_pattern est ->
         hd_error ref_pattern = Some P -> hd_error est_pattern = Some P ->
         is_matched tol est ref_pattern = true
         /\ In ref_pattern (filter (is_matched tol est) ref))
  /\ (forall P Q_ : occurrence,
         length P <> length Q_ ->
         prototypes_match tol P Q_ = false
         /\ search_estimated tol P [[Q_]] = Ok false).
Proof.
  intros Htol Hr He. split; [apply count_matches_spec; assumption|]. split.
  - intros rp ep P Hrp Hep HP HQ.
    assert (Hm : is_matched tol est rp = true).
    { destruct rp as [|P' rest]; [discriminate|]. injection HP as ->.
      destruct ep as [|Q' rest']; [discriminate|]. injection HQ as ->.
      unfold is_matched. apply existsb_exists.
      exists (P :: rest'). split; [assumption|].
      apply prototypes_match_self, Htol. }
    split; [exact Hm|]. apply filter_In; split; assumption.
  - intros P Q_ Hlen. split; [apply prototypes_match_length, Hlen|].
    simpl. apply Nat.eqb_neq in Hlen. rewrite Hlen. reflexivity.
Qed.

Lemma C4_standard_witness :
  0 <= tol defaults
  /\ well_formed [[[ev 0 60; ev 1 62]]] = true
  /\ well_formed [[[ev 5 70]]; [[ev 0 60; ev 1 62]; [ev 3 60]]] = true
  /\ count_matches (tol defaults) [[[ev 0 60; ev 1 62]]]
       [[[ev 5 70]]; [[ev 0 60; ev 1 62]; [ev 3 60]]]
     = Ok (length (filter
                     (is_matched (tol defaults)
                        [[[ev 5 70]]; [[ev 0 60; ev 1 62]; [ev 3 60]]])
                     [[[ev 0 60; ev 1 62]]])).
Proof.
  split; [discriminate|]. split; [reflexivity|]. split; [reflexivity|].
  apply (C4_standard_copy_matches_lengths_differ_never (tol defaults)
           [[[ev 0 60; ev 1 62]]]
           [[[ev 5 70]]; [[ev 0 60; ev 1 62]; [ev 3 60]]]);
    [discriminate | reflexivity | reflexivity].
Defined.

(** C9.  Two prototypes of equal length that no constant (onset, pitch)
    translation relates, and that [standard_FPR] nevertheless counts as a
    match: the first differences of the onset column and of the pitch
    column are added up before the absolute value is taken, and here the
    onset deviation -1 and the pitch deviation +1 cancel. *)
Theorem C9_standard_match_without_translation :
  exists P Q_ : occurrence,
    length P = length Q_
    /\ ~ related_by_translation P Q_
    /\ Forall2 same_tuple (np_diff (array_sub P Q_)) [[-1; 1]]
    /\ array_sum (np_diff (array_sub P Q_)) == 0
    /\ prototypes_match (tol defaults) P Q_ = true
    /\ is_matched (tol defaults) [[Q_]] [P] = true
    /\ returns_triple (standard_FPR (tol defaults) [[P]] [[Q_]]) 1 1 1.
Proof.
  exists [ev 0 60; ev 1 62], [ev 0 60; ev 2 61].
  split; [reflexivity|]. split.
  - intros (dt & dp & H). unfold translation_of in H.
    inversion H as [|p q P' Q' H0 H1]; subst; clear H.
    inversion H1 as [|p q P' Q' H2 _]; subst; clear H1.
    unfold same_tuple, ev in H0, H2. simpl in H0, H2.
    inversion H0 as [|a b l l' Ha _]; subst; clear H0.
    inversion H2 as [|a b l l' Hb _]; subst; clear H2.
    unfold inject_Z in Ha, Hb. lra.
  - split.
    { repeat constructor. }
    split; [reflexivity|]. split; [reflexivity|]. split; [reflexivity|].
    unfold returns_triple. eexists _, _, _.
    split; [vm_compute; reflexivity|]. repeat split; reflexivity.
Qed.

(** ** Filling a matrix cell by cell *)

Lemma bind_assoc {A B C} (r : result A) (k : A -> result B) (h : B -> result C) :
  bind (bind r k) h = bind r (fun a => bind (k a) h).
Proof. destruct r; reflexivity. Qed.

Lemma list_set_length {A} (l : list A) (i : nat) (v : A) :
  length (list_set l i v) = length l.
Proof.
  revert i; induction l as [|a l IH]; intros [|i]; simpl; auto.
Qed.

Lemma list_set_app {A} (l l' : list A) (a v : A) :
  list_set (l ++ a :: l') (length l) v = l ++ v :: l'.
Proof. induction l as [|b l IH]; simpl; [reflexivity | f_equal; exact IH]. Qed.

Lemma list_set_twice {A} (l : list A) (i : nat) (v w : A) :
  list_set (list_set l i v) i w = list_set l i w.
Proof.
  revert i; induction l as [|a l IH]; intros [|i]; simpl; auto.
  f_equal; apply IH.
Qed.

Lemma nth_list_set {A} (l : list A) (i : nat) (v d : A) :
  (i < length l)%nat -> nth i (list_set l i v) d = v.
Proof.
  revert i; induction l as [|a l IH]; intros [|i]; simpl; intros H;
    try lia; [reflexivity | apply IH; lia].
Qed.

Lemma list_set_nth {A} (l : list A) (i : nat) (d : A) :
  list_set l i (nth i l d) = l.
Proof.
  revert i; induction l as [|a l IH]; intros [|i]; simpl; auto.
  f_equal; apply IH.
Qed.

Lemma nth_middle_len {A} (l l' : list A) (a d : A) :
  nth (length l) (l ++ a :: l') d = a.
Proof. induction l; simpl; auto. Qed.

Lemma set_row_same (a : ndarray) (i : nat) :
  set_row a i (nth i (cells a) []) = a.
Proof. destruct a as [n m c]. unfold set_row; simpl. rewrite list_set_nth. reflexivity. Qed.

Lemma set_row_twice (a : ndarray) (i : nat) (r r' : list Q) :
  set_row (set_row a i r) i r' = set_row a i r'.
Proof. unfold set_row; simpl. rewrite list_set_twice. reflexivity. Qed.

(** Writing cell [(i, j)] when row [i] is known. *)
Lemma setitem_in_row (a : ndarray) (i : nat) (done rest : list Q) (z v : Q) :
  (i < nrows a)%nat -> (length done < ncols a)%nat ->
  (i < length (cells a))%nat ->
  nth i (cells a) [] = done ++ z :: rest ->
  setitem a i (length done) v = Ok (set_row a i (done ++ v :: rest)).
Proof.
  intros Hi Hj _ Hrow. unfold setitem.
  apply Nat.ltb_lt in Hi, Hj. rewrite Hi, Hj. simpl.
  rewrite Hrow, list_set_app. reflexivity.
Qed.

Section Fill.
Context {X Y : Type}.
Variable g : X -> Y -> result Q.
Variable ix : X -> nat.
Variable jy : Y -> nat.

Lemma fill_row (x : X) (ys : list Y) :
  forall (F : ndarray) (done : list Q),
    (ix x < nrows F)%nat -> (ix x < length (cells F))%nat ->
    ncols F = (length done + length ys)%nat ->
    map jy ys = seq (length done) (length ys) ->
    nth (ix x) (cells F) [] = done ++ repeat 0 (length ys) ->
    for_each (fill_cell g ix jy x) ys F
    = vs <- mapM (g x) ys ;; Ok (set_row F (ix x) (done ++ vs)).
Proof.
  induction ys as [|y ys IH]; intros F done Hi Hi' Hc Hj Hrow.
  - simpl. simpl in Hrow. rewrite <- Hrow, set_row_same. reflexivity.
  - simpl in Hj. injection Hj as Hy Hj.
    cbn [for_each mapM]. unfold fill_cell at 1.
    destruct (g x y) as [v|e]; cbn [bind]; [|reflexivity].
    rewrite Hy.
    rewrite (setitem_in_row F (ix x) done (repeat 0 (length ys)) 0 v
               Hi ltac:(simpl in Hc; lia) Hi' Hrow).
    cbn [bind].
    rewrite (IH (set_row F (ix x) (done ++ v :: repeat 0 (length ys)))
               (done ++ [v])).
    + destruct (mapM (g x) ys) as [vs|e]; cbn [bind]; [|reflexivity].
      rewrite set_row_twice, <- app_assoc. reflexivity.
    + exact Hi.
    + simpl. rewrite list_set_length. exact Hi'.
    + simpl. rewrite length_app. simpl in *. lia.
    + rewrite length_app. simpl. rewrite Nat.add_1_r. exact Hj.
    + simpl. rewrite nth_list_set by exact Hi'.
      rewrite <- app_assoc. reflexivity.
Qed.

Lemma fill_rows (ys : list Y) (xs : list X) :
  map jy ys = seq 0 (length ys) ->
  forall (F : ndarray) (done : list (list Q)),
    nrows F = (length done + length xs)%nat ->
    ncols F = length ys ->
    map ix xs = seq (length done) (length xs) ->
    cells F = done ++ repeat (repeat 0 (length ys)) (length xs) ->
    for_each (fun x F => for_each (fill_cell g ix jy x) ys F) xs F
    = rows <- mapM (fun x => mapM (g x) ys) xs ;;
      Ok (mk_ndarray (nrows F) (ncols F) (done ++ rows)).
Proof.
  intros Hj. induction xs as [|x xs IH]; intros F done Hn Hm Hi Hcells.
  - simpl. simpl in Hcells. rewrite <- Hcells. destruct F; reflexivity.
  - simpl in Hi. injection Hi as Hx Hi.
    cbn [for_each mapM].
    assert (Hlen : (ix x < length (cells F))%nat).
    { rewrite Hcells, length_app, Hx. simpl. lia. }
    rewrite (fill_row x ys F []).
    + destruct (mapM (g x) ys) as [vs|e]; cbn [bind]; [|reflexivity].
      rewrite (IH (set_row F (ix x) ([] ++ vs)) (done ++ [vs])).
      * destruct (mapM (fun x0 => mapM (g x0) ys) xs) as [rows|e];
          cbn [bind]; [|reflexivity].
        simpl. rewrite <- app_assoc. reflexivity.
      * simpl. rewrite length_app. simpl in *. lia.
      * simpl. exact Hm.
      * rewrite length_app. simpl. rewrite Nat.add_1_r. exact Hi.
      * simpl. rewrite Hcells, Hx. simpl repeat.
        rewrite list_set_app, <- app_assoc. reflexivity.
    + rewrite Hn, Hx. simpl. lia.
    + exact Hlen.
    + simpl. exact Hm.
    + exact Hj.
    + rewrite Hcells, Hx. simpl repeat. rewrite nth_middle_len. reflexivity.
Qed.

(** The two nested loops over a fresh [np.zeros] array compute every
    cell in row-major order and stop at the first exception. *)
Lemma fill_zeros (xs : list X) (ys : list Y) :
  map ix xs = seq 0 (length xs) ->
  map jy ys = seq 0 (length ys) ->
  for_each (fun x F => for_each (fill_cell g ix jy x) ys F) xs
    (np_zeros (length xs) (length ys))
  = rows <- mapM (fun x => mapM (g x) ys) xs ;;
    Ok (mk_ndarray (length xs) (length ys) rows).
Proof.
  intros Hi Hj.
  rewrite (fill_rows ys xs Hj (np_zeros (length xs) (length ys)) []);
    try reflexivity. exact Hi.
Qed.
End Fill.

Lemma enumerate_fst {A} (l : list A) (i : nat) :
  map fst (combine (seq i (length l)) l) = seq i (length l).
Proof.
  revert i; induction l as [|a l IH]; intros i; simpl; [reflexivity|].
  f_equal. apply IH.
Qed.

Lemma enumerate_length {A} (l : list A) : length (enumerate l) = length l.
Proof.
  unfold enumerate. rewrite length_combine, length_seq. apply Nat.min_id.
Qed.

Lemma mapM_enumerate_from {A B} (f : A -> result B) (l : list A) (i : nat) :
  mapM (fun p : nat * A => f (snd p)) (combine (seq i (length l)) l) = mapM f l.
Proof.
  revert i; induction l as [|a l IH]; intros i; simpl; [reflexivity|].
  rewrite IH. reflexivity.
Qed.

(** Two nested [enumerate] loops that store [g a b] at [(iP, iQ)]. *)
Lemma fill_enumerate {A B} (g : A -> B -> result Q) (P : list A) (Q_ : list B) :
  for_each (fun (x : nat * A) F =>
              for_each (fun (y : nat * B) F =>
                          v <- g (snd x) (snd y) ;; setitem F (fst x) (fst y) v)
                (enumerate Q_) F)
    (enumerate P) (np_zeros (length P) (length Q_))
  = rows <- mapM (fun a => mapM (g a) Q_) P ;;
    Ok (mk_ndarray (length P) (length Q_) rows).
Proof.
  pose proof (fill_zeros (fun (x : nat * A) (y : nat * B) => g (snd x) (snd y))
                fst fst (enumerate P) (enumerate Q_)) as H.
  rewrite !enumerate_length in H. unfold fill_cell in H.
  rewrite H by (unfold enumerate; apply enumerate_fst).
  unfold enumerate.
  rewrite (mapM_enumerate_from (fun a => mapM (fun y : nat * B => g a (snd y))
                                  (combine (seq 0 (length Q_)) Q_)) P 0).
  rewrite (mapM_ext _ (fun a => mapM (g a) Q_)); [reflexivity|].
  intros a _. apply (mapM_enumerate_from (g a) Q_ 0).
Qed.

(** ** The matrices of the metrics, cell by cell *)

Lemma score_matrix_rows (P Q_ : pattern) (sim : string) :
  _compute_score_matrix P Q_ sim
  = rows <- mapM (fun occ_P => mapM (score_cell sim occ_P) Q_) P ;;
    Ok (mk_ndarray (length P) (length Q_) rows).
Proof.
  rewrite <- (fill_enumerate (score_cell sim) P Q_).
  unfold _compute_score_matrix.
  apply for_each_ext. intros [iP occ_P] sm _.
  apply for_each_ext. intros [iQ occ_Q] sm' _.
  unfold score_cell. simpl.
  destruct (String.eqb sim "cardinality_score"); reflexivity.
Qed.

Lemma establishment_matrix_rows (sim : string) (ref est : patterns) :
  establishment_matrix sim ref est
  = rows <- mapM (fun rp => mapM (establishment_cell sim rp) est) ref ;;
    Ok (mk_ndarray (length ref) (length est) rows).
Proof.
  rewrite <- (fill_enumerate (establishment_cell sim) ref est).
  unfold establishment_matrix.
  apply for_each_ext. intros [iP rp] S _.
  apply for_each_ext. intros [iQ ep] S' _.
  unfold establishment_cell. simpl. rewrite bind_assoc. reflexivity.
Qed.

Lemma list_getitem_app {A} (pre l : list A) (a : A) :
  list_getitem (pre ++ a :: l) (length pre) = Ok a.
Proof.
  unfold list_getitem. rewrite nth_error_app2 by lia.
  rewrite Nat.sub_diag. reflexivity.
Qed.

Lemma mapM_range_from {A B} (f : A -> result B) (l pre : list A) :
  mapM (fun i => a <- list_getitem (pre ++ l) i ;; f a)
    (seq (length pre) (length l))
  = mapM f l.
Proof.
  revert pre; induction l as [|a l IH]; intros pre; simpl; [reflexivity|].
  rewrite list_getitem_app. simpl.
  replace (pre ++ a :: l) with ((pre ++ [a]) ++ l) by (rewrite <- app_assoc; reflexivity).
  replace (S (length pre)) with (length (pre ++ [a]))
    by (rewrite length_app; simpl; lia).
  rewrite IH. reflexivity.
Qed.

(** A loop over [xrange(len(l))] that reads [l[i]] visits the elements. *)
Lemma mapM_range {A B} (f : A -> result B) (l : list A) :
  mapM (fun i => a <- list_getitem l i ;; f a) (seq 0 (length l)) = mapM f l.
Proof. apply (mapM_range_from f l []). Qed.

Lemma list_getitem_in_range {A} (l : list A) (i : nat) :
  (i < length l)%nat -> exists a, list_getitem l i = Ok a.
Proof.
  intros H. unfold list_getitem.
  destruct (nth_error l i) as [a|] eqn:E; [eauto|].
  apply nth_error_None in E. lia.
Qed.

Lemma compute_layer_rows {A} (func : A -> A -> result (Q * Q))
  (ref est : list A) :
  compute_layer func ref est
  = rows <- mapM (fun r => mapM (layer_cell func r) est) ref ;;
    Ok (mk_ndarray (length ref) (length est) rows).
Proof.
  pose proof (fill_zeros
                (fun iP iQ =>
                   r <- list_getitem ref iP ;;
                   e <- list_getitem est iQ ;; layer_cell func r e)
                (fun i => i) (fun j => j)
                (seq 0 (length ref)) (seq 0 (length est))) as H.
  rewrite !length_seq, !map_id in H.
  specialize (H eq_refl eq_refl).
  unfold compute_layer.
  transitivity
    (rows <- mapM (fun iP => mapM (fun iQ =>
                     r <- list_getitem ref iP ;;
                     e <- list_getitem est iQ ;; layer_cell func r e)
                     (seq 0 (length est))) (seq 0 (length ref)) ;;
     Ok (mk_ndarray (length ref) (length est) rows)).
  - rewrite <- H. apply for_each_ext. intros iP F _.
    apply for_each_ext. intros iQ F' _.
    unfold fill_cell, layer_cell.
    destruct (list_getitem ref iP) as [r|e]; simpl; [|reflexivity].
    destruct (list_getitem est iQ) as [e'|e]; simpl; [|reflexivity].
    destruct (func r e') as [[p q]|e]; reflexivity.
  - f_equal.
    rewrite <- (mapM_range (fun r => mapM (layer_cell func r) est) ref).
    apply mapM_ext. intros iP HiP. apply in_seq in HiP.
    destruct (list_getitem_in_range ref iP) as [r Hr]; [lia|].
    rewrite Hr. simpl.
    rewrite <- (mapM_range (layer_cell func r) est). reflexivity.
Qed.

(** ** The loops of occurrence_FPR *)

Lemma row_pending_write (a : ndarray) (i : nat) (done : list Q) (k : nat) (v : Q) :
  row_pending a i done (S k) ->
  setitem a i (length done) v = Ok (set_row a i (done ++ v :: repeat 0 k))
  /\ row_pending (set_row a i (done ++ v :: repeat 0 k)) i (done ++ [v]) k.
Proof.
  intros (Hi & Hi' & Hc & Hrow). split.
  - apply (setitem_in_row a i done (repeat 0 k) 0 v); auto. lia.
  - unfold row_pending, set_row; simpl.
    rewrite list_set_length, length_app, nth_list_set by exact Hi'.
    rewrite <- app_assoc. simpl. repeat split; auto; lia.
Qed.

Lemma row_pending_skip (a : ndarray) (i : nat) (done : list Q) (k : nat) :
  row_pending a i done (S k) -> row_pending a i (done ++ [0]) k.
Proof.
  intros (Hi & Hi' & Hc & Hrow). unfold row_pending.
  rewrite length_app, <- app_assoc. simpl. repeat split; auto; lia.
Qed.

Lemma row_pending_done (a : ndarray) (i : nat) (done : list Q) :
  row_pending a i done 0 -> set_row a i done = a.
Proof.
  intros (_ & _ & _ & Hrow). simpl in Hrow. rewrite app_nil_r in Hrow.
  rewrite <- Hrow. apply set_row_same.
Qed.

Section OccurrenceLoop.
Variable thres : Q.
Variable sim : string.

Lemma occurrence_row (i : nat) (rp : pattern) (ys : list (nat * pattern)) :
  forall (st : occ_state) (doneP doneR : list Q),
    length doneR = length doneP ->
    map fst ys = seq (length doneP) (length ys) ->
    row_pending (O_P st) i doneP (length ys) ->
    row_pending (O_R st) i doneR (length ys) ->
    for_each (fun '(iQ, est_pattern) st =>
                occurrence_step thres sim i rp iQ est_pattern st) ys st
    = cs <- mapM (fun y => occurrence_cell thres sim rp (snd y)) ys ;;
      Ok (mk_occ_state
            (set_row (O_P st) i (doneP ++ map (plane_value fst) cs))
            (set_row (O_R st) i (doneR ++ map (plane_value snd) cs))
            (rel_idx st ++ relevant_in_row i (length doneP) cs)).
Proof.
  induction ys as [|[iQ ep] ys IH]; intros st doneP doneR Hlen Hj HP HR.
  - simpl. rewrite !app_nil_r.
    rewrite (row_pending_done _ _ _ HP), (row_pending_done _ _ _ HR).
    destruct st; reflexivity.
  - simpl in Hj. injection Hj as HiQ Hj. subst iQ.
    cbn [for_each mapM snd length] in *.
    unfold occurrence_step at 1, occurrence_cell at 1.
    destruct (_compute_score_matrix rp ep sim) as [s|e]; cbn [bind];
      [|reflexivity].
    destruct (np_max s) as [m|e]; cbn [bind]; [|reflexivity].
    destruct (Qle_bool thres m).
    + destruct (np_max_axis0 s) as [c|e]; cbn [bind]; [|reflexivity].
      destruct (np_mean c) as [p|e]; cbn [bind]; [|reflexivity].
      destruct (row_pending_write _ _ _ _ p HP) as [-> HP'].
      cbn [bind].
      destruct (np_max_axis1 s) as [r|e]; cbn [bind]; [|reflexivity].
      destruct (np_mean r) as [q|e]; cbn [bind]; [|reflexivity].
      rewrite <- Hlen.
      destruct (row_pending_write _ _ _ _ q HR) as [-> HR'].
      cbn [bind]. rewrite Hlen.
      rewrite (IH _ (doneP ++ [p]) (doneR ++ [q])); cbn [O_P O_R rel_idx].
      * destruct (mapM _ ys) as [cs|e]; cbn [bind]; [|reflexivity].
        rewrite !set_row_twice, !length_app, <- !app_assoc.
        cbn [length map plane_value fst snd relevant_in_row app].
        rewrite Nat.add_1_r. reflexivity.
      * rewrite !length_app, Hlen. reflexivity.
      * rewrite length_app. simpl. rewrite Nat.add_1_r. exact Hj.
      * exact HP'.
      * exact HR'.
    + cbn [bind].
      rewrite (IH st (doneP ++ [0]) (doneR ++ [0])).
      * destruct (mapM _ ys) as [cs|e]; cbn [bind]; [|reflexivity].
        rewrite !length_app, <- !app_assoc.
        cbn [length map plane_value relevant_in_row app].
        rewrite Nat.add_1_r. reflexivity.
      * rewrite !length_app, Hlen. reflexivity.
      * rewrite length_app. simpl. rewrite Nat.add_1_r. exact Hj.
      * apply row_pending_skip, HP.
      * apply row_pending_skip, HR.
Qed.

Lemma occurrence_rows (ys : list (nat * pattern)) (xs : list (nat * pattern)) :
  map fst ys = seq 0 (length ys) ->
  forall (st : occ_state) (doneP doneR : list (list Q)),
    length doneR = length doneP ->
    map fst xs = seq (length doneP) (length xs) ->
    nrows (O_P st) = (length doneP + length xs)%nat ->
    nrows (O_R st) = (length doneP + length xs)%nat ->
    ncols (O_P st) = length ys -> ncols (O_R st) = length ys ->
    cells (O_P st) = doneP ++ repeat (repeat 0 (length ys)) (length xs) ->
    cells (O_R st) = doneR ++ repeat (repeat 0 (length ys)) (length xs) ->
    for_each (fun '(iP, ref_pattern) st =>
                for_each (fun '(iQ, est_pattern) st =>
                            occurrence_step thres sim iP ref_pattern
                              iQ est_pattern st) ys st) xs st
    = css <- mapM (fun x => mapM (fun y => occurrence_cell thres sim
                                            (snd x) (snd y)) ys) xs ;;
      Ok (mk_occ_state
            (mk_ndarray (nrows (O_P st)) (ncols (O_P st))
               (doneP ++ map (map (plane_value fst)) css))
            (mk_ndarray (nrows (O_R st)) (ncols (O_R st))
               (doneR ++ map (map (plane_value snd)) css))
            (rel_idx st ++ relevant_from (length doneP) css)).
Proof.
  intros Hj. induction xs as [|[iP rp] xs IH];
    intros st doneP doneR Hlen Hi HnP HnR HmP HmR HcP HcR.
  - simpl. simpl in HcP, HcR. rewrite !app_nil_r in *.
    rewrite <- HcP, <- HcR. destruct st as [[] [] ?]; reflexivity.
  - simpl in Hi. injection Hi as HiP Hi. subst iP.
    cbn [for_each mapM snd length] in *.
    assert (HP : row_pending (O_P st) (length doneP) [] (length ys)).
    { unfold row_pending. rewrite HcP. cbn [repeat].
      rewrite length_app, nth_middle_len.
      simpl. repeat split; auto; lia. }
    assert (HR : row_pending (O_R st) (length doneP) [] (length ys)).
    { unfold row_pending. rewrite HcR, <- Hlen. cbn [repeat].
      rewrite length_app, nth_middle_len.
      simpl. repeat split; auto; lia. }
    rewrite (occurrence_row (length doneP) rp ys st [] [] eq_refl Hj HP HR).
    destruct (mapM (fun y => occurrence_cell thres sim rp (snd y)) ys)
      as [cs|e]; cbn [bind]; [|reflexivity].
    cbn [app length].
    rewrite (IH _ (doneP ++ [map (plane_value fst) cs])
               (doneR ++ [map (plane_value snd) cs]));
      cbn [O_P O_R rel_idx set_row nrows ncols cells].
    + destruct (mapM _ xs) as [css|e]; cbn [bind]; [|reflexivity].
      rewrite !length_app, <- !app_assoc.
      cbn [length map relevant_from app].
      rewrite Nat.add_1_r. reflexivity.
    + rewrite !length_app, Hlen. reflexivity.
    + rewrite length_app. simpl. rewrite Nat.add_1_r. exact Hi.
    + rewrite length_app. simpl. lia.
    + rewrite length_app. simpl. lia.
    + exact HmP.
    + exact HmR.
    + rewrite HcP. simpl repeat. rewrite list_set_app, <- app_assoc.
      reflexivity.
    + rewrite HcR, <- Hlen. simpl repeat. rewrite list_set_app, <- app_assoc.
      reflexivity.
Qed.

(** The loops of [occurrence_FPR] evaluate [occurrence_cell] at every
    pattern pair in row-major order; the planes of [O_PR] hold the
    values of the relevant pairs and zero elsewhere, and [rel_idx]
    lists the relevant pairs in that order. *)
Lemma occurrence_loop_cells (ref est : patterns) :
  occurrence_loop thres sim ref est
  = css <- mapM (fun rp => mapM (occurrence_cell thres sim rp) est) ref ;;
    Ok (mk_occ_state
          (mk_ndarray (length ref) (length est)
             (map (map (plane_value fst)) css))
          (mk_ndarray (length ref) (length est)
             (map (map (plane_value snd)) css))
          (relevant_from 0 css)).
Proof.
  unfold occurrence_loop.
  assert (Hest : map fst (enumerate est) = seq 0 (length (enumerate est))).
  { rewrite enumerate_length. apply enumerate_fst. }
  assert (Href : map fst (enumerate ref) = seq 0 (length (enumerate ref))).
  { rewrite enumerate_length. apply enumerate_fst. }
  rewrite (occurrence_rows (enumerate est) (enumerate ref) Hest _ [] []
             eq_refl Href);
    cbn [O_P O_R rel_idx np_zeros nrows ncols cells app length];
    rewrite ?enumerate_length; try reflexivity.
  unfold enumerate.
  rewrite (mapM_enumerate_from
             (fun rp => mapM (fun y : nat * pattern =>
                                occurrence_cell thres sim rp (snd y))
                          (combine (seq 0 (length est)) est)) ref 0).
  rewrite (mapM_ext _ (fun rp => mapM (occurrence_cell thres sim rp) est));
    [reflexivity|].
  intros rp _. apply (mapM_enumerate_from (occurrence_cell thres sim rp) est 0).
Qed.
End OccurrenceLoop.

(** ** Arithmetic of the scores *)

Lemma in_unit_zero : in_unit_interval 0.
Proof. unfold in_unit_interval; lra. Qed.

Lemma float_of_nat_nonneg (k : nat) : 0 <= float_of_nat k.
Proof. unfold float_of_nat, Qle; simpl. lia. Qed.

Lemma float_of_nat_le (k m : nat) : (k <= m)%nat -> float_of_nat k <= float_of_nat m.
Proof. intros H. unfold float_of_nat, Qle; simpl. lia. Qed.

Lemma float_of_nat_pos (k : nat) : (0 < k)%nat -> 0 < float_of_nat k.
Proof. intros H. unfold float_of_nat, Qlt; simpl. lia. Qed.

Lemma float_of_nat_succ (k : nat) : float_of_nat (S k) == 1 + float_of_nat k.
Proof.
  unfold float_of_nat. rewrite Nat2Z.inj_succ, <- Z.add_1_l, inject_Z_plus.
  reflexivity.
Qed.

Lemma py_div_zero (a : Q) : py_div a (float_of_nat 0) = Raise ZeroDivisionError.
Proof. reflexivity. Qed.

Lemma py_div_pos (a : Q) (k : nat) :
  (0 < k)%nat -> py_div a (float_of_nat k) = Ok (a / float_of_nat k).
Proof.
  intros H. unfold py_div.
  destruct (Qeq_bool (float_of_nat k) 0) eqn:E; [|reflexivity].
  apply Qeq_bool_eq in E. pose proof (float_of_nat_pos k H). lra.
Qed.

(** [py_div] raises nothing but [ZeroDivisionError]. *)
Lemma py_div_raise (a b : Q) (e : exn) :
  py_div a b = Raise e -> e = ZeroDivisionError.
Proof. unfold py_div. destruct (Qeq_bool b 0); congruence. Qed.

Lemma div_in_unit (a b : Q) : 0 <= a -> a <= b -> 0 < b -> in_unit_interval (a / b).
Proof.
  intros Ha Hab Hb. split.
  - apply Qle_shift_div_l; [exact Hb | lra].
  - apply Qle_shift_div_r; [exact Hb | lra].
Qed.

Lemma py_div_in_unit (i k : nat) (v : Q) :
  (i <= k)%nat -> py_div (float_of_nat i) (float_of_nat k) = Ok v ->
  in_unit_interval v.
Proof.
  intros Hik H. destruct k as [|k]; [discriminate|].
  rewrite py_div_pos in H by lia. injection H as <-.
  apply div_in_unit.
  - apply float_of_nat_nonneg.
  - apply float_of_nat_le, Hik.
  - apply float_of_nat_pos; lia.
Qed.

Lemma Qmax_either (x y : Q) : Qmax x y = x \/ Qmax x y = y.
Proof.
  unfold Qmax, GenericMinMax.gmax. destruct (x ?= y); auto.
Qed.

Lemma fold_max_in (l : list Q) (x : Q) : In (fold_left Qmax l x) (x :: l).
Proof.
  revert x; induction l as [|a l IH]; intros x; simpl; [auto|].
  destruct (IH (Qmax x a)) as [H|H]; [|auto].
  rewrite <- H. destruct (Qmax_either x a) as [->| ->]; auto.
Qed.

Lemma fold_max_ub (l : list Q) (x y : Q) :
  In y (x :: l) -> y <= fold_left Qmax l x.
Proof.
  revert x y; induction l as [|a l IH]; intros x y; simpl.
  - intros [->|[]]. apply Qle_refl.
  - intros [->|[->|H]].
    + apply Qle_trans with (Qmax y a); [apply Q.le_max_l | apply IH; left; reflexivity].
    + apply Qle_trans with (Qmax x y); [apply Q.le_max_r | apply IH; left; reflexivity].
    + apply IH. right; exact H.
Qed.

Lemma reduce_max_in (l : list Q) (m : Q) : reduce_max l = Ok m -> In m l.
Proof.
  destruct l as [|x l]; simpl; [discriminate|]. intros [= <-]. apply fold_max_in.
Qed.

Lemma reduce_max_ub (l : list Q) (m y : Q) :
  reduce_max l = Ok m -> In y l -> y <= m.
Proof.
  destruct l as [|x l]; simpl; [discriminate|]. intros [= <-]. apply fold_max_ub.
Qed.

Lemma reduce_max_nonempty (l : list Q) :
  l <> [] -> exists m, reduce_max l = Ok m.
Proof. destruct l; [congruence | simpl; eauto]. Qed.

Lemma reduce_max_raise (l : list Q) (e : exn) :
  reduce_max l = Raise e -> l = [].
Proof. destruct l; [reflexivity | discriminate]. Qed.

Lemma reduce_max_Forall (P : Q -> Prop) (l : list Q) (m : Q) :
  Forall P l -> reduce_max l = Ok m -> P m.
Proof.
  intros H Hm. rewrite Forall_forall in H. apply H, reduce_max_in, Hm.
Qed.

(** The maximum of numbers of [0, 1] one of which is 1 is 1. *)
Lemma reduce_max_one (l : list Q) (m y : Q) :
  Forall in_unit_interval l -> In y l -> y == 1 -> reduce_max l = Ok m -> m == 1.
Proof.
  intros Hl Hy Hy1 Hm.
  pose proof (reduce_max_ub l m y Hm Hy) as Hub.
  destruct (reduce_max_Forall _ l m Hl Hm) as [_ Hle]. lra.
Qed.

Lemma np_sum_bounds (l : list Q) :
  Forall in_unit_interval l ->
  0 <= np_sum l /\ np_sum l <= float_of_nat (length l).
Proof.
  induction 1 as [|x l [H0 H1] _ [IH0 IH1]].
  - split; vm_compute; discriminate.
  - rewrite np_sum_cons. cbn [length]. rewrite float_of_nat_succ. lra.
Qed.

Lemma np_sum_ones (l : list Q) :
  Forall (fun x => x == 1) l -> np_sum l == float_of_nat (length l).
Proof.
  induction 1 as [|x l Hx _ IH].
  - reflexivity.
  - rewrite np_sum_cons. cbn [length]. rewrite float_of_nat_succ, Hx, IH.
    reflexivity.
Qed.

Lemma np_mean_ok (l : list Q) :
  l <> [] -> np_mean l = Ok (np_sum l / float_of_nat (length l)).
Proof. destruct l; [congruence | reflexivity]. Qed.

Lemma np_mean_inv (l : list Q) (m : Q) :
  np_mean l = Ok m -> l <> [] /\ m = np_sum l / float_of_nat (length l).
Proof.
  destruct l; [discriminate|]. intros [= <-]. split; [discriminate | reflexivity].
Qed.

Lemma np_mean_in_unit (l : list Q) (m : Q) :
  Forall in_unit_interval l -> np_mean l = Ok m -> in_unit_interval m.
Proof.
  intros Hl Hm. apply np_mean_inv in Hm as [Hne ->].
  destruct (np_sum_bounds l Hl) as [H0 H1].
  apply div_in_unit; auto.
  apply float_of_nat_pos. destruct l; [congruence | simpl; lia].
Qed.

Lemma np_mean_ones (l : list Q) (m : Q) :
  Forall (fun x => x == 1) l -> np_mean l = Ok m -> m == 1.
Proof.
  intros Hl Hm. apply np_mean_inv in Hm as [Hne ->].
  rewrite (np_sum_ones l Hl).
  assert (0 < float_of_nat (length l)).
  { apply float_of_nat_pos. destruct l; [congruence | simpl; lia]. }
  field. lra.
Qed.

Lemma f_measure_in_unit (p r : Q) :
  in_unit_interval p -> in_unit_interval r -> in_unit_interval (f_measure p r).
Proof.
  intros [Hp0 Hp1] [Hr0 Hr1]. unfold f_measure.
  destruct (Qle_bool (p + r) 0) eqn:E; [apply in_unit_zero|].
  assert (Hpos : 0 < p + r).
  { apply Qnot_le_lt. intros H. apply Qle_bool_iff in H. congruence. }
  split.
  - apply Qle_shift_div_l; [exact Hpos | nra].
  - apply Qle_shift_div_r; [exact Hpos | nra].
Qed.

Lemma f_measure_nonneg (p r : Q) : 0 <= p -> 0 <= r -> 0 <= f_measure p r.
Proof.
  intros Hp Hr. unfold f_measure.
  destruct (Qle_bool (p + r) 0) eqn:E; [lra|].
  assert (Hpos : 0 < p + r).
  { apply Qnot_le_lt. intros H. apply Qle_bool_iff in H. congruence. }
  apply Qle_shift_div_l; [exact Hpos | nra].
Qed.

Lemma f_measure_ones (p r : Q) : p == 1 -> r == 1 -> f_measure p r == 1.
Proof.
  intros Hp Hr. unfold f_measure.
  destruct (Qle_bool (p + r) 0) eqn:E.
  - apply Qle_bool_iff in E. lra.
  - rewrite Hp, Hr. reflexivity.
Qed.

(** ** Sets of events *)

Lemma tuple_eqb_refl (a : onset_midi) : tuple_eqb a a = true.
Proof.
  induction a as [|x a IH]; simpl; [reflexivity|].
  rewrite Qeq_bool_refl, IH. reflexivity.
Qed.

Lemma tuple_eqb_sym (a b : onset_midi) : tuple_eqb a b = true -> tuple_eqb b a = true.
Proof.
  revert b; induction a as [|x a IH]; intros [|y b]; simpl; auto.
  intros [H1 H2]%andb_prop.
  rewrite (Qeq_bool_sym _ _ H1), (IH _ H2). reflexivity.
Qed.

Lemma tuple_eqb_trans (a b c : onset_midi) :
  tuple_eqb a b = true -> tuple_eqb b c = true -> tuple_eqb a c = true.
Proof.
  revert b c; induction a as [|x a IH]; intros [|y b] [|z c]; simpl; auto;
    try discriminate.
  intros [H1 H2]%andb_prop [H3 H4]%andb_prop.
  rewrite (Qeq_bool_trans _ _ _ H1 H3), (IH _ _ H2 H4). reflexivity.
Qed.

Lemma set_mem_In (x : onset_midi) (s : list onset_midi) :
  In x s -> set_mem x s = true.
Proof.
  intros H. unfold set_mem. apply existsb_exists.
  exists x. split; [exact H | apply tuple_eqb_refl].
Qed.

Lemma set_mem_eqb (x y : onset_midi) (s : list onset_midi) :
  tuple_eqb x y = true -> set_mem y s = true -> set_mem x s = true.
Proof.
  unfold set_mem. intros Hxy [z [Hz Hyz]]%existsb_exists.
  apply existsb_exists. exists z. split; [exact Hz|].
  apply (tuple_eqb_trans x y z); assumption.
Qed.

Lemma py_set_length (l : list onset_midi) : (length (py_set l) <= length l)%nat.
Proof.
  induction l as [|x l IH]; simpl; [lia|].
  destruct (set_mem x l); simpl; lia.
Qed.

Lemma set_mem_py_set (x : onset_midi) (l : list onset_midi) :
  set_mem x (py_set l) = set_mem x l.
Proof.
  induction l as [|y l IH]; simpl; [reflexivity|].
  destruct (set_mem y l) eqn:E; simpl.
  - rewrite IH. destruct (tuple_eqb x y) eqn:Exy; simpl; [|reflexivity].
    apply (set_mem_eqb x y l Exy E).
  - rewrite IH. reflexivity.
Qed.

Lemma py_set_distinct (l : list onset_midi) : distinct_events (py_set l) = true.
Proof.
  induction l as [|x l IH]; simpl; [reflexivity|].
  destruct (set_mem x l) eqn:E; simpl; [exact IH|].
  rewrite set_mem_py_set, E, IH. reflexivity.
Qed.

Lemma py_set_of_distinct (l : list onset_midi) :
  distinct_events l = true -> py_set l = l.
Proof.
  induction l as [|x l IH]; simpl; [reflexivity|].
  intros [H1 H2]%andb_prop. apply negb_true_iff in H1.
  rewrite H1, (IH H2). reflexivity.
Qed.

Lemma set_and_length_l (s t : list onset_midi) :
  (length (set_and s t) <= length s)%nat.
Proof. unfold set_and. apply filter_length_le. Qed.

Lemma filter_orb_length {A} (f g : A -> bool) (l : list A) :
  (length (filter (fun x => f x || g x) l)
   <= length (filter f l) + length (filter g l))%nat.
Proof.
  induction l as [|a l IH]; simpl; [lia|].
  destruct (f a), (g a); simpl; lia.
Qed.

Lemma filter_eqb_distinct (y : onset_midi) (s : list onset_midi) :
  distinct_events s = true ->
  (length (filter (fun x => tuple_eqb x y) s) <= 1)%nat.
Proof.
  induction s as [|x s IH]; simpl; [lia|].
  intros [H1 H2]%andb_prop. apply negb_true_iff in H1.
  specialize (IH H2).
  destruct (tuple_eqb x y) eqn:Exy; simpl; [|exact IH].
  assert (Hnone : filter (fun z => tuple_eqb z y) s = []).
  { destruct (filter (fun z => tuple_eqb z y) s) as [|z r] eqn:Ef; [reflexivity|].
    exfalso.
    assert (Hz : In z (filter (fun z => tuple_eqb z y) s)) by (rewrite Ef; left; reflexivity).
    apply filter_In in Hz as [Hz Hzy].
    assert (Hm : set_mem x s = true).
    { unfold set_mem. apply existsb_exists. exists z. split; [exact Hz|].
      apply (tuple_eqb_trans x y z Exy), tuple_eqb_sym, Hzy. }
    congruence. }
  rewrite Hnone. simpl. lia.
Qed.

Lemma set_and_length_r (s t : list onset_midi) :
  distinct_events s = true -> (length (set_and s t) <= length t)%nat.
Proof.
  intros Hs. unfold set_and. induction t as [|y t IH]; simpl.
  - induction s as [|x s IHs]; simpl; [lia|].
    apply IHs. simpl in Hs. apply andb_prop in Hs as [_ Hs]. exact Hs.
  - pose proof (filter_orb_length (fun x => tuple_eqb x y)
                  (fun x => set_mem x t) s) as H.
    pose proof (filter_eqb_distinct y s Hs). unfold set_mem in *. simpl. lia.
Qed.

(** The two occurrences share at most as many events as either holds. *)
Lemma intersection_le_l (occ_P occ_Q : occurrence) :
  (length (_occurrence_intersection occ_P occ_Q) <= length occ_P)%nat.
Proof.
  unfold _occurrence_intersection.
  pose proof (set_and_length_l (py_set occ_P) (py_set occ_Q)).
  pose proof (py_set_length occ_P). lia.
Qed.

Lemma intersection_le_r (occ_P occ_Q : occurrence) :
  (length (_occurrence_intersection occ_P occ_Q) <= length occ_Q)%nat.
Proof.
  unfold _occurrence_intersection.
  pose proof (set_and_length_r (py_set occ_P) (py_set occ_Q)
                (py_set_distinct occ_P)).
  pose proof (py_set_length occ_Q). lia.
Qed.

Lemma intersection_self (occ : occurrence) :
  distinct_events occ = true ->
  length (_occurrence_intersection occ occ) = length occ.
Proof.
  intros H. unfold _occurrence_intersection, set_and.
  rewrite (py_set_of_distinct occ H).
  f_equal. apply forallb_filter_id. apply forallb_forall.
  intros x Hx. apply set_mem_In, Hx.
Qed.

(** ** Every matrix entry lies in [0, 1] *)

Lemma mapM_ok_Forall {A B} (f : A -> result B) (P : B -> Prop)
  (l : list A) (bs : list B) :
  (forall a b, In a l -> f a = Ok b -> P b) ->
  mapM f l = Ok bs -> Forall P bs.
Proof.
  revert bs; induction l as [|a l IH]; intros bs H; simpl.
  - intros [= <-]; constructor.
  - destruct (f a) as [b|e] eqn:Ea; simpl; [|discriminate].
    destruct (mapM f l) as [bs'|e]; simpl; [|discriminate].
    intros [= <-]. constructor.
    + apply (H a b); [left; reflexivity | exact Ea].
    + apply IH; [|reflexivity]. intros a' b' Hin. apply H. right; exact Hin.
Qed.

(** A matrix built cell by cell inherits a property of the cells. *)
Lemma rows_Forall {A B} (g : A -> B -> result Q) (P : Q -> Prop)
  (xs : list A) (ys : list B) (rows : list (list Q)) :
  (forall a b v, g a b = Ok v -> P v) ->
  mapM (fun a => mapM (g a) ys) xs = Ok rows ->
  Forall (Forall P) rows.
Proof.
  intros H. apply mapM_ok_Forall. intros a row _.
  apply mapM_ok_Forall. intros b v _. apply H.
Qed.

Lemma score_cell_in_unit (sim : string) (occ_P occ_Q : occurrence) (v : Q) :
  score_cell sim occ_P occ_Q = Ok v -> in_unit_interval v.
Proof.
  unfold score_cell. destruct (String.eqb sim "cardinality_score"); [|discriminate].
  apply py_div_in_unit.
  pose proof (intersection_le_l occ_P occ_Q). lia.
Qed.

Lemma score_matrix_unit (P Q_ : pattern) (sim : string) (s : ndarray) :
  _compute_score_matrix P Q_ sim = Ok s -> unit_cells s.
Proof.
  rewrite score_matrix_rows. intros H.
  apply bind_ok in H as (rows & Hrows & [= <-]).
  unfold unit_cells; simpl.
  apply (rows_Forall (score_cell sim) _ P Q_ rows); [|exact Hrows].
  intros a b v. apply score_cell_in_unit.
Qed.

Lemma np_max_in_unit (a : ndarray) (m : Q) :
  unit_cells a -> np_max a = Ok m -> in_unit_interval m.
Proof.
  unfold unit_cells, np_max. intros H. apply reduce_max_Forall.
  apply Forall_concat, H.
Qed.

Lemma column_in_unit (a : ndarray) (j : nat) :
  unit_cells a -> Forall in_unit_interval (column a j).
Proof.
  unfold unit_cells, column. intros H. apply Forall_map.
  apply (Forall_impl _ (P := Forall in_unit_interval)); [|exact H].
  intros row Hrow. rewrite Forall_forall in Hrow.
  destruct (nth_in_or_default j row 0) as [Hin| ->];
    [apply Hrow, Hin | apply in_unit_zero].
Qed.

Lemma np_max_axis0_in_unit (a : ndarray) (l : list Q) :
  unit_cells a -> np_max_axis0 a = Ok l -> Forall in_unit_interval l.
Proof.
  intros H. unfold np_max_axis0. apply mapM_ok_Forall.
  intros j m _. apply reduce_max_Forall, column_in_unit, H.
Qed.

Lemma np_max_axis1_in_unit (a : ndarray) (l : list Q) :
  unit_cells a -> np_max_axis1 a = Ok l -> Forall in_unit_interval l.
Proof.
  unfold unit_cells, np_max_axis1. intros H. apply mapM_ok_Forall.
  intros row m Hin. rewrite Forall_forall in H.
  apply reduce_max_Forall, H, Hin.
Qed.

(** The reduction every metric ends with: mean of the column maxima,
    mean of the row maxima. *)
Lemma max_mean_in_unit (a : ndarray) (pr : Q * Q) :
  unit_cells a ->
  (col_max <- np_max_axis0 a ;;
   precision <- np_mean col_max ;;
   row_max <- np_max_axis1 a ;;
   recall <- np_mean row_max ;;
   Ok (precision, recall)) = Ok pr ->
  unit_pair pr.
Proof.
  intros Ha H.
  apply bind_ok in H as (cm & Hcm & H).
  apply bind_ok in H as (p & Hp & H).
  apply bind_ok in H as (rm & Hrm & H).
  apply bind_ok in H as (r & Hr & [= <-]).
  split; simpl.
  - apply (np_mean_in_unit cm); [|exact Hp].
    apply (np_max_axis0_in_unit a); assumption.
  - apply (np_mean_in_unit rm); [|exact Hr].
    apply (np_max_axis1_in_unit a); assumption.
Qed.

Lemma establishment_cell_in_unit (sim : string) (rp ep : pattern) (v : Q) :
  establishment_cell sim rp ep = Ok v -> in_unit_interval v.
Proof.
  unfold establishment_cell. intros H.
  apply bind_ok in H as (s & Hs & H).
  apply (np_max_in_unit s); [|exact H]. apply (score_matrix_unit rp ep sim), Hs.
Qed.

Lemma establishment_matrix_unit (sim : string) (ref est : patterns) (S : ndarray) :
  establishment_matrix sim ref est = Ok S -> unit_cells S.
Proof.
  rewrite establishment_matrix_rows. intros H.
  apply bind_ok in H as (rows & Hrows & [= <-]).
  unfold unit_cells; simpl.
  apply (rows_Forall (establishment_cell sim) _ ref est rows); [|exact Hrows].
  intros a b v. apply establishment_cell_in_unit.
Qed.

Lemma zero_scores_in_unit : scores_in_unit_interval zero_scores.
Proof. simpl. repeat split; lra. Qed.

Lemma triple_in_unit (p r : Q) :
  in_unit_interval p -> in_unit_interval r ->
  scores_in_unit_interval (Triple (f_measure p r) p r).
Proof.
  intros Hp Hr. simpl. repeat split; try apply Hp; try apply Hr;
    apply f_measure_in_unit; assumption.
Qed.

Lemma establishment_body_in_unit (sim : string) (ref est : patterns) (v : pyval) :
  establishment_FPR_body sim ref est = Ok v -> scores_in_unit_interval v.
Proof.
  unfold establishment_FPR_body.
  destruct (no_events ref est); [intros [= <-]; apply zero_scores_in_unit|].
  intros H. apply bind_ok in H as (S & HS & H).
  pose proof (establishment_matrix_unit sim ref est S HS) as HU.
  apply bind_ok in H as (cm & Hcm & H).
  apply bind_ok in H as (p & Hp & H).
  apply bind_ok in H as (rm & Hrm & H).
  apply bind_ok in H as (r & Hr & [= <-]).
  apply triple_in_unit.
  - apply (np_mean_in_unit cm); [|exact Hp].
    apply (np_max_axis0_in_unit S); assumption.
  - apply (np_mean_in_unit rm); [|exact Hr].
    apply (np_max_axis1_in_unit S); assumption.
Qed.

(** *** three_layer_FPR *)

Lemma first_layer_in_unit (ref_occs est_occs : occurrence) (pr : Q * Q) :
  compute_first_layer_PR ref_occs est_occs = Ok pr -> unit_pair pr.
Proof.
  unfold compute_first_layer_PR. intros H.
  apply bind_ok in H as (p & Hp & H).
  apply bind_ok in H as (r & Hr & [= <-]).
  split; simpl.
  - apply (py_div_in_unit _ _ _ (intersection_le_l ref_occs est_occs) Hp).
  - apply (py_div_in_unit _ _ _ (intersection_le_r ref_occs est_occs) Hr).
Qed.

Lemma compute_layer_unit {A} (func : A -> A -> result (Q * Q))
  (ref est : list A) (F : ndarray) :
  (forall r e pr, func r e = Ok pr -> unit_pair pr) ->
  compute_layer func ref est = Ok F -> unit_cells F.
Proof.
  intros Hfunc. rewrite compute_layer_rows. intros H.
  apply bind_ok in H as (rows & Hrows & [= <-]).
  unfold unit_cells; simpl.
  apply (rows_Forall (layer_cell func) _ ref est rows); [|exact Hrows].
  intros r e v. unfold layer_cell. intros H.
  apply bind_ok in H as ([p q] & Hpq & [= <-]).
  destruct (Hfunc r e (p, q) Hpq). apply f_measure_in_unit; assumption.
Qed.

Lemma second_layer_in_unit (ref_pattern est_pattern : pattern) (pr : Q * Q) :
  compute_second_layer_PR ref_pattern est_pattern = Ok pr -> unit_pair pr.
Proof.
  unfold compute_second_layer_PR. intros H.
  apply bind_ok in H as (F_1 & HF & H).
  apply (max_mean_in_unit F_1); [|exact H].
  apply (compute_layer_unit compute_first_layer_PR ref_pattern est_pattern);
    [apply first_layer_in_unit | exact HF].
Qed.

Lemma three_layer_body_in_unit (ref est : patterns) (v : pyval) :
  three_layer_FPR_body ref est = Ok v -> scores_in_unit_interval v.
Proof.
  unfold three_layer_FPR_body.
  destruct (no_events ref est); [intros [= <-]; apply zero_scores_in_unit|].
  intros H. apply bind_ok in H as (F_2 & HF & H).
  assert (HU : unit_cells F_2).
  { apply (compute_layer_unit compute_second_layer_PR ref est);
      [apply second_layer_in_unit | exact HF]. }
  apply bind_ok in H as (cm & Hcm & H).
  apply bind_ok in H as (p & Hp & H).
  apply bind_ok in H as (rm & Hrm & H).
  apply bind_ok in H as (r & Hr & [= <-]).
  apply triple_in_unit.
  - apply (np_mean_in_unit cm); [|exact Hp].
    apply (np_max_axis0_in_unit F_2); assumption.
  - apply (np_mean_in_unit rm); [|exact Hr].
    apply (np_max_axis1_in_unit F_2); assumption.
Qed.

(** *** occurrence_FPR *)

Lemma occurrence_cell_in_unit (thres : Q) (sim : string) (rp ep : pattern)
  (c : option (Q * Q)) :
  occurrence_cell thres sim rp ep = Ok c -> unit_cell_option c.
Proof.
  unfold occurrence_cell. intros H.
  apply bind_ok in H as (s & Hs & H).
  apply bind_ok in H as (m & Hm & H).
  destruct (Qle_bool thres m); [|injection H as <-; exact I].
  pose proof (score_matrix_unit rp ep sim s Hs) as HU.
  assert (Hpr : exists pr, c = Some pr /\ unit_pair pr).
  { apply bind_ok in H as (cm & Hcm & H).
    apply bind_ok in H as (p & Hp & H).
    apply bind_ok in H as (rm & Hrm & H).
    apply bind_ok in H as (r & Hr & [= <-]).
    exists (p, r). split; [reflexivity|]. split; simpl.
    - apply (np_mean_in_unit cm); [|exact Hp].
      apply (np_max_axis0_in_unit s); assumption.
    - apply (np_mean_in_unit rm); [|exact Hr].
      apply (np_max_axis1_in_unit s); assumption. }
  destruct Hpr as (pr & -> & Hpr). exact Hpr.
Qed.

Lemma plane_in_unit (f : Q * Q -> Q) (css : list (list (option (Q * Q)))) :
  (forall pr, unit_pair pr -> in_unit_interval (f pr)) ->
  Forall (Forall unit_cell_option) css ->
  Forall (Forall in_unit_interval) (map (map (plane_value f)) css).
Proof.
  intros Hf H. apply Forall_map.
  apply (Forall_impl _ (P := Forall unit_cell_option)); [|exact H].
  intros row Hrow. apply Forall_map.
  apply (Forall_impl _ (P := unit_cell_option)); [|exact Hrow].
  intros [pr|] Hc; simpl; [apply Hf, Hc | apply in_unit_zero].
Qed.

Lemma occurrence_loop_unit (thres : Q) (sim : string) (ref est : patterns)
  (st : occ_state) :
  occurrence_loop thres sim ref est = Ok st ->
  unit_cells (O_P st) /\ unit_cells (O_R st).
Proof.
  rewrite occurrence_loop_cells. intros H.
  apply bind_ok in H as (css & Hcss & [= <-]).
  assert (Hc : Forall (Forall unit_cell_option) css).
  { revert Hcss. apply mapM_ok_Forall. intros rp row _.
    apply mapM_ok_Forall. intros ep c _. apply occurrence_cell_in_unit. }
  unfold unit_cells; simpl. split; apply plane_in_unit; auto.
  - intros pr [Hp _]; exact Hp.
  - intros pr [_ Hr]; exact Hr.
Qed.

Lemma getitem_in_unit (a : ndarray) (i j : nat) (v : Q) :
  unit_cells a -> getitem a i j = Ok v -> in_unit_interval v.
Proof.
  unfold unit_cells, getitem. intros H.
  destruct ((i <? nrows a)%nat && (j <? ncols a)%nat); [|discriminate].
  intros [= <-].
  assert (Hrow : Forall in_unit_interval (nth i (cells a) [])).
  { destruct (nth_in_or_default i (cells a) []) as [Hin| ->]; [|constructor].
    rewrite Forall_forall in H. apply H, Hin. }
  destruct (nth_in_or_default j (nth i (cells a) []) 0) as [Hin| ->];
    [|apply in_unit_zero].
  rewrite Forall_forall in Hrow. apply Hrow, Hin.
Qed.

Lemma ix_unit (a : ndarray) (rs cs : list nat) (sub : ndarray) :
  unit_cells a -> ix_ a rs cs = Ok sub -> unit_cells sub.
Proof.
  intros Ha. unfold ix_. intros H.
  apply bind_ok in H as (rows & Hrows & [= <-]).
  unfold unit_cells; simpl.
  apply (rows_Forall (getitem a) _ rs cs rows); [|exact Hrows].
  intros r c v. apply getitem_in_unit, Ha.
Qed.

Lemma occurrence_body_in_unit (thres : Q) (sim : string) (ref est : patterns)
  (v : pyval) :
  occurrence_FPR_body thres sim ref est = Ok v -> scores_in_unit_interval v.
Proof.
  unfold occurrence_FPR_body.
  destruct (no_events ref est); [intros [= <-]; apply zero_scores_in_unit|].
  intros H. apply bind_ok in H as (st & Hst & H).
  destruct (occurrence_loop_unit thres sim ref est st Hst) as [HP HR].
  apply bind_ok in H as ([p r] & Hpr & [= <-]).
  destruct (length (rel_idx st) =? 0)%nat.
  - injection Hpr as <- <-. apply triple_in_unit; apply in_unit_zero.
  - apply bind_ok in Hpr as (subP & HsubP & Hpr).
    apply bind_ok in Hpr as (cP & HcP & Hpr).
    apply bind_ok in Hpr as (p' & Hp & Hpr).
    apply bind_ok in Hpr as (subR & HsubR & Hpr).
    apply bind_ok in Hpr as (rR & HrR & Hpr).
    apply bind_ok in Hpr as (r' & Hr & [= <- <-]).
    apply triple_in_unit.
    + apply (np_mean_in_unit cP); [|exact Hp].
      apply (np_max_axis0_in_unit subP); [|exact HcP].
      apply (ix_unit (O_P st) _ _ subP HP HsubP).
    + apply (np_mean_in_unit rR); [|exact Hr].
      apply (np_max_axis1_in_unit subR); [|exact HrR].
      apply (ix_unit (O_R st) _ _ subR HR HsubR).
Qed.

(** *** Through validate and the first-n wrappers *)

Lemma validate_ok {A} (metric : patterns -> patterns -> Py A)
  (ref est : patterns) (v : A) :
  outcome (validate metric ref est) = Ok v ->
  well_formed ref = true /\ well_formed est = true
  /\ outcome (metric ref est) = Ok v.
Proof.
  intros H.
  destruct (well_formed ref) eqn:Er.
  - destruct (well_formed est) eqn:Ee.
    + rewrite (validate_well_formed metric ref est Er Ee) in H. auto.
    + destruct (validate_malformed metric ref est) as (msg & Hm & _).
      { right. apply not_well_formed_malformed, Ee. }
      rewrite Hm in H. discriminate.
  - destruct (validate_malformed metric ref est) as (msg & Hm & _).
    { left. apply not_well_formed_malformed, Er. }
    rewrite Hm in H. discriminate.
Qed.

Lemma py_bind_ok {A B} (m : Py A) (k : A -> Py B) (b : B) :
  outcome (py_bind m k) = Ok b ->
  exists a, outcome m = Ok a /\ outcome (k a) = Ok b.
Proof.
  destruct m as [w [a|e]]; simpl; [|discriminate].
  destruct (k a) as [w' r] eqn:E. simpl. intros ->.
  exists a. rewrite E. auto.
Qed.

Lemma first_n_three_layer_P_ok (n : Z) (ref est : patterns) (v : pyval) :
  outcome (first_n_three_layer_P_body n ref est) = Ok v ->
  v = zero_scores
  \/ exists f p r,
       outcome (three_layer_FPR ref (first_n est n)) = Ok (Triple f p r)
       /\ v = Single p.
Proof.
  unfold first_n_three_layer_P_body.
  destruct (no_events ref est); [intros [= <-]; left; reflexivity|].
  intros H. right.
  apply py_bind_ok in H as (v' & Hv' & H).
  apply py_bind_ok in H as ([[f p] r] & Hu & H).
  destruct v' as [f' p' r'|x]; [|discriminate].
  injection Hu as -> -> ->. injection H as <-. eauto.
Qed.

Lemma first_n_target_proportion_R_ok (n : Z) (ref est : patterns) (v : pyval) :
  outcome (first_n_target_proportion_R_body n ref est) = Ok v ->
  v = zero_scores
  \/ exists f p r,
       outcome (establishment_FPR "cardinality_score" ref (first_n est n))
       = Ok (Triple f p r)
       /\ v = Single r.
Proof.
  unfold first_n_target_proportion_R_body.
  destruct (no_events ref est); [intros [= <-]; left; reflexivity|].
  intros H. right.
  apply py_bind_ok in H as (v' & Hv' & H).
  apply py_bind_ok in H as ([[f p] r] & Hu & H).
  destruct v' as [f' p' r'|x]; [|discriminate].
  injection Hu as -> -> ->. injection H as <-. eauto.
Qed.

(** *** standard_FPR *)

Lemma count_matches_le (tol : Q) (ref est : patterns) (k0 k : nat) :
  for_each (fun ref_pattern k =>
              P <- list_getitem ref_pattern 0 ;;
              hit <- search_estimated tol P est ;;
              Ok (if hit then S k else k)) ref k0 = Ok k ->
  (k <= k0 + length ref)%nat.
Proof.
  revert k0; induction ref as [|rp ref IH]; intros k0; simpl.
  - intros [= <-]. lia.
  - intros H. apply bind_ok in H as (k1 & Hk1 & H).
    apply bind_ok in Hk1 as (P & _ & Hk1).
    apply bind_ok in Hk1 as (hit & _ & [= <-]).
    apply IH in H. destruct hit; lia.
Qed.

Lemma standard_body_bounds (tol : Q) (ref est : patterns) (v : pyval) :
  standard_FPR_body tol ref est = Ok v ->
  exists f p r,
    v = Triple f p r
    /\ 0 <= f /\ 0 <= p /\ in_unit_interval r
    /\ p * float_of_nat (length est) <= float_of_nat (length ref)
    /\ ((length ref <= length est)%nat -> scores_in_unit_interval v).
Proof.
  unfold standard_FPR_body.
  destruct (no_events ref est).
  - intros [= <-]. exists 0, 0, 0. split; [reflexivity|].
    pose proof (float_of_nat_nonneg (length ref)).
    repeat split; try lra.
  - intros H. apply bind_ok in H as (k & Hk & H).
    apply count_matches_le in Hk. simpl in Hk.
    apply bind_ok in H as (p & Hp & H).
    apply bind_ok in H as (r & Hr & [= <-]).
    exists (f_measure p r), p, r. split; [reflexivity|].
    pose proof (py_div_in_unit _ _ _ Hk Hr) as Hr1.
    destruct (length est) as [|nQ] eqn:EQ; [discriminate|].
    rewrite py_div_pos in Hp by lia. injection Hp as <-.
    pose proof (float_of_nat_pos (S nQ) ltac:(lia)) as HQpos.
    pose proof (float_of_nat_nonneg k) as Hk0.
    pose proof (float_of_nat_le _ _ Hk) as Hkle.
    assert (Hp0 : 0 <= float_of_nat k / float_of_nat (S nQ)).
    { apply Qle_shift_div_l; [exact HQpos | lra]. }
    split; [apply f_measure_nonneg; [exact Hp0 | apply Hr1]|].
    split; [exact Hp0|]. split; [exact Hr1|]. split.
    + setoid_replace (float_of_nat k / float_of_nat (S nQ) * float_of_nat (S nQ))
        with (float_of_nat k) by (field; lra).
      exact Hkle.
    + intros Hle. apply triple_in_unit; [|exact Hr1].
      apply div_in_unit; [exact Hk0 | apply float_of_nat_le; lia | exact HQpos].
Qed.

(** ** Range of the scores *)

(** C3, as the code has it.  Whenever a call returns, every value that
    [establishment_FPR], [occurrence_FPR], [three_layer_FPR],
    [first_n_three_layer_P] and [first_n_target_proportion_R] return lies
    in [0, 1].  [standard_FPR] returns a recall in [0, 1] and a precision
    k/nQ and an F-measure that are not negative; its precision is at most
    nP/nQ, and all three values lie in [0, 1] when the reference has no
    more patterns than the estimate. *)
Theorem C3_scores_in_unit_interval (kw : kwargs) (ref est : patterns) (v : pyval) :
  (forall name metric,
      In (name, metric) METRICS -> name <> "standard_FPR"%string ->
      outcome (metric kw ref est) = Ok v -> scores_in_unit_interval v)
  /\ (outcome (standard_FPR (tol kw) ref est) = Ok v ->
      exists f p r,
        v = Triple f p r
        /\ 0 <= f /\ 0 <= p /\ in_unit_interval r
        /\ p * float_of_nat (length est) <= float_of_nat (length ref)
        /\ ((length ref <= length est)%nat -> scores_in_unit_interval v)).
Proof.
  split.
  - intros name metric Hin Hname Hv. unfold METRICS in Hin. simpl in Hin.
    destruct Hin as [H|[H|[H|[H|[H|[H|[]]]]]]]; inversion H; subst; clear H;
      cbv beta in Hv.
    + congruence.
    + apply validate_ok in Hv as (_ & _ & Hv).
      apply (establishment_body_in_unit _ _ _ _ Hv).
    + apply validate_ok in Hv as (_ & _ & Hv).
      apply (occurrence_body_in_unit _ _ _ _ _ Hv).
    + apply validate_ok in Hv as (_ & _ & Hv).
      apply (three_layer_body_in_unit _ _ _ Hv).
    + apply validate_ok in Hv as (_ & _ & Hv).
      apply first_n_three_layer_P_ok in Hv as [->|(f & p & r & Hv & ->)];
        [apply zero_scores_in_unit|].
      apply validate_ok in Hv as (_ & _ & Hv).
      apply three_layer_body_in_unit in Hv. simpl in *. tauto.
    + apply validate_ok in Hv as (_ & _ & Hv).
      apply first_n_target_proportion_R_ok in Hv as [->|(f & p & r & Hv & ->)];
        [apply zero_scores_in_unit|].
      apply validate_ok in Hv as (_ & _ & Hv).
      apply establishment_body_in_unit in Hv. simpl in *. tauto.
  - intros Hv. apply validate_ok in Hv as (_ & _ & Hv).
    apply (standard_body_bounds _ _ _ _ Hv).
Qed.

Lemma C3_establishment_witness :
  In ("establishment_FPR"%string,
      fun kw => establishment_FPR (similarity_metric kw)) METRICS
  /\ "establishment_FPR"%string <> "standard_FPR"%string
  /\ outcome (establishment_FPR (similarity_metric defaults)
                [[[ev 0 60; ev 1 62]]] [[[ev 0 60; ev 1 62]]])
     = Ok (Triple (32 # 32) (2 # 2) (2 # 2))
  /\ scores_in_unit_interval (Triple (32 # 32) (2 # 2) (2 # 2)).
Proof.
  assert (Hin : In ("establishment_FPR"%string,
                    fun kw => establishment_FPR (similarity_metric kw)) METRICS)
    by (right; left; reflexivity).
  assert (Hne : "establishment_FPR"%string <> "standard_FPR"%string)
    by discriminate.
  split; [exact Hin|]. split; [exact Hne|]. split; [reflexivity|].
  exact (proj1 (C3_scores_in_unit_interval defaults
                  [[[ev 0 60; ev 1 62]]] [[[ev 0 60; ev 1 62]]]
                  (Triple (32 # 32) (2 # 2) (2 # 2)))
           "establishment_FPR"%string
           (fun kw => establishment_FPR (similarity_metric kw))
           Hin Hne eq_refl).
Defined.

(** C3 as stated fails for [standard_FPR]: two reference patterns whose
    one-event prototypes both match the single estimated prototype give
    k = 2 and nQ = 1, hence a precision of 2. *)
Lemma C3_counterexample_standard_precision :
  exists f p r,
    outcome (standard_FPR (tol defaults)
               [[[ev 0 60]]; [[ev 1 61]]] [[[ev 5 70]]])
    = Ok (Triple f p r)
    /\ p == 2 /\ ~ in_unit_interval p.
Proof.
  eexists _, _, _. split; [vm_compute; reflexivity|].
  split; [reflexivity|]. unfold in_unit_interval. lra.
Qed.

(** ** The reductions succeed on arrays that are not empty *)

Lemma mapM_total {A B} (f : A -> result B) (l : list A) :
  (forall a, In a l -> exists b, f a = Ok b) -> exists bs, mapM f l = Ok bs.
Proof.
  induction l as [|a l IH]; intros H; simpl; [eauto|].
  destruct (H a (or_introl eq_refl)) as [b ->]. simpl.
  destruct IH as [bs ->]; [intros; apply H; right; assumption|].
  simpl. eauto.
Qed.

Lemma rows_shape {A B} (g : A -> B -> result Q) (xs : list A) (ys : list B)
  (rows : list (list Q)) :
  mapM (fun a => mapM (g a) ys) xs = Ok rows ->
  length rows = length xs /\ Forall (fun row => length row = length ys) rows.
Proof.
  intros H. split; [apply (mapM_ok_length _ _ _ H)|].
  revert H. apply mapM_ok_Forall. intros a row _. apply mapM_ok_length.
Qed.

Lemma rows_proper {A B} (g : A -> B -> result Q) (xs : list A) (ys : list B)
  (rows : list (list Q)) :
  xs <> [] -> ys <> [] ->
  mapM (fun a => mapM (g a) ys) xs = Ok rows ->
  proper (mk_ndarray (length xs) (length ys) rows).
Proof.
  intros Hx Hy H. destruct (rows_shape g xs ys rows H) as [Hl Hr].
  unfold proper; simpl. repeat split; auto.
  - destruct xs; [congruence | simpl; lia].
  - destruct ys; [congruence | simpl; lia].
Qed.

Lemma np_max_total (a : ndarray) : proper a -> exists m, np_max a = Ok m.
Proof.
  intros (Hn & Hm & Hl & Hr). unfold np_max. apply reduce_max_nonempty.
  destruct (cells a) as [|row rest]; [simpl in Hl; lia|].
  inversion Hr as [|? ? Hrow _]; subst.
  destruct row; [simpl in Hrow; lia | discriminate].
Qed.

Lemma np_max_axis0_total (a : ndarray) :
  proper a -> exists l, np_max_axis0 a = Ok l /\ l <> [].
Proof.
  intros (Hn & Hm & Hl & Hr). unfold np_max_axis0.
  destruct (mapM_total (fun j => reduce_max (column a j)) (seq 0 (ncols a)))
    as [l Hl'].
  - intros j _. apply reduce_max_nonempty. unfold column.
    destruct (cells a); [simpl in Hl; lia | discriminate].
  - exists l. split; [exact Hl'|].
    apply mapM_ok_length in Hl'. rewrite length_seq in Hl'.
    destruct l; [simpl in Hl'; lia | discriminate].
Qed.

Lemma np_max_axis1_total (a : ndarray) :
  proper a -> exists l, np_max_axis1 a = Ok l /\ l <> [].
Proof.
  intros (Hn & Hm & Hl & Hr). unfold np_max_axis1.
  destruct (mapM_total reduce_max (cells a)) as [l Hl'].
  - intros row Hin. apply reduce_max_nonempty.
    rewrite Forall_forall in Hr. specialize (Hr row Hin).
    destruct row; [simpl in Hr; lia | discriminate].
  - exists l. split; [exact Hl'|].
    apply mapM_ok_length in Hl'.
    destruct l; [simpl in Hl'; lia | discriminate].
Qed.

Lemma np_mean_total (l : list Q) : l <> [] -> exists m, np_mean l = Ok m.
Proof. intros H. rewrite (np_mean_ok l H). eauto. Qed.

(** Mean of column maxima, mean of row maxima: defined on a proper array. *)
Lemma max_mean_total (a : ndarray) :
  proper a ->
  exists p r,
    (col_max <- np_max_axis0 a ;;
     precision <- np_mean col_max ;;
     row_max <- np_max_axis1 a ;;
     recall <- np_mean row_max ;;
     Ok (precision, recall)) = Ok (p, r).
Proof.
  intros H.
  destruct (np_max_axis0_total a H) as (cm & -> & Hcm).
  destruct (np_mean_total cm Hcm) as (p & Hp).
  destruct (np_max_axis1_total a H) as (rm & -> & Hrm).
  destruct (np_mean_total rm Hrm) as (r & Hr).
  exists p, r. simpl. rewrite Hp. simpl. rewrite Hr. reflexivity.
Qed.

(** ** Occurrences without events *)

Lemma first_layer_empty_ref (est_occs : occurrence) :
  compute_first_layer_PR [] est_occs = Raise ZeroDivisionError.
Proof. reflexivity. Qed.

Lemma first_layer_empty_est (ref_occs : occurrence) :
  compute_first_layer_PR ref_occs [] = Raise ZeroDivisionError.
Proof.
  unfold compute_first_layer_PR.
  destruct (py_div _ (float_of_nat (length ref_occs))) as [p|e] eqn:E;
    [reflexivity|].
  rewrite (py_div_raise _ _ _ E). reflexivity.
Qed.

Lemma first_layer_raise (ref_occs est_occs : occurrence) (e : exn) :
  compute_first_layer_PR ref_occs est_occs = Raise e -> e = ZeroDivisionError.
Proof.
  unfold compute_first_layer_PR. intros H.
  apply bind_raise in H as [H|(p & _ & H)]; [apply (py_div_raise _ _ _ H)|].
  apply bind_raise in H as [H|(r & _ & H)]; [apply (py_div_raise _ _ _ H)|].
  discriminate.
Qed.

Lemma score_cell_empty :
  score_cell "cardinality_score" [] [] = Raise ZeroDivisionError.
Proof. reflexivity. Qed.

Lemma score_cell_raise (occ_P occ_Q : occurrence) (e : exn) :
  score_cell "cardinality_score" occ_P occ_Q = Raise e -> e = ZeroDivisionError.
Proof. unfold score_cell. simpl. apply py_div_raise. Qed.

Lemma layer_cell_raise {A} (func : A -> A -> result (Q * Q)) (r e' : A) (e : exn) :
  layer_cell func r e' = Raise e -> func r e' = Raise e.
Proof.
  unfold layer_cell. intros H.
  apply bind_raise in H as [H|([p q] & _ & H)]; [exact H | discriminate].
Qed.

(** A matrix built cell by cell raises what one of its cells raises. *)
Lemma rows_raise {A B} (g : A -> B -> result Q) (xs : list A) (ys : list B)
  (e : exn) :
  mapM (fun a => mapM (g a) ys) xs = Raise e ->
  exists a b, In a xs /\ In b ys /\ g a b = Raise e.
Proof.
  intros H. apply mapM_raise in H as (a & Ha & H).
  apply mapM_raise in H as (b & Hb & H). eauto.
Qed.

Lemma rows_not_ok {A B} (g : A -> B -> result Q) (xs : list A) (ys : list B)
  (a : A) (b : B) (e : exn) :
  In a xs -> In b ys -> g a b = Raise e ->
  exists e', mapM (fun a => mapM (g a) ys) xs = Raise e'.
Proof.
  intros Ha Hb H.
  destruct (mapM_not_ok (g a) ys b e Hb H) as [e1 H1].
  apply (mapM_not_ok (fun a => mapM (g a) ys) xs a e1 Ha H1).
Qed.

Lemma second_layer_raise (rp ep : pattern) (e : exn) :
  rp <> [] -> ep <> [] ->
  compute_second_layer_PR rp ep = Raise e -> e = ZeroDivisionError.
Proof.
  intros Hr He. unfold compute_second_layer_PR. rewrite compute_layer_rows.
  destruct (mapM (fun r => mapM (layer_cell compute_first_layer_PR r) ep) rp)
    as [rows|e1] eqn:E; simpl.
  - pose proof (rows_proper _ rp ep rows Hr He E) as Hp.
    destruct (max_mean_total _ Hp) as (p & r & ->). discriminate.
  - intros [= <-]. apply rows_raise in E as (a & b & _ & _ & E).
    apply layer_cell_raise in E. apply (first_layer_raise _ _ _ E).
Qed.

Lemma second_layer_empty_occurrence (rp ep : pattern) :
  rp <> [] -> ep <> [] -> In [] rp \/ In [] ep ->
  compute_second_layer_PR rp ep = Raise ZeroDivisionError.
Proof.
  intros Hr He Hempty.
  assert (Hraise : exists e, compute_layer compute_first_layer_PR rp ep = Raise e).
  { rewrite compute_layer_rows.
    destruct Hempty as [H|H].
    - destruct ep as [|eo ep']; [congruence|].
      destruct (rows_not_ok (layer_cell compute_first_layer_PR) rp (eo :: ep')
                  [] eo ZeroDivisionError H (or_introl eq_refl))
        as [e' ->]; [reflexivity | simpl; eauto].
    - destruct rp as [|ro rp']; [congruence|].
      destruct (rows_not_ok (layer_cell compute_first_layer_PR) (ro :: rp') ep
                  ro [] ZeroDivisionError (or_introl eq_refl) H)
        as [e' ->]; [|simpl; eauto].
      unfold layer_cell. rewrite first_layer_empty_est. reflexivity. }
  destruct Hraise as [e He'].
  assert (H2 : compute_second_layer_PR rp ep = Raise e).
  { unfold compute_second_layer_PR. rewrite He'. reflexivity. }
  rewrite H2. f_equal. apply (second_layer_raise rp ep e Hr He H2).
Qed.

Lemma no_events_false (ref est : patterns) :
  no_events ref est = false -> ref <> [] /\ est <> [].
Proof.
  unfold no_events. intros H. apply orb_false_elim in H as [Hr He].
  split; intros ->; discriminate.
Qed.

Lemma three_layer_body_empty_occurrence (ref est : patterns) :
  well_formed ref = true -> well_formed est = true ->
  no_events ref est = false ->
  has_empty_occurrence ref \/ has_empty_occurrence est ->
  three_layer_FPR_body ref est = Raise ZeroDivisionError.
Proof.
  intros Hr He Hn Hempty.
  destruct (no_events_false ref est Hn) as [Hrne Hene].
  unfold three_layer_FPR_body. rewrite Hn, compute_layer_rows.
  assert (Hraise : exists e,
             mapM (fun r => mapM (layer_cell compute_second_layer_PR r) est) ref
             = Raise e).
  { destruct Hempty as [(rp & Hrp & H)|(ep & Hep & H)].
    - destruct est as [|ep est']; [congruence|].
      apply (rows_not_ok _ ref (ep :: est') rp ep ZeroDivisionError Hrp
               (or_introl eq_refl)).
      unfold layer_cell. rewrite second_layer_empty_occurrence; auto.
      + apply (well_formed_no_empty ref rp Hr Hrp).
      + apply (well_formed_no_empty (ep :: est') ep He). left; reflexivity.
    - destruct ref as [|rp ref']; [congruence|].
      apply (rows_not_ok _ (rp :: ref') est rp ep ZeroDivisionError
               (or_introl eq_refl) Hep).
      unfold layer_cell. rewrite second_layer_empty_occurrence; auto.
      + apply (well_formed_no_empty (rp :: ref') rp Hr). left; reflexivity.
      + apply (well_formed_no_empty est ep He Hep). }
  destruct Hraise as [e Hraise]. rewrite Hraise. simpl. f_equal.
  apply rows_raise in Hraise as (rp & ep & Hrp & Hep & H).
  apply layer_cell_raise in H.
  apply (second_layer_raise rp ep e); auto.
  - apply (well_formed_no_empty ref rp Hr Hrp).
  - apply (well_formed_no_empty est ep He Hep).
Qed.

Lemma score_matrix_raise (P Q_ : pattern) (e : exn) :
  _compute_score_matrix P Q_ "cardinality_score" = Raise e ->
  e = ZeroDivisionError.
Proof.
  rewrite score_matrix_rows. intros H.
  apply bind_raise in H as [H|(rows & _ & H)]; [|discriminate].
  apply rows_raise in H as (a & b & _ & _ & H).
  apply (score_cell_raise a b e H).
Qed.

Lemma score_matrix_empty_occurrences (P Q_ : pattern) :
  In [] P -> In [] Q_ ->
  _compute_score_matrix P Q_ "cardinality_score" = Raise ZeroDivisionError.
Proof.
  intros HP HQ.
  destruct (_compute_score_matrix P Q_ "cardinality_score") as [s|e] eqn:E.
  - exfalso. rewrite score_matrix_rows in E.
    destruct (rows_not_ok (score_cell "cardinality_score") P Q_ [] []
                ZeroDivisionError HP HQ score_cell_empty) as [e' He'].
    rewrite He' in E. discriminate.
  - f_equal. apply (score_matrix_raise P Q_ e E).
Qed.

Lemma establishment_cell_raise (rp ep : pattern) (e : exn) :
  rp <> [] -> ep <> [] ->
  establishment_cell "cardinality_score" rp ep = Raise e ->
  e = ZeroDivisionError.
Proof.
  intros Hr He. unfold establishment_cell. intros H.
  apply bind_raise in H as [H|(s & Hs & H)];
    [apply (score_matrix_raise rp ep e H)|].
  exfalso. rewrite score_matrix_rows in Hs.
  apply bind_ok in Hs as (rows & Hrows & [= <-]).
  destruct (np_max_total _ (rows_proper _ rp ep rows Hr He Hrows)) as [m Hm].
  congruence.
Qed.

Lemma establishment_body_empty_occurrences (ref est : patterns) :
  well_formed ref = true -> well_formed est = true ->
  no_events ref est = false ->
  has_empty_occurrence ref -> has_empty_occurrence est ->
  establishment_FPR_body "cardinality_score" ref est = Raise ZeroDivisionError.
Proof.
  intros Hr He Hn (rp & Hrp & HP) (ep & Hep & HQ).
  unfold establishment_FPR_body. rewrite Hn, establishment_matrix_rows.
  destruct (rows_not_ok (establishment_cell "cardinality_score") ref est rp ep
              ZeroDivisionError Hrp Hep) as [e Hraise].
  { unfold establishment_cell.
    rewrite (score_matrix_empty_occurrences rp ep HP HQ). reflexivity. }
  rewrite Hraise. simpl. f_equal.
  apply rows_raise in Hraise as (rp' & ep' & Hrp' & Hep' & H).
  apply (establishment_cell_raise rp' ep' e); auto.
  - apply (well_formed_no_empty ref rp' Hr Hrp').
  - apply (well_formed_no_empty est ep' He Hep').
Qed.

Lemma validate_with_events {A} (body : patterns -> patterns -> Py A)
  (ref est : patterns) :
  well_formed ref = true -> well_formed est = true ->
  no_events ref est = false ->
  validate body ref est = body ref est.
Proof.
  intros Hr He Hn. rewrite (validate_well_formed body ref est Hr He).
  unfold validate_warnings. unfold no_events in Hn.
  apply orb_false_elim in Hn as [-> ->]. simpl.
  destruct (body ref est); reflexivity.
Qed.

(** C10.  [validate] lets through well-formed collections that hold an
    occurrence without events: with at least one event on each side it
    emits nothing and runs the metric.  On such input [three_layer_FPR]
    raises [ZeroDivisionError] (the first layer divides by the length of
    the occurrence); the score matrix of two patterns that each hold an
    empty occurrence raises it too (the cardinality score divides by the
    larger length), and with it [establishment_FPR]. *)
Theorem C10_empty_occurrence_divides_by_zero (ref est : patterns) :
  well_formed ref = true -> well_formed est = true ->
  no_events ref est = false ->
  has_empty_occurrence ref \/ has_empty_occurrence est ->
  (forall (A : Type) (body : patterns -> patterns -> Py A),
      validate body ref est = body ref est)
  /\ outcome (three_layer_FPR ref est) = Raise ZeroDivisionError
  /\ (forall occ : occurrence,
         compute_first_layer_PR [] occ = Raise ZeroDivisionError
         /\ compute_first_layer_PR occ [] = Raise ZeroDivisionError)
  /\ (forall P Q_ : pattern,
         In [] P -> In [] Q_ ->
         _compute_score_matrix P Q_ "cardinality_score"
         = Raise ZeroDivisionError)
  /\ (has_empty_occurrence ref -> has_empty_occurrence est ->
      outcome (establishment_FPR "cardinality_score" ref est)
      = Raise ZeroDivisionError).
Proof.
  intros Hr He Hn Hempty. split; [|split; [|split; [|split]]].
  - intros A body. apply validate_with_events; assumption.
  - unfold three_layer_FPR. rewrite validate_with_events by assumption.
    simpl. apply three_layer_body_empty_occurrence; assumption.
  - intros occ. split;
      [apply first_layer_empty_ref | apply first_layer_empty_est].
  - apply score_matrix_empty_occurrences.
  - intros H1 H2. unfold establishment_FPR.
    rewrite validate_with_events by assumption.
    simpl. apply establishment_body_empty_occurrences; assumption.
Qed.

Lemma C10_empty_occurrence_witness :
  well_formed [[[]]; [[ev 0 60]]] = true
  /\ well_formed [[[ev 0 60]]] = true
  /\ no_events [[[]]; [[ev 0 60]]] [[[ev 0 60]]] = false
  /\ (has_empty_occurrence [[[]]; [[ev 0 60]]]
      \/ has_empty_occurrence [[[ev 0 60]]])
  /\ outcome (three_layer_FPR [[[]]; [[ev 0 60]]] [[[ev 0 60]]])
     = Raise ZeroDivisionError.
Proof.
  assert (H : has_empty_occurrence [[[]]; [[ev 0 60]]]
              \/ has_empty_occurrence [[[ev 0 60]]]).
  { left. exists [[]]. split; left; reflexivity. }
  split; [reflexivity|]. split; [reflexivity|]. split; [reflexivity|].
  split; [exact H|].
  apply (C10_empty_occurrence_divides_by_zero
           [[[]]; [[ev 0 60]]] [[[ev 0 60]]] eq_refl eq_refl eq_refl H).
Defined.

(** ** Maxima and sums by position *)

Lemma reduce_max_ok (l : list Q) : l <> [] -> reduce_max l = Ok (list_max l).
Proof. destruct l; [congruence | reflexivity]. Qed.

Lemma reduce_max_list_max (l : list Q) (m : Q) :
  reduce_max l = Ok m -> m = list_max l.
Proof. destruct l; simpl; [discriminate | congruence]. Qed.

Lemma list_max_in (l : list Q) : l <> [] -> In (list_max l) l.
Proof. intros H. apply reduce_max_in, reduce_max_ok, H. Qed.

Lemma list_max_ub (l : list Q) (y : Q) : In y l -> y <= list_max l.
Proof.
  intros H. apply (reduce_max_ub l); [|exact H].
  apply reduce_max_ok. intros ->. contradiction.
Qed.

Lemma max_upto_ext (n : nat) (f g : nat -> Q) :
  (forall k, (k <= n)%nat -> f k = g k) -> max_upto n f = max_upto n g.
Proof.
  induction n as [|n IH]; intros H; simpl.
  - apply H; lia.
  - rewrite IH by (intros; apply H; lia). rewrite (H (S n)) by lia. reflexivity.
Qed.

Lemma max_upto_compat (n : nat) (f g : nat -> Q) :
  (forall k, (k <= n)%nat -> f k == g k) -> max_upto n f == max_upto n g.
Proof.
  induction n as [|n IH]; intros H; simpl.
  - apply H; lia.
  - rewrite IH by (intros; apply H; lia). rewrite (H (S n)) by lia. reflexivity.
Qed.

Lemma sum_below_compat (n : nat) (f g : nat -> Q) :
  (forall k, (k < n)%nat -> f k == g k) -> sum_below n f == sum_below n g.
Proof.
  induction n as [|n IH]; intros H; simpl; [reflexivity|].
  rewrite IH by (intros; apply H; lia). rewrite (H n) by lia. reflexivity.
Qed.

Lemma fold_max_index (r : list Q) (x : Q) :
  fold_left Qmax r x = max_upto (length r) (fun k => nth k (x :: r) 0).
Proof.
  induction r as [|y r IH] using rev_ind; [reflexivity|].
  rewrite fold_left_app, length_app, Nat.add_1_r. cbn [fold_left max_upto].
  rewrite IH. f_equal.
  - apply max_upto_ext. intros k Hk.
    change (x :: r ++ [y]) with ((x :: r) ++ [y]).
    rewrite app_nth1 by (simpl; lia). reflexivity.
  - change (x :: r ++ [y]) with ((x :: r) ++ [y]).
    replace (S (length r)) with (length (x :: r)) by reflexivity.
    rewrite nth_middle_len. reflexivity.
Qed.

(** The maximum of a family listed by position. *)
Lemma max_below_map {A} (F : A -> Q) (xs : list A) (d : A) :
  xs <> [] ->
  max_below (length xs) (fun i => F (nth i xs d)) = list_max (map F xs).
Proof.
  destruct xs as [|x r]; [congruence|]. intros _.
  unfold max_below. cbn [length pred map list_max].
  rewrite fold_max_index, length_map.
  apply max_upto_ext. intros k Hk.
  change (F x :: map F r) with (map F (x :: r)).
  rewrite (nth_indep _ 0 (F d)) by (rewrite length_map; simpl; lia).
  rewrite map_nth. reflexivity.
Qed.

Lemma list_max_concat (rows : list (list Q)) :
  rows <> [] -> Forall (fun row => row <> []) rows ->
  list_max (concat rows) == list_max (map list_max rows).
Proof.
  intros Hne Hrows. rewrite Forall_forall in Hrows.
  assert (Hc : concat rows <> []).
  { destruct rows as [|row rest]; [congruence|].
    specialize (Hrows row (or_introl eq_refl)).
    destruct row; [congruence | discriminate]. }
  apply Qle_antisym.
  - pose proof (list_max_in _ Hc) as Hin.
    apply in_concat in Hin as (row & Hrow & Hin).
    apply Qle_trans with (list_max row); [apply list_max_ub, Hin|].
    apply list_max_ub, in_map, Hrow.
  - assert (Hm : map list_max rows <> []) by (destruct rows; [congruence | discriminate]).
    pose proof (list_max_in _ Hm) as Hin.
    apply in_map_iff in Hin as (row & <- & Hrow).
    apply list_max_ub, in_concat. exists row. split; [exact Hrow|].
    apply list_max_in, Hrows, Hrow.
Qed.

Lemma np_sum_index (l : list Q) :
  np_sum l == sum_below (length l) (fun k => nth k l 0).
Proof.
  induction l as [|y l IH] using rev_ind; [reflexivity|].
  rewrite np_sum_app, length_app, Nat.add_1_r. cbn [sum_below].
  rewrite nth_middle_len, IH.
  rewrite (sum_below_compat (length l) (fun k => nth k (l ++ [y]) 0)
             (fun k => nth k l 0)).
  - unfold np_sum; simpl. lra.
  - intros k Hk. rewrite app_nth1 by exact Hk. reflexivity.
Qed.

Lemma nth_map_seq {A} (h : nat -> A) (n j : nat) (d : A) :
  (j < n)%nat -> nth j (map h (seq 0 n)) d = h j.
Proof.
  intros H. rewrite (nth_indep _ d (h 0%nat)) by (rewrite length_map, length_seq; exact H).
  rewrite map_nth, seq_nth by exact H. reflexivity.
Qed.

(** ** Arrays given by a function of two elements *)

Lemma rows_ok_map {A B} (g : A -> B -> result Q) (v : A -> B -> Q)
  (xs : list A) (ys : list B) :
  (forall a b, In a xs -> In b ys -> g a b = Ok (v a b)) ->
  mapM (fun a => mapM (g a) ys) xs = Ok (map (fun a => map (v a) ys) xs).
Proof.
  intros H. apply mapM_ok_map. intros a Ha.
  apply mapM_ok_map. intros b Hb. apply H; assumption.
Qed.

Lemma mapM_map {A B C} (f : B -> result C) (h : A -> B) (l : list A) :
  mapM f (map h l) = mapM (fun a => f (h a)) l.
Proof.
  induction l as [|a l IH]; simpl; [reflexivity|]. rewrite IH. reflexivity.
Qed.

Lemma nth_map_in_range {A} (F : A -> Q) (xs : list A) (i : nat) (d : A) :
  (i < length xs)%nat -> nth i (map F xs) 0 = F (nth i xs d).
Proof.
  intros H. rewrite (nth_indep _ 0 (F d)) by (rewrite length_map; exact H).
  apply map_nth.
Qed.

Section MatrixOf.
Context {A B : Type}.
Variable g : A -> B -> Q.
Variable xs : list A.
Variable ys : list B.
Variable dx : A.
Variable dy : B.

Lemma entry_matrix_of (i j : nat) :
  (i < length xs)%nat -> (j < length ys)%nat ->
  entry (matrix_of g xs ys) i j = g (nth i xs dx) (nth j ys dy).
Proof.
  intros Hi Hj. unfold entry, matrix_of; simpl.
  rewrite (nth_indep _ [] (map (g dx) ys)) by (rewrite length_map; exact Hi).
  rewrite (map_nth (fun a => map (g a) ys)).
  apply nth_map_in_range, Hj.
Qed.

Lemma getitem_matrix_of (i j : nat) :
  (i < length xs)%nat -> (j < length ys)%nat ->
  getitem (matrix_of g xs ys) i j = Ok (g (nth i xs dx) (nth j ys dy)).
Proof.
  intros Hi Hj. unfold getitem.
  pose proof (entry_matrix_of i j Hi Hj) as He. unfold entry in He.
  rewrite He. simpl.
  apply Nat.ltb_lt in Hi, Hj. rewrite Hi, Hj. reflexivity.
Qed.

Lemma column_matrix_of (j : nat) :
  (j < length ys)%nat ->
  column (matrix_of g xs ys) j = map (fun a => g a (nth j ys dy)) xs.
Proof.
  intros Hj. unfold column, matrix_of; simpl. rewrite map_map.
  apply map_ext. intros a. apply nth_map_in_range, Hj.
Qed.

Lemma axis0_matrix_of :
  xs <> [] ->
  np_max_axis0 (matrix_of g xs ys)
  = Ok (map (fun j => list_max (map (fun a => g a (nth j ys dy)) xs))
          (seq 0 (length ys))).
Proof.
  intros Hx. unfold np_max_axis0. apply mapM_ok_map.
  intros j Hj. apply in_seq in Hj. simpl ncols in Hj.
  rewrite column_matrix_of by lia.
  apply reduce_max_ok. destruct xs; [congruence | discriminate].
Qed.

Lemma axis1_matrix_of :
  ys <> [] ->
  np_max_axis1 (matrix_of g xs ys)
  = Ok (map (fun a => list_max (map (g a) ys)) xs).
Proof.
  intros Hy. unfold np_max_axis1, matrix_of; simpl.
  rewrite mapM_map. apply mapM_ok_map.
  intros a _. apply reduce_max_ok. destruct ys; [congruence | discriminate].
Qed.

(** The mean of the column maxima, by position. *)
Lemma mean_column_maxima (p : Q) :
  xs <> [] ->
  np_mean (map (fun j => list_max (map (fun a => g a (nth j ys dy)) xs))
             (seq 0 (length ys))) = Ok p ->
  p == mean_below (length ys) (fun j =>
         max_below (length xs) (fun i => g (nth i xs dx) (nth j ys dy))).
Proof.
  intros Hx Hp. apply np_mean_inv in Hp as [_ ->].
  unfold mean_below. rewrite length_map, length_seq.
  apply Qdiv_comp; [|reflexivity].
  rewrite np_sum_index, length_map, length_seq.
  apply sum_below_compat. intros j Hj.
  rewrite (nth_map_seq _ (length ys) j 0 Hj).
  rewrite <- (max_below_map (fun a => g a (nth j ys dy)) xs dx Hx).
  reflexivity.
Qed.

(** The mean of the row maxima, by position. *)
Lemma mean_row_maxima (r : Q) :
  ys <> [] ->
  np_mean (map (fun a => list_max (map (g a) ys)) xs) = Ok r ->
  r == mean_below (length xs) (fun i =>
         max_below (length ys) (fun j => g (nth i xs dx) (nth j ys dy))).
Proof.
  intros Hy Hr. apply np_mean_inv in Hr as [_ ->].
  unfold mean_below. rewrite length_map.
  apply Qdiv_comp; [|reflexivity].
  rewrite np_sum_index, length_map.
  apply sum_below_compat. intros i Hi.
  rewrite (nth_map_in_range (fun a => list_max (map (g a) ys)) xs i dx Hi).
  rewrite <- (max_below_map (g (nth i xs dx)) ys dy Hy).
  reflexivity.
Qed.
End MatrixOf.

Lemma max_below_compat (n : nat) (f g : nat -> Q) :
  (0 < n)%nat -> (forall k, (k < n)%nat -> f k == g k) ->
  max_below n f == max_below n g.
Proof.
  intros Hn H. unfold max_below. apply max_upto_compat.
  intros k Hk. apply H. lia.
Qed.

Lemma mean_below_compat (n : nat) (f g : nat -> Q) :
  (forall k, (k < n)%nat -> f k == g k) -> mean_below n f == mean_below n g.
Proof.
  intros H. unfold mean_below. apply Qdiv_comp; [|reflexivity].
  apply sum_below_compat, H.
Qed.

(** ** establishment_FPR, cell by cell and by position *)

Lemma score_cell_ok (occ_P occ_Q : occurrence) :
  occ_P <> [] \/ occ_Q <> [] ->
  score_cell "cardinality_score" occ_P occ_Q
  = Ok (cardinality_score occ_P occ_Q).
Proof.
  intros H. unfold score_cell, cardinality_score. simpl.
  apply py_div_pos.
  destruct occ_P, occ_Q; simpl; try lia. destruct H; congruence.
Qed.

Lemma score_matrix_ok (P Q_ : pattern) :
  (forall a b, In a P -> In b Q_ -> a <> [] \/ b <> []) ->
  _compute_score_matrix P Q_ "cardinality_score"
  = Ok (matrix_of cardinality_score P Q_).
Proof.
  intros H. rewrite score_matrix_rows.
  rewrite (rows_ok_map _ cardinality_score).
  - reflexivity.
  - intros a b Ha Hb. apply score_cell_ok, H; assumption.
Qed.

Lemma establishment_cell_ok (rp ep : pattern) :
  rp <> [] -> ep <> [] ->
  (forall a b, In a rp -> In b ep -> a <> [] \/ b <> []) ->
  establishment_cell "cardinality_score" rp ep = Ok (best_score rp ep).
Proof.
  intros Hr He H. unfold establishment_cell.
  rewrite (score_matrix_ok rp ep H). simpl.
  unfold np_max, best_score, matrix_of; simpl.
  apply reduce_max_ok.
  destruct rp as [|a rp']; [congruence|].
  destruct ep as [|b ep']; [congruence|]. discriminate.
Qed.

Lemma scores_defined_pairs (ref est : patterns) :
  scores_defined ref est ->
  forall rp ep a b,
    In rp ref -> In ep est -> In a rp -> In b ep -> a <> [] \/ b <> [].
Proof.
  intros H rp ep a b Hrp Hep Ha Hb.
  destruct a as [|x a]; [|left; discriminate].
  destruct b as [|y b]; [|right; discriminate].
  exfalso. apply H. split; [exists rp | exists ep]; auto.
Qed.

Lemma establishment_matrix_ok (ref est : patterns) :
  well_formed ref = true -> well_formed est = true ->
  scores_defined ref est ->
  establishment_matrix "cardinality_score" ref est
  = Ok (matrix_of best_score ref est).
Proof.
  intros Hr He Hd. rewrite establishment_matrix_rows.
  rewrite (rows_ok_map _ best_score).
  - reflexivity.
  - intros rp ep Hrp Hep. apply establishment_cell_ok.
    + apply (well_formed_no_empty ref rp Hr Hrp).
    + apply (well_formed_no_empty est ep He Hep).
    + intros a b. apply (scores_defined_pairs ref est Hd rp ep); assumption.
Qed.

Lemma best_score_by_position (rp ep : pattern) :
  rp <> [] -> ep <> [] ->
  best_score rp ep
  == max_below (length rp) (fun a =>
       max_below (length ep) (fun b =>
         cardinality_score (nth a rp []) (nth b ep []))).
Proof.
  intros Hr He. unfold best_score.
  rewrite list_max_concat.
  - rewrite map_map.
    rewrite <- (max_below_map
                  (fun occ_P => list_max (map (cardinality_score occ_P) ep))
                  rp [] Hr).
    unfold max_below. apply max_upto_compat. intros a _.
    rewrite <- (max_below_map (cardinality_score (nth a rp [])) ep [] He).
    reflexivity.
  - destruct rp; [congruence | discriminate].
  - apply Forall_map, Forall_forall. intros a _.
    destruct ep; [congruence | discriminate].
Qed.

Lemma nth_well_formed (ps : patterns) (i : nat) :
  well_formed ps = true -> (i < length ps)%nat -> nth i ps [] <> [].
Proof.
  intros H Hi. apply (well_formed_no_empty ps _ H), nth_In, Hi.
Qed.

Lemma best_score_is_S_spec (ref est : patterns) (i j : nat) :
  well_formed ref = true -> well_formed est = true ->
  (i < length ref)%nat -> (j < length est)%nat ->
  best_score (nth i ref []) (nth j est []) == establishment_S_spec ref est i j.
Proof.
  intros Hr He Hi Hj. unfold establishment_S_spec.
  apply best_score_by_position; apply nth_well_formed; assumption.
Qed.

Lemma length_pos {A} (l : list A) : l <> [] -> (0 < length l)%nat.
Proof. destruct l; [congruence | simpl; lia]. Qed.

(** C5.  On well-formed collections with events whose cardinality scores
    are all defined, [establishment_FPR] builds the nP x nQ matrix S with
    S[i, j] the largest entry of the score matrix of reference pattern i
    and estimated pattern j, and returns the mean of the column maxima of
    S as precision, the mean of its row maxima as recall, and their
    [f_measure]. *)
Theorem C5_establishment_max_then_mean (ref est : patterns) :
  well_formed ref = true -> well_formed est = true ->
  no_events ref est = false -> scores_defined ref est ->
  exists (S : ndarray) (p r : Q),
    establishment_matrix "cardinality_score" ref est = Ok S
    /\ nrows S = length ref /\ ncols S = length est
    /\ (forall i j, (i < length ref)%nat -> (j < length est)%nat ->
          exists s m,
            _compute_score_matrix (nth i ref []) (nth j est [])
              "cardinality_score" = Ok s
            /\ np_max s = Ok m
            /\ getitem S i j = Ok m
            /\ m == establishment_S_spec ref est i j)
    /\ establishment_FPR "cardinality_score" ref est
       = ([], Ok (Triple (f_measure p r) p r))
    /\ p == establishment_precision_spec ref est
    /\ r == establishment_recall_spec ref est.
Proof.
  intros Hr He Hn Hd.
  destruct (no_events_false ref est Hn) as [Hrne Hene].
  pose proof (establishment_matrix_ok ref est Hr He Hd) as HS.
  pose proof (axis0_matrix_of best_score ref est [] Hrne) as H0.
  pose proof (axis1_matrix_of best_score ref est Hene) as H1.
  destruct (np_mean_total
              (map (fun j => list_max (map (fun a => best_score a (nth j est []))
                                         ref)) (seq 0 (length est))))
    as [p Hp].
  { pose proof (length_pos est Hene).
    destruct (length est); [lia | discriminate]. }
  destruct (np_mean_total (map (fun a => list_max (map (best_score a) est)) ref))
    as [r Hrr].
  { destruct ref; [congruence | discriminate]. }
  exists (matrix_of best_score ref est), p, r.
  split; [exact HS|]. split; [reflexivity|]. split; [reflexivity|].
  split; [|split; [|split]].
  - intros i j Hi Hj.
    assert (Hpairs : forall a b, In a (nth i ref []) -> In b (nth j est []) ->
                                 a <> [] \/ b <> []).
    { intros a b. apply (scores_defined_pairs ref est Hd); apply nth_In; assumption. }
    exists (matrix_of cardinality_score (nth i ref []) (nth j est [])),
      (best_score (nth i ref []) (nth j est [])).
    split; [apply score_matrix_ok, Hpairs|]. split.
    + pose proof (establishment_cell_ok (nth i ref []) (nth j est [])
                    (nth_well_formed ref i Hr Hi) (nth_well_formed est j He Hj)
                    Hpairs) as Hc.
      unfold establishment_cell in Hc.
      rewrite (score_matrix_ok _ _ Hpairs) in Hc. exact Hc.
    + split; [apply getitem_matrix_of; assumption|].
      apply best_score_is_S_spec; assumption.
  - unfold establishment_FPR. rewrite validate_with_events by assumption.
    unfold establishment_FPR_body, py_lift. rewrite Hn, HS. cbn [bind].
    rewrite H0. cbn [bind]. rewrite Hp. cbn [bind].
    rewrite H1. cbn [bind]. rewrite Hrr. reflexivity.
  - rewrite (mean_column_maxima best_score ref est [] [] p Hrne Hp).
    unfold establishment_precision_spec.
    apply mean_below_compat. intros j Hj.
    apply max_below_compat; [apply length_pos, Hrne|].
    intros i Hi. apply best_score_is_S_spec; assumption.
  - rewrite (mean_row_maxima best_score ref est [] [] r Hene Hrr).
    unfold establishment_recall_spec.
    apply mean_below_compat. intros i Hi.
    apply max_below_compat; [apply length_pos, Hene|].
    intros j Hj. apply best_score_is_S_spec; assumption.
Qed.

Lemma C5_establishment_witness :
  let reference := [[[ev 0 60; ev 1 62]; [ev 4 60]]; [[ev 2 64]]] in
  let estimated := [[[ev 0 60]]; [[ev 2 64]; [ev 7 70]]; [[ev 9 9]]] in
  well_formed reference = true /\ well_formed estimated = true
  /\ no_events reference estimated = false
  /\ scores_defined reference estimated
  /\ exists (S : ndarray) (p r : Q),
       establishment_FPR "cardinality_score" reference estimated
       = ([], Ok (Triple (f_measure p r) p r))
       /\ p == establishment_precision_spec reference estimated
       /\ r == establishment_recall_spec reference estimated.
Proof.
  intros reference estimated.
  assert (Hd : scores_defined reference estimated).
  { intros [_ (ep & Hep & H)]. simpl in Hep.
    destruct Hep as [<-|[<-|[<-|[]]]]; simpl in H;
      repeat (destruct H as [H|H]; [discriminate|]); exact H. }
  split; [reflexivity|]. split; [reflexivity|]. split; [reflexivity|].
  split; [exact Hd|].
  destruct (C5_establishment_max_then_mean reference estimated
              eq_refl eq_refl eq_refl Hd)
    as (S & p & r & _ & _ & _ & _ & Hv & Hp & Hrr).
  exists S, p, r. auto.
Defined.

(** ** The relevant pairs of occurrence_FPR *)

Lemma relevant_in_row_inv (i j0 : nat) (row : list (option (Q * Q)))
  (i' j : nat) :
  In (i', j) (relevant_in_row i j0 row) ->
  i' = i /\ (j0 <= j)%nat
  /\ exists pq, nth_error row (j - j0) = Some (Some pq).
Proof.
  revert j0; induction row as [|c row IH]; intros j0; simpl; [tauto|].
  intros H. apply in_app_or in H as [H|H].
  - destruct c as [pq|]; [|contradiction].
    destruct H as [[= <- <-]|[]]. rewrite Nat.sub_diag. simpl. eauto.
  - destruct (IH (S j0) H) as (-> & Hj & pq & Hpq).
    split; [reflexivity|]. split; [lia|]. exists pq.
    replace (j - j0)%nat with (S (j - S j0)) by lia. exact Hpq.
Qed.

Lemma relevant_in_row_intro (i j0 : nat) (row : list (option (Q * Q)))
  (k : nat) (pq : Q * Q) :
  nth_error row k = Some (Some pq) ->
  In (i, (j0 + k)%nat) (relevant_in_row i j0 row).
Proof.
  revert j0 k; induction row as [|c row IH]; intros j0 [|k]; simpl;
    try discriminate.
  - intros [= ->]. rewrite Nat.add_0_r. left; reflexivity.
  - intros H. apply in_or_app. right.
    replace (j0 + S k)%nat with (S j0 + k)%nat by lia. apply IH, H.
Qed.

Lemma relevant_from_inv (k : nat) (css : list (list (option (Q * Q))))
  (i j : nat) :
  In (i, j) (relevant_from k css) ->
  (k <= i)%nat
  /\ exists row pq,
       nth_error css (i - k) = Some row /\ nth_error row j = Some (Some pq).
Proof.
  revert k; induction css as [|row css IH]; intros k; simpl; [tauto|].
  intros H. apply in_app_or in H as [H|H].
  - apply relevant_in_row_inv in H as (-> & _ & pq & Hpq).
    rewrite Nat.sub_0_r in Hpq. split; [lia|].
    exists row, pq. rewrite Nat.sub_diag. auto.
  - destruct (IH (S k) H) as (Hk & row' & pq & Hrow & Hpq).
    split; [lia|]. exists row', pq. split; [|exact Hpq].
    replace (i - k)%nat with (S (i - S k)) by lia. exact Hrow.
Qed.

Lemma relevant_from_intro (k : nat) (css : list (list (option (Q * Q))))
  (d j : nat) (row : list (option (Q * Q))) (pq : Q * Q) :
  nth_error css d = Some row -> nth_error row j = Some (Some pq) ->
  In ((k + d)%nat, j) (relevant_from k css).
Proof.
  revert k d; induction css as [|row0 css IH]; intros k [|d]; simpl;
    try discriminate.
  - intros [= ->] Hpq. apply in_or_app. left.
    rewrite Nat.add_0_r. apply (relevant_in_row_intro k 0 row j pq Hpq).
  - intros Hrow Hpq. apply in_or_app. right.
    replace (k + S d)%nat with (S k + d)%nat by lia.
    apply (IH (S k) d Hrow Hpq).
Qed.

(** An entry of a plane of [O_PR] is the stored value, or zero. *)
Lemma entry_plane (f : Q * Q -> Q) (n m : nat)
  (css : list (list (option (Q * Q)))) (i j : nat) :
  entry (mk_ndarray n m (map (map (plane_value f)) css)) i j
  = plane_value f (nth j (nth i css []) None).
Proof.
  unfold entry; simpl.
  change (@nil Q) with (map (plane_value f) []).
  rewrite (map_nth (map (plane_value f))).
  change 0 with (plane_value f None). apply map_nth.
Qed.

Lemma nth_error_nth_Some {A} (l : list A) (i : nat) (d a : A) :
  nth_error l i = Some a -> nth i l d = a.
Proof. intros H. apply nth_error_nth, H. Qed.

Lemma nth_Some_nth_error {A} (l : list (option A)) (i : nat) (a : A) :
  nth i l None = Some a -> nth_error l i = Some (Some a).
Proof.
  revert i; induction l as [|x l IH]; intros [|i]; simpl; try discriminate.
  - intros ->; reflexivity.
  - apply IH.
Qed.

Lemma nth_nonempty_nth_error {A} (l : list (list A)) (i : nat) :
  nth i l [] <> [] -> nth_error l i = Some (nth i l []).
Proof.
  revert i; induction l as [|x l IH]; intros [|i]; simpl; try congruence.
  apply IH.
Qed.

Section OccurrenceState.
Variable thres : Q.
Variable sim : string.
Variables ref est : patterns.
Variable css : list (list (option (Q * Q))).
Hypothesis Hcss :
  mapM (fun rp => mapM (occurrence_cell thres sim rp) est) ref = Ok css.

Lemma relevant_in_range (i j : nat) :
  In (i, j) (relevant_from 0 css) ->
  (i < length ref)%nat /\ (j < length est)%nat.
Proof.
  intros H. apply relevant_from_inv in H as (_ & row & pq & Hrow & Hpq).
  rewrite Nat.sub_0_r in Hrow.
  pose proof (mapM_ok_length _ _ _ Hcss) as Hlen.
  assert (Hi : (i < length css)%nat) by (apply nth_error_Some; congruence).
  split; [lia|].
  assert (Hr : length row = length est).
  { assert (HF : Forall (fun row => length row = length est) css).
    { revert Hcss. apply mapM_ok_Forall. intros a r _. apply mapM_ok_length. }
    rewrite Forall_forall in HF. apply HF. apply (nth_error_In _ _ Hrow). }
  rewrite <- Hr. apply nth_error_Some. congruence.
Qed.

(** Outside the relevant pairs both planes hold 0. *)
Lemma entry_not_relevant (f : Q * Q -> Q) (n m i j : nat) :
  ~ In (i, j) (relevant_from 0 css) ->
  entry (mk_ndarray n m (map (map (plane_value f)) css)) i j = 0.
Proof.
  intros H. rewrite entry_plane.
  destruct (nth j (nth i css []) None) as [pq|] eqn:E; [|reflexivity].
  exfalso. apply H.
  apply nth_Some_nth_error in E.
  apply (relevant_from_intro 0 css i j (nth i css []) pq); [|exact E].
  apply nth_nonempty_nth_error. intros Hnil. rewrite Hnil in E.
  destruct j; discriminate.
Qed.
End OccurrenceState.

(** ** The last step of occurrence_FPR *)

Lemma getitem_entry (a : ndarray) (i j : nat) :
  (i < nrows a)%nat -> (j < ncols a)%nat -> getitem a i j = Ok (entry a i j).
Proof.
  intros Hi Hj. unfold getitem, entry.
  apply Nat.ltb_lt in Hi, Hj. rewrite Hi, Hj. reflexivity.
Qed.

Lemma ix_ok (a : ndarray) (rs cs : list nat) :
  (forall r, In r rs -> (r < nrows a)%nat) ->
  (forall c, In c cs -> (c < ncols a)%nat) ->
  ix_ a rs cs = Ok (matrix_of (entry a) rs cs).
Proof.
  intros Hr Hc. unfold ix_.
  rewrite (rows_ok_map (getitem a) (entry a)); [reflexivity|].
  intros r c Hir Hic. apply getitem_entry; auto.
Qed.

Lemma map_seq_nth {A B} (F : A -> B) (ys : list A) (d : A) :
  map (fun j => F (nth j ys d)) (seq 0 (length ys)) = map F ys.
Proof.
  induction ys as [|y ys IH]; simpl; [reflexivity|].
  f_equal. rewrite <- seq_shift, map_map. exact IH.
Qed.

Lemma occurrence_final (st : occ_state) :
  rel_idx st <> [] ->
  (forall i j, In (i, j) (rel_idx st) ->
               (i < nrows (O_P st))%nat /\ (j < ncols (O_P st))%nat
               /\ (i < nrows (O_R st))%nat /\ (j < ncols (O_R st))%nat) ->
  (subP <- ix_ (O_P st) (map fst (rel_idx st)) (map snd (rel_idx st)) ;;
   cP <- np_max_axis0 subP ;;
   precision <- np_mean cP ;;
   subR <- ix_ (O_R st) (map fst (rel_idx st)) (map snd (rel_idx st)) ;;
   rR <- np_max_axis1 subR ;;
   recall <- np_mean rR ;;
   Ok (precision, recall))
  = Ok (relevant_precision st, relevant_recall st).
Proof.
  intros Hne Hrange.
  assert (Hfst : map fst (rel_idx st) <> [])
    by (destruct (rel_idx st); [congruence | discriminate]).
  assert (Hsnd : map snd (rel_idx st) <> [])
    by (destruct (rel_idx st); [congruence | discriminate]).
  assert (HrP : forall r, In r (map fst (rel_idx st)) -> (r < nrows (O_P st))%nat).
  { intros r [[i j] [<- H]]%in_map_iff. apply (Hrange i j H). }
  assert (HcP : forall c, In c (map snd (rel_idx st)) -> (c < ncols (O_P st))%nat).
  { intros c [[i j] [<- H]]%in_map_iff. apply (Hrange i j H). }
  assert (HrR : forall r, In r (map fst (rel_idx st)) -> (r < nrows (O_R st))%nat).
  { intros r [[i j] [<- H]]%in_map_iff. apply (Hrange i j H). }
  assert (HcR : forall c, In c (map snd (rel_idx st)) -> (c < ncols (O_R st))%nat).
  { intros c [[i j] [<- H]]%in_map_iff. apply (Hrange i j H). }
  rewrite (ix_ok _ _ _ HrP HcP). cbn [bind].
  rewrite (axis0_matrix_of (entry (O_P st)) _ _ 0%nat Hfst). cbn [bind].
  rewrite (map_seq_nth
             (fun c => list_max (map (fun a => entry (O_P st) a c)
                                   (map fst (rel_idx st))))
             (map snd (rel_idx st)) 0%nat).
  rewrite map_map.
  rewrite (map_ext _ (fun b => list_max (map (fun a => entry (O_P st) (fst a) (snd b))
                                           (rel_idx st))))
    by (intros b; rewrite map_map; reflexivity).
  rewrite np_mean_ok by (destruct (rel_idx st); [congruence | discriminate]).
  cbn [bind]. rewrite length_map.
  rewrite (ix_ok _ _ _ HrR HcR). cbn [bind].
  rewrite (axis1_matrix_of (entry (O_R st)) _ _ Hsnd). cbn [bind].
  rewrite map_map.
  rewrite (map_ext _ (fun a => list_max (map (fun b => entry (O_R st) (fst a) (snd b))
                                           (rel_idx st))))
    by (intros a; rewrite map_map; reflexivity).
  rewrite np_mean_ok by (destruct (rel_idx st); [congruence | discriminate]).
  cbn [bind]. rewrite length_map. reflexivity.
Qed.

(** What [occurrence_FPR] returns once its loops have run. *)
Lemma occurrence_body_relevant (thres : Q) (sim : string) (ref est : patterns)
  (st : occ_state) :
  no_events ref est = false ->
  occurrence_loop thres sim ref est = Ok st ->
  rel_idx st <> [] ->
  occurrence_FPR_body thres sim ref est
  = Ok (Triple (f_measure (relevant_precision st) (relevant_recall st))
          (relevant_precision st) (relevant_recall st)).
Proof.
  intros Hn Hst Hne. unfold occurrence_FPR_body. rewrite Hn, Hst. cbn [bind].
  assert (Hlen : (length (rel_idx st) =? 0)%nat = false).
  { apply Nat.eqb_neq. destruct (rel_idx st); [congruence | discriminate]. }
  rewrite Hlen. rewrite occurrence_final; [reflexivity | exact Hne |].
  intros i j Hin. rewrite occurrence_loop_cells in Hst.
  apply bind_ok in Hst as (css & Hcss & [= <-]). simpl in *.
  destruct (relevant_in_range thres sim ref est css Hcss i j Hin). auto.
Qed.

Lemma occurrence_body_not_relevant (thres : Q) (sim : string)
  (ref est : patterns) (st : occ_state) :
  no_events ref est = false ->
  occurrence_loop thres sim ref est = Ok st ->
  rel_idx st = [] ->
  occurrence_FPR_body thres sim ref est = Ok (Triple (f_measure 0 0) 0 0).
Proof.
  intros Hn Hst He. unfold occurrence_FPR_body. rewrite Hn, Hst. cbn [bind].
  rewrite He. reflexivity.
Qed.

(** C6, as the code has it.  When the loops of [occurrence_FPR] end with
    at least one relevant pair, precision is the mean over the relevant
    pairs (i, j) -- one term per pair, so a column is counted once for
    each relevant pair it lies in -- of the largest [O_PR[i', j, 0]], i'
    running through the rows of the relevant pairs; recall is the mean
    over the relevant pairs of the largest [O_PR[i, j', 1]].  Both
    denominators are the number of relevant pairs.  Outside the relevant
    pairs [O_PR] holds 0, and rows and columns of no relevant pair are
    never read. *)
Theorem C6_occurrence_averages_over_relevant_pairs
  (thres : Q) (sim : string) (ref est : patterns) (st : occ_state) :
  well_formed ref = true -> well_formed est = true ->
  no_events ref est = false ->
  occurrence_loop thres sim ref est = Ok st ->
  rel_idx st <> [] ->
  occurrence_FPR thres sim ref est
  = ([], Ok (Triple (f_measure (relevant_precision st) (relevant_recall st))
               (relevant_precision st) (relevant_recall st)))
  /\ relevant_precision st * float_of_nat (length (rel_idx st))
     == np_sum (map (fun b =>
                       list_max (map (fun a => entry (O_P st) (fst a) (snd b))
                                   (rel_idx st)))
                  (rel_idx st))
  /\ relevant_recall st * float_of_nat (length (rel_idx st))
     == np_sum (map (fun a =>
                       list_max (map (fun b => entry (O_R st) (fst a) (snd b))
                                   (rel_idx st)))
                  (rel_idx st))
  /\ (forall i j, ~ In (i, j) (rel_idx st) ->
                  entry (O_P st) i j = 0 /\ entry (O_R st) i j = 0).
Proof.
  intros Hr He Hn Hst Hne.
  assert (Hpos : 0 < float_of_nat (length (rel_idx st))).
  { apply float_of_nat_pos, length_pos, Hne. }
  split; [|split; [|split]].
  - unfold occurrence_FPR. rewrite validate_with_events by assumption.
    unfold py_lift. rewrite (occurrence_body_relevant thres sim ref est st Hn Hst Hne).
    reflexivity.
  - unfold relevant_precision. field. lra.
  - unfold relevant_recall. field. lra.
  - intros i j Hnot. rewrite occurrence_loop_cells in Hst.
    apply bind_ok in Hst as (css & Hcss & [= <-]). simpl in *.
    split; apply entry_not_relevant; assumption.
Qed.

Lemma C6_occurrence_witness :
  let reference := [[[ev 0 60]]; [[ev 0 60]; [ev 1 61]]] in
  let estimated := [[[ev 0 60]]; [[ev 1 61]; [ev 2 62]]] in
  exists st,
    occurrence_loop (thres defaults) (similarity_metric defaults)
      reference estimated = Ok st
    /\ rel_idx st = [(0, 0); (1, 0); (1, 1)]%nat
    /\ occurrence_FPR (thres defaults) (similarity_metric defaults)
         reference estimated
       = ([], Ok (Triple (f_measure (relevant_precision st) (relevant_recall st))
                    (relevant_precision st) (relevant_recall st))).
Proof.
  intros reference estimated.
  destruct (occurrence_loop (thres defaults) (similarity_metric defaults)
              reference estimated) as [st|e] eqn:E;
    [|vm_compute in E; discriminate].
  assert (Hrel : rel_idx st = [(0, 0); (1, 0); (1, 1)]%nat).
  { vm_compute in E. injection E as <-. reflexivity. }
  exists st. split; [reflexivity|]. split; [exact Hrel|].
  apply (C6_occurrence_averages_over_relevant_pairs
           (thres defaults) (similarity_metric defaults) reference estimated st
           eq_refl eq_refl eq_refl E).
  rewrite Hrel. discriminate.
Defined.

(** C6 as stated fails.  With relevant pairs (0,0), (1,0), (1,1) the
    columns that hold a relevant entry are 0 and 1 (two of them), their
    maxima are 1 and 1/2, and the returned precision is (1 + 1 + 1/2)/3
    = 5/6: column 0 is counted twice and the denominator is 3.  The mean
    over the two distinct columns would be 3/4.  Likewise recall is 2/3,
    not the 3/4 of the two distinct rows. *)
Lemma C6_counterexample_repeated_column :
  let reference := [[[ev 0 60]]; [[ev 0 60]; [ev 1 61]]] in
  let estimated := [[[ev 0 60]]; [[ev 1 61]; [ev 2 62]]] in
  exists st f p r,
    occurrence_loop (thres defaults) (similarity_metric defaults)
      reference estimated = Ok st
    /\ rel_idx st = [(0, 0); (1, 0); (1, 1)]%nat
    /\ distinct_columns (rel_idx st) = [0; 1]%nat
    /\ distinct_rows (rel_idx st) = [0; 1]%nat
    /\ outcome (occurrence_FPR (thres defaults) (similarity_metric defaults)
                  reference estimated) = Ok (Triple f p r)
    /\ p == 5 # 6 /\ r == 2 # 3
    /\ precision_over_distinct_columns st == 3 # 4
    /\ recall_over_distinct_rows st == 3 # 4
    /\ ~ p == precision_over_distinct_columns st
    /\ ~ r == recall_over_distinct_rows st.
Proof.
  intros reference estimated.
  eexists _, _, _, _.
  split; [vm_compute; reflexivity|].
  split; [reflexivity|]. split; [reflexivity|]. split; [reflexivity|].
  split; [vm_compute; reflexivity|].
  split; [reflexivity|]. split; [reflexivity|].
  split; [vm_compute; reflexivity|]. split; [vm_compute; reflexivity|].
  split; vm_compute; discriminate.
Qed.

(** ** occurrence_FPR of a collection against itself *)

Lemma occurrences_clean_In (ps : patterns) (pat : pattern) (occ : occurrence) :
  occurrences_clean ps = true -> In pat ps -> In occ pat ->
  occ <> [] /\ distinct_events occ = true.
Proof.
  unfold occurrences_clean. rewrite forallb_forall. intros H Hp Ho.
  specialize (H pat Hp). rewrite forallb_forall in H. specialize (H occ Ho).
  apply andb_prop in H as [H1 H2]. split; [|exact H2].
  intros ->. discriminate.
Qed.

Lemma cardinality_score_self (occ : occurrence) :
  occ <> [] -> distinct_events occ = true -> cardinality_score occ occ == 1.
Proof.
  intros Hne Hd. unfold cardinality_score.
  rewrite (intersection_self occ Hd), Nat.max_id.
  pose proof (float_of_nat_pos (length occ) (length_pos occ Hne)).
  field. lra.
Qed.

Lemma cardinality_score_in_unit (occ_P occ_Q : occurrence) :
  occ_P <> [] \/ occ_Q <> [] ->
  in_unit_interval (cardinality_score occ_P occ_Q).
Proof.
  intros H. apply (score_cell_in_unit "cardinality_score" occ_P occ_Q).
  apply score_cell_ok, H.
Qed.

Lemma list_max_one (l : list Q) (y : Q) :
  Forall in_unit_interval l -> In y l -> y == 1 -> list_max l == 1.
Proof.
  intros Hl Hy Hy1. apply (reduce_max_one l (list_max l) y Hl Hy Hy1).
  apply reduce_max_ok. intros ->. contradiction.
Qed.

Lemma np_max_matrix_of {A B} (g : A -> B -> Q) (xs : list A) (ys : list B) :
  xs <> [] -> ys <> [] ->
  np_max (matrix_of g xs ys)
  = Ok (list_max (concat (map (fun a => map (g a) ys) xs))).
Proof.
  intros Hx Hy. unfold np_max, matrix_of; simpl. apply reduce_max_ok.
  destruct xs as [|a xs']; [congruence|].
  destruct ys as [|b ys']; [congruence|]. discriminate.
Qed.

Section CellOfPatterns.
Variable thres : Q.
Variables rp ep : pattern.
Hypothesis Hrp : rp <> [].
Hypothesis Hep : ep <> [].
Hypothesis Hocc : forall a b, In a rp -> In b ep -> a <> [] /\ b <> [].

Lemma cell_pairs : forall a b, In a rp -> In b ep -> a <> [] \/ b <> [].
Proof. intros a b Ha Hb. left. apply (Hocc a b Ha Hb). Qed.

(** On patterns without empty occurrences one iteration of the loops of
    [occurrence_FPR] raises nothing. *)
Lemma occurrence_cell_total :
  exists c, occurrence_cell thres "cardinality_score" rp ep = Ok c.
Proof.
  unfold occurrence_cell.
  rewrite (score_matrix_ok rp ep cell_pairs). cbn [bind].
  rewrite (np_max_matrix_of cardinality_score rp ep Hrp Hep). cbn [bind].
  destruct (Qle_bool thres _); [|eauto].
  rewrite (axis0_matrix_of cardinality_score rp ep [] Hrp). cbn [bind].
  rewrite np_mean_ok.
  2:{ pose proof (length_pos ep Hep). destruct (length ep); [lia | discriminate]. }
  cbn [bind].
  rewrite (axis1_matrix_of cardinality_score rp ep Hep). cbn [bind].
  rewrite np_mean_ok by (destruct rp; [congruence | discriminate]).
  cbn [bind]. eauto.
Qed.
End CellOfPatterns.

(** A pattern against itself, threshold 1: the pair is relevant and both
    stored values are 1. *)
Lemma occurrence_cell_self (rp : pattern) :
  rp <> [] ->
  (forall a, In a rp -> a <> [] /\ distinct_events a = true) ->
  exists p q,
    occurrence_cell 1 "cardinality_score" rp rp = Ok (Some (p, q))
    /\ p == 1 /\ q == 1.
Proof.
  intros Hrp Hclean.
  assert (Hpairs : forall a b, In a rp -> In b rp -> a <> [] \/ b <> []).
  { intros a b Ha _. left. apply (Hclean a Ha). }
  assert (Hunit : forall a b, In a rp -> In b rp ->
                              in_unit_interval (cardinality_score a b)).
  { intros a b Ha Hb. apply cardinality_score_in_unit, Hpairs; assumption. }
  assert (Hself : forall a, In a rp -> cardinality_score a a == 1).
  { intros a Ha. apply cardinality_score_self; apply (Hclean a Ha). }
  unfold occurrence_cell.
  rewrite (score_matrix_ok rp rp Hpairs). cbn [bind].
  rewrite (np_max_matrix_of cardinality_score rp rp Hrp Hrp). cbn [bind].
  assert (Hrel : Qle_bool 1
                   (list_max (concat (map (fun a => map (cardinality_score a) rp) rp)))
                 = true).
  { apply Qle_bool_true.
    destruct rp as [|a rp'] eqn:Erp; [congruence|]. rewrite <- Erp in *.
    assert (Ha : In a rp) by (rewrite Erp; left; reflexivity).
    rewrite <- (Hself a Ha). apply list_max_ub, in_concat.
    exists (map (cardinality_score a) rp). split.
    - apply (in_map (fun a0 => map (cardinality_score a0) rp)), Ha.
    - apply in_map, Ha. }
  rewrite Hrel.
  rewrite (axis0_matrix_of cardinality_score rp rp [] Hrp). cbn [bind].
  rewrite np_mean_ok.
  2:{ pose proof (length_pos rp Hrp). destruct (length rp); [lia | discriminate]. }
  cbn [bind].
  rewrite (axis1_matrix_of cardinality_score rp rp Hrp). cbn [bind].
  rewrite np_mean_ok by (destruct rp; [congruence | discriminate]).
  cbn [bind]. eexists _, _. split; [reflexivity|]. split.
  - apply (np_mean_ones
             (map (fun j => list_max (map (fun a => cardinality_score a (nth j rp []))
                                        rp)) (seq 0 (length rp)))).
    + apply Forall_map, Forall_forall. intros j Hj. apply in_seq in Hj.
      assert (Hnth : In (nth j rp []) rp) by (apply nth_In; lia).
      apply (list_max_one _ (cardinality_score (nth j rp []) (nth j rp []))).
      * apply Forall_map, Forall_forall. intros a Ha. apply Hunit; assumption.
      * apply (in_map (fun a => cardinality_score a (nth j rp []))), Hnth.
      * apply Hself, Hnth.
    + apply np_mean_ok.
      pose proof (length_pos rp Hrp). destruct (length rp); [lia | discriminate].
  - apply (np_mean_ones
             (map (fun a => list_max (map (cardinality_score a) rp)) rp)).
    + apply Forall_map, Forall_forall. intros a Ha.
      apply (list_max_one _ (cardinality_score a a)).
      * apply Forall_map, Forall_forall. intros b Hb. apply Hunit; assumption.
      * apply in_map, Ha.
      * apply Hself, Ha.
    + apply np_mean_ok. destruct rp; [congruence | discriminate].
Qed.

Lemma mapM_ok_nth_error {A B} (f : A -> result B) (l : list A) (bs : list B)
  (i : nat) (a : A) :
  mapM f l = Ok bs -> nth_error l i = Some a ->
  exists b, nth_error bs i = Some b /\ f a = Ok b.
Proof.
  intros H. apply mapM_ok_Forall2 in H. revert i.
  induction H as [|x b l bs Hx _ IH]; intros [|i]; simpl; try discriminate.
  - intros [= ->]. eauto.
  - apply IH.
Qed.

Lemma entry_in_unit (a : ndarray) (i j : nat) :
  unit_cells a -> in_unit_interval (entry a i j).
Proof.
  unfold unit_cells, entry. intros H.
  assert (Hrow : Forall in_unit_interval (nth i (cells a) [])).
  { destruct (nth_in_or_default i (cells a) []) as [Hin| ->]; [|constructor].
    rewrite Forall_forall in H. apply H, Hin. }
  destruct (nth_in_or_default j (nth i (cells a) []) 0) as [Hin| ->];
    [|apply in_unit_zero].
  rewrite Forall_forall in Hrow. apply Hrow, Hin.
Qed.

Lemma quotient_of_ones (l : list Q) :
  l <> [] -> Forall (fun x => x == 1) l ->
  np_sum l / float_of_nat (length l) == 1.
Proof.
  intros Hne Hl. apply (np_mean_ones l); [exact Hl | apply np_mean_ok, Hne].
Qed.

Section SelfComparison.
Variable C : patterns.
Hypothesis Hwf : well_formed C = true.
Hypothesis Hev : no_events C C = false.
Hypothesis Hclean : occurrences_clean C = true.

Lemma self_cells :
  exists css,
    mapM (fun rp => mapM (occurrence_cell 1 "cardinality_score" rp) C) C = Ok css.
Proof.
  apply mapM_total. intros rp Hrp.
  apply mapM_total. intros ep Hep.
  apply occurrence_cell_total.
  - apply (well_formed_no_empty C rp Hwf Hrp).
  - apply (well_formed_no_empty C ep Hwf Hep).
  - intros a b Ha Hb. split.
    + apply (occurrences_clean_In C rp a Hclean Hrp Ha).
    + apply (occurrences_clean_In C ep b Hclean Hep Hb).
Qed.

Lemma self_diagonal (css : list (list (option (Q * Q)))) (i : nat) :
  mapM (fun rp => mapM (occurrence_cell 1 "cardinality_score" rp) C) C = Ok css ->
  (i < length C)%nat ->
  exists row p q,
    nth_error css i = Some row /\ nth_error row i = Some (Some (p, q))
    /\ p == 1 /\ q == 1.
Proof.
  intros Hcss Hi.
  destruct (nth_error C i) as [rp|] eqn:Erp;
    [|apply nth_error_None in Erp; lia].
  destruct (mapM_ok_nth_error _ C css i rp Hcss Erp) as (row & Hrow & Hr).
  destruct (mapM_ok_nth_error _ C row i rp Hr Erp) as (c & Hc & Hcell).
  pose proof (nth_error_In _ _ Erp) as Hin.
  destruct (occurrence_cell_self rp) as (p & q & Hself & Hp & Hq).
  - apply (well_formed_no_empty C rp Hwf Hin).
  - intros a Ha. apply (occurrences_clean_In C rp a Hclean Hin Ha).
  - rewrite Hself in Hcell. injection Hcell as <-.
    exists row, p, q. auto.
Qed.

Lemma self_comparison_body :
  exists p r,
    occurrence_FPR_body 1 "cardinality_score" C C
    = Ok (Triple (f_measure p r) p r)
    /\ p == 1 /\ r == 1.
Proof.
  destruct self_cells as [css Hcss].
  pose proof (occurrence_loop_cells 1 "cardinality_score" C C) as Hloop.
  rewrite Hcss in Hloop. cbn [bind] in Hloop.
  set (st := mk_occ_state
               (mk_ndarray (length C) (length C)
                  (map (map (plane_value fst)) css))
               (mk_ndarray (length C) (length C)
                  (map (map (plane_value snd)) css))
               (relevant_from 0 css)) in *.
  destruct (no_events_false C C Hev) as [HCne _].
  pose proof (length_pos C HCne) as Hn.
  destruct (occurrence_loop_unit _ _ _ _ st Hloop) as [HUP HUR].
  assert (Hdiag : forall i, (i < length C)%nat ->
             In (i, i) (rel_idx st)
             /\ entry (O_P st) i i == 1 /\ entry (O_R st) i i == 1).
  { intros i Hi.
    destruct (self_diagonal css i Hcss Hi) as (row & p & q & Hrow & Hpq & Hp & Hq).
    split; [apply (relevant_from_intro 0 css i i row (p, q) Hrow Hpq)|].
    unfold st; cbn [O_P O_R]. rewrite !entry_plane.
    rewrite (nth_error_nth_Some css i [] row Hrow).
    rewrite (nth_error_nth_Some row i None (Some (p, q)) Hpq).
    simpl. auto. }
  assert (Hne : rel_idx st <> []).
  { destruct (Hdiag 0%nat Hn) as [Hin _]. intros E. rewrite E in Hin.
    contradiction. }
  assert (Hrange : forall i j, In (i, j) (rel_idx st) ->
                               (i < length C)%nat /\ (j < length C)%nat).
  { intros i j. apply (relevant_in_range 1 "cardinality_score" C C css Hcss). }
  exists (relevant_precision st), (relevant_recall st).
  split; [apply (occurrence_body_relevant _ _ _ _ st Hev Hloop Hne)|]. split.
  - unfold relevant_precision.
    set (cm := map (fun b => list_max (map (fun a => entry (O_P st) (fst a) (snd b))
                                         (rel_idx st))) (rel_idx st)).
    replace (length (rel_idx st)) with (length cm)
      by (unfold cm; apply length_map).
    apply quotient_of_ones; unfold cm.
    + destruct (rel_idx st); [congruence | discriminate].
    + apply Forall_map, Forall_forall. intros [i j] Hb. cbn [snd].
      destruct (Hrange i j Hb) as [_ Hj].
      destruct (Hdiag j Hj) as (Hin & H1 & _).
      apply (list_max_one _ (entry (O_P st) j j)).
      * apply Forall_map, Forall_forall. intros a _. apply entry_in_unit, HUP.
      * apply (in_map (fun a => entry (O_P st) (fst a) j) _ (j, j) Hin).
      * exact H1.
  - unfold relevant_recall.
    set (rm := map (fun a => list_max (map (fun b => entry (O_R st) (fst a) (snd b))
                                         (rel_idx st))) (rel_idx st)).
    replace (length (rel_idx st)) with (length rm)
      by (unfold rm; apply length_map).
    apply quotient_of_ones; unfold rm.
    + destruct (rel_idx st); [congruence | discriminate].
    + apply Forall_map, Forall_forall. intros [i j] Ha. cbn [fst].
      destruct (Hrange i j Ha) as [Hi _].
      destruct (Hdiag i Hi) as (Hin & _ & H1).
      apply (list_max_one _ (entry (O_R st) i i)).
      * apply Forall_map, Forall_forall. intros b _. apply entry_in_unit, HUR.
      * apply (in_map (fun b => entry (O_R st) i (snd b)) _ (i, i) Hin).
      * exact H1.
Qed.
End SelfComparison.

(** C7, as the code has it.  For a well-formed collection C with at least
    one event all of whose occurrences are non-empty and hold no event
    twice, [occurrence_FPR] with threshold 1.0 called on (C, C) returns
    precision 1 and recall 1 (and F-measure 1). *)
Theorem C7_occurrence_identical_collections (C : patterns) :
  well_formed C = true -> no_events C C = false ->
  occurrences_clean C = true ->
  returns_triple (occurrence_FPR 1 "cardinality_score" C C) 1 1 1.
Proof.
  intros Hwf Hev Hclean.
  destruct (self_comparison_body C Hwf Hev Hclean) as (p & r & Hbody & Hp & Hr).
  unfold returns_triple, occurrence_FPR.
  rewrite validate_with_events by assumption.
  unfold py_lift, outcome; simpl. rewrite Hbody.
  exists (f_measure p r), p, r. split; [reflexivity|].
  split; [apply f_measure_ones; assumption | auto].
Qed.

Lemma C7_occurrence_identical_witness :
  let C := [[[ev 0 60; ev 1 62]; [ev 4 60; ev 5 62]]; [[ev 2 64]]] in
  well_formed C = true /\ no_events C C = false
  /\ occurrences_clean C = true
  /\ returns_triple (occurrence_FPR 1 "cardinality_score" C C) 1 1 1.
Proof.
  intros C.
  split; [reflexivity|]. split; [reflexivity|]. split; [reflexivity|].
  apply (C7_occurrence_identical_collections C eq_refl eq_refl eq_refl).
Defined.

(** C7 as stated fails: a collection with events whose only occurrence
    holds the same event twice scores 1/2 against itself (one shared
    event over a length of two), no pair reaches the threshold 1.0, and
    [occurrence_FPR] returns (0, 0, 0). *)
Lemma C7_counterexample_repeated_event :
  let C := [[[ev 0 60; ev 0 60]]] in
  _n_onset_midi C = 2%nat
  /\ occurrence_FPR 1 "cardinality_score" C C = ([], Ok (Triple 0 0 0))
  /\ ~ returns_triple (occurrence_FPR 1 "cardinality_score" C C) 1 1 1.
Proof.
  intros C. split; [reflexivity|].
  assert (H : occurrence_FPR 1 "cardinality_score" C C = ([], Ok (Triple 0 0 0)))
    by (vm_compute; reflexivity).
  split; [exact H|].
  intros (f & p & r & Hv & _ & Hp & _). rewrite H in Hv.
  simpl in Hv. injection Hv as <- <- <-. discriminate Hp.
Qed.

(** * Further properties of the module *)

(** ** _n_onset_midi *)

Lemma flat_map_nil {A B} (f : A -> list B) (l : list A) :
  flat_map f l = [] <-> forall a, In a l -> f a = [].
Proof.
  induction l as [|a l IH]; simpl.
  - split; [intros _ a [] | reflexivity].
  - split.
    + intros H. apply app_eq_nil in H as [Ha Hl].
      intros a' [<-|Hin]; [exact Ha | apply IH; assumption].
    + intros H. rewrite (H a (or_introl eq_refl)). simpl.
      apply IH. intros a' Hin. apply H. right; exact Hin.
Qed.

(** X1.  A collection counts zero events exactly when every occurrence of
    every pattern is empty; patterns without occurrences and the empty
    collection are instances. *)
Theorem n_onset_midi_zero_iff (ps : patterns) :
  _n_onset_midi ps = 0%nat
  <-> forall pat occ, In pat ps -> In occ pat -> occ = [].
Proof.
  unfold _n_onset_midi. rewrite length_zero_iff_nil, flat_map_nil.
  split.
  - intros H pat occ Hp Ho. specialize (H pat Hp).
    rewrite flat_map_nil in H. apply (H occ Ho).
  - intros H pat Hp. apply flat_map_nil. intros occ Ho. apply (H pat occ Hp Ho).
Qed.

(** ** validate *)

(** X2.  A validated call that returns was given two well-formed
    collections, and it did what the wrapped metric does: the same value,
    after the warnings of [validate]. *)
Theorem validate_returns_only_on_well_formed {A : Type}
  (body : patterns -> patterns -> Py A) (ref est : patterns) (v : A) :
  outcome (validate body ref est) = Ok v ->
  well_formed ref = true /\ well_formed est = true
  /\ outcome (body ref est) = Ok v
  /\ validate body ref est
     = (validate_warnings ref est ++ warned (body ref est), Ok v).
Proof.
  intros H. destruct (validate_ok body ref est v H) as (Hr & He & Hb).
  repeat split; try assumption.
  rewrite (validate_well_formed body ref est Hr He), Hb. reflexivity.
Qed.

Lemma validate_returns_witness :
  outcome (validate (fun r e => py_lift (three_layer_FPR_body r e))
             [[[ev 0 60]]] []) = Ok (Triple 0 0 0)
  /\ well_formed [[[ev 0 60]]] = true /\ well_formed [] = true
  /\ validate (fun r e => py_lift (three_layer_FPR_body r e)) [[[ev 0 60]]] []
     = (["Estimated patterns are empty."%string], Ok (Triple 0 0 0)).
Proof.
  split; [reflexivity|].
  destruct (validate_returns_only_on_well_formed
              (fun r e => py_lift (three_layer_FPR_body r e))
              [[[ev 0 60]]] [] (Triple 0 0 0) eq_refl) as (Hr & He & _ & Hv).
  split; [exact Hr|]. split; [exact He|]. exact Hv.
Defined.

Lemma check_pattern_bad_event (pat : pattern) :
  pat <> [] -> pattern_ok pat = false ->
  check_pattern pat tt = Raise (ValueError msg_not_pair).
Proof.
  intros Hne. unfold pattern_ok, check_pattern.
  destruct pat as [|occ pat']; [congruence|]. simpl (length _ <=? 0)%nat.
  cbv iota. simpl negb. rewrite andb_true_l.
  apply check_occurrences_bad.
Qed.

Lemma check_pattern_no_occurrence (pat : pattern) :
  (forall occ o_m, In occ pat -> In o_m occ -> length o_m = 2%nat) ->
  pattern_ok pat = false ->
  check_pattern pat tt = Raise (ValueError msg_no_occurrence).
Proof.
  intros Hpairs. unfold pattern_ok, check_pattern.
  destruct (length pat <=? 0)%nat; [reflexivity|]. simpl.
  intros H. exfalso.
  assert (Ht : forallb (forallb (fun o_m : onset_midi => (length o_m =? 2)%nat)) pat
               = true).
  { apply forallb_forall. intros occ Ho. apply forallb_forall. intros o_m Hm.
    apply Nat.eqb_eq. apply (Hpairs occ o_m Ho Hm). }
  congruence.
Qed.

Lemma check_patterns_message (msg : string) (ps : patterns) :
  (forall pat, In pat ps -> pattern_ok pat = false ->
               check_pattern pat tt = Raise (ValueError msg)) ->
  well_formed ps = false ->
  check_patterns ps tt = Raise (ValueError msg).
Proof.
  unfold well_formed, check_patterns.
  induction ps as [|pat ps IH]; simpl; [discriminate|]. intros Hmsg.
  destruct (pattern_ok pat) eqn:E; simpl.
  - rewrite (check_pattern_ok pat E); simpl. apply IH.
    intros p Hp. apply Hmsg. right; exact Hp.
  - intros _. rewrite (Hmsg pat (or_introl eq_refl) E). reflexivity.
Qed.

Lemma validate_message {A} (body : patterns -> patterns -> Py A)
  (msg : string) (ref est : patterns) :
  (forall pat, In pat ref \/ In pat est -> pattern_ok pat = false ->
               check_pattern pat tt = Raise (ValueError msg)) ->
  malformed ref \/ malformed est ->
  validate body ref est = (validate_warnings ref est, Raise (ValueError msg)).
Proof.
  intros Hmsg Hbad. unfold validate, validate_warnings. simpl.
  assert (Hc : (u <- check_patterns ref tt ;; u' <- check_patterns est u ;; Ok u')
               = Raise (ValueError msg)).
  { destruct (well_formed ref) eqn:Er.
    - rewrite (check_patterns_ok ref Er); simpl.
      destruct Hbad as [H|H]; apply malformed_not_well_formed in H;
        [congruence|].
      rewrite (check_patterns_message msg est); [reflexivity | | exact H].
      intros pat Hp. apply Hmsg. right; exact Hp.
    - rewrite (check_patterns_message msg ref); [reflexivity | | exact Er].
      intros pat Hp. apply Hmsg. left; exact Hp. }
  rewrite Hc.
  destruct (_n_onset_midi ref =? 0)%nat, (_n_onset_midi est =? 0)%nat;
    reflexivity.
Qed.

(** X3.  When every pattern of both collections has an occurrence and
    some event is not a pair, [validate] raises the [ValueError] about the
    (onset, midi) tuple, whatever metric it wraps. *)
Theorem validate_reports_bad_tuple {A : Type}
  (body : patterns -> patterns -> Py A) (ref est : patterns) :
  ~ has_empty_pattern ref -> ~ has_empty_pattern est ->
  has_bad_event ref \/ has_bad_event est ->
  validate body ref est
  = (validate_warnings ref est, Raise (ValueError msg_not_pair)).
Proof.
  intros Hr He Hbad. apply validate_message.
  - intros pat Hin Hok. apply check_pattern_bad_event; [|exact Hok].
    intros ->. destruct Hin as [H|H]; [apply Hr | apply He]; exact H.
  - destruct Hbad as [H|H]; [left | right]; right; exact H.
Qed.

Lemma validate_reports_bad_tuple_witness :
  ~ has_empty_pattern [[[ev 0 60]]]
  /\ ~ has_empty_pattern [[[ev 1 61]]; [[ [1; 2; 3] ]]]
  /\ (has_bad_event [[[ev 0 60]]]
      \/ has_bad_event [[[ev 1 61]]; [[ [1; 2; 3] ]]])
  /\ establishment_FPR "cardinality_score"
       [[[ev 0 60]]] [[[ev 1 61]]; [[ [1; 2; 3] ]]]
     = ([], Raise (ValueError msg_not_pair)).
Proof.
  assert (H1 : ~ has_empty_pattern [[[ev 0 60]]]).
  { intros [H|[]]; discriminate. }
  assert (H2 : ~ has_empty_pattern [[[ev 1 61]]; [[ [1; 2; 3] ]]]).
  { intros [H|[H|[]]]; discriminate. }
  assert (H3 : has_bad_event [[[ev 0 60]]]
               \/ has_bad_event [[[ev 1 61]]; [[ [1; 2; 3] ]]]).
  { right. exists [[ [1; 2; 3] ]], [ [1; 2; 3] ], [1; 2; 3].
    simpl. repeat split; auto. }
  split; [exact H1|]. split; [exact H2|]. split; [exact H3|].
  apply (validate_reports_bad_tuple
           (fun r e => py_lift (establishment_FPR_body "cardinality_score" r e))
           [[[ev 0 60]]] [[[ev 1 61]]; [[ [1; 2; 3] ]]] H1 H2 H3).
Defined.

(** X4.  When every event of both collections is a pair and some pattern
    has no occurrence, [validate] raises the [ValueError] about the missing
    occurrence, whatever metric it wraps. *)
Theorem validate_reports_empty_pattern {A : Type}
  (body : patterns -> patterns -> Py A) (ref est : patterns) :
  ~ has_bad_event ref -> ~ has_bad_event est ->
  has_empty_pattern ref \/ has_empty_pattern est ->
  validate body ref est
  = (validate_warnings ref est, Raise (ValueError msg_no_occurrence)).
Proof.
  intros Hr He Hbad. apply validate_message.
  - intros pat Hin Hok. apply check_pattern_no_occurrence; [|exact Hok].
    intros occ o_m Ho Hm.
    destruct (Nat.eq_dec (length o_m) 2) as [E|E]; [exact E|]. exfalso.
    destruct Hin as [H|H]; [apply Hr | apply He];
      exists pat, occ, o_m; auto.
  - destruct Hbad as [H|H]; [left | right]; left; exact H.
Qed.

Lemma validate_reports_empty_pattern_witness :
  ~ has_bad_event [[[ev 0 60]]; []]
  /\ ~ has_bad_event [[[ev 1 61]]]
  /\ (has_empty_pattern [[[ev 0 60]]; []] \/ has_empty_pattern [[[ev 1 61]]])
  /\ three_layer_FPR [[[ev 0 60]]; []] [[[ev 1 61]]]
     = ([], Raise (ValueError msg_no_occurrence)).
Proof.
  assert (H1 : ~ has_bad_event [[[ev 0 60]]; []]).
  { intros (pat & occ & o_m & Hp & Ho & Hm & Hl). simpl in Hp.
    destruct Hp as [<-|[<-|[]]]; simpl in Ho; [|contradiction].
    destruct Ho as [<-|[]]. simpl in Hm. destruct Hm as [<-|[]].
    apply Hl. reflexivity. }
  assert (H2 : ~ has_bad_event [[[ev 1 61]]]).
  { intros (pat & occ & o_m & Hp & Ho & Hm & Hl). simpl in Hp.
    destruct Hp as [<-|[]]. simpl in Ho.
    destruct Ho as [<-|[]]. simpl in Hm. destruct Hm as [<-|[]].
    apply Hl. reflexivity. }
  assert (H3 : has_empty_pattern [[[ev 0 60]]; []]
               \/ has_empty_pattern [[[ev 1 61]]]).
  { left. right. left. reflexivity. }
  split; [exact H1|]. split; [exact H2|]. split; [exact H3|].
  apply (validate_reports_empty_pattern
           (fun r e => py_lift (three_layer_FPR_body r e))
           [[[ev 0 60]]; []] [[[ev 1 61]]] H1 H2 H3).
Defined.

(** ** _occurrence_intersection *)

Lemma set_mem_filter (f : onset_midi -> bool) (x : onset_midi)
  (s : list onset_midi) :
  set_mem x (filter f s) = true -> set_mem x s = true.
Proof.
  unfold set_mem. intros [y [Hy Hxy]]%existsb_exists.
  apply filter_In in Hy as [Hy _].
  apply existsb_exists. eauto.
Qed.

Lemma filter_distinct (f : onset_midi -> bool) (s : list onset_midi) :
  distinct_events s = true -> distinct_events (filter f s) = true.
Proof.
  induction s as [|x s IH]; simpl; [reflexivity|].
  intros [H1 H2]%andb_prop. apply negb_true_iff in H1.
  destruct (f x); simpl; [|apply IH, H2].
  rewrite (IH H2), andb_true_r. apply negb_true_iff.
  destruct (set_mem x (filter f s)) eqn:E; [|reflexivity].
  apply set_mem_filter in E. congruence.
Qed.

Lemma set_and_sub (s t : list onset_midi) (x : onset_midi) :
  In x (set_and s t) -> set_mem x (set_and t s) = true.
Proof.
  unfold set_and. intros [Hx Hm]%filter_In.
  unfold set_mem in Hm. apply existsb_exists in Hm as (y & Hy & Hxy).
  unfold set_mem. apply existsb_exists. exists y. split; [|exact Hxy].
  apply filter_In. split; [exact Hy|].
  unfold set_mem. apply existsb_exists. exists x.
  split; [exact Hx | apply tuple_eqb_sym, Hxy].
Qed.

Lemma set_and_length_le (s t : list onset_midi) :
  distinct_events s = true ->
  (length (set_and s t) <= length (set_and t s))%nat.
Proof.
  intros Hs.
  assert (Hd : distinct_events (set_and s t) = true)
    by (apply filter_distinct, Hs).
  pose proof (set_and_length_r (set_and s t) (set_and t s) Hd) as H.
  unfold set_and at 1 in H.
  rewrite forallb_filter_id in H; [exact H|].
  apply forallb_forall. intros x Hx. apply set_and_sub, Hx.
Qed.

Lemma intersection_size_sym (occ_P occ_Q : occurrence) :
  length (_occurrence_intersection occ_P occ_Q)
  = length (_occurrence_intersection occ_Q occ_P).
Proof.
  unfold _occurrence_intersection. apply Nat.le_antisymm;
    apply set_and_length_le, py_set_distinct.
Qed.

(** X5.  Two occurrences share at most as many events as either of them
    holds, and as many in one order as in the other. *)
Theorem occurrence_intersection_size (occ_P occ_Q : occurrence) :
  (length (_occurrence_intersection occ_P occ_Q) <= length occ_P)%nat
  /\ (length (_occurrence_intersection occ_P occ_Q) <= length occ_Q)%nat
  /\ length (_occurrence_intersection occ_P occ_Q)
     = length (_occurrence_intersection occ_Q occ_P).
Proof.
  split; [apply intersection_le_l|]. split; [apply intersection_le_r|].
  apply intersection_size_sym.
Qed.

(** ** _compute_score_matrix *)

Lemma cardinality_score_sym (occ_P occ_Q : occurrence) :
  cardinality_score occ_P occ_Q = cardinality_score occ_Q occ_P.
Proof.
  unfold cardinality_score.
  rewrite (intersection_size_sym occ_P occ_Q), Nat.max_comm. reflexivity.
Qed.

(** X6.  When no pair of occurrences is empty on both sides, the loops of
    [_compute_score_matrix] return an array of shape (len(P), len(Q)) whose
    entry (i, j) is the number of shared events of P[i] and Q[j] over the
    larger of their lengths, a number of [0, 1]; the matrix of (Q, P) is
    its transpose. *)
Theorem score_matrix_entries (P Q_ : pattern) :
  (forall a b, In a P -> In b Q_ -> a <> [] \/ b <> []) ->
  exists s s',
    _compute_score_matrix P Q_ "cardinality_score" = Ok s
    /\ _compute_score_matrix Q_ P "cardinality_score" = Ok s'
    /\ nrows s = length P /\ ncols s = length Q_
    /\ forall i j, (i < length P)%nat -> (j < length Q_)%nat ->
         getitem s i j
         = Ok (float_of_nat
                 (length (_occurrence_intersection (nth i P []) (nth j Q_ [])))
               / float_of_nat (Nat.max (length (nth i P []))
                                 (length (nth j Q_ []))))
         /\ getitem s' j i = getitem s i j
         /\ in_unit_interval (entry s i j).
Proof.
  intros H.
  assert (H' : forall b a, In b Q_ -> In a P -> b <> [] \/ a <> []).
  { intros b a Hb Ha. destruct (H a b Ha Hb); auto. }
  exists (matrix_of cardinality_score P Q_), (matrix_of cardinality_score Q_ P).
  split; [apply score_matrix_ok, H|]. split; [apply score_matrix_ok, H'|].
  split; [reflexivity|]. split; [reflexivity|].
  intros i j Hi Hj.
  rewrite (getitem_matrix_of cardinality_score P Q_ [] [] i j Hi Hj).
  rewrite (getitem_matrix_of cardinality_score Q_ P [] [] j i Hj Hi).
  split; [reflexivity|]. split; [rewrite cardinality_score_sym; reflexivity|].
  rewrite (entry_matrix_of cardinality_score P Q_ [] [] i j Hi Hj).
  apply cardinality_score_in_unit, H; apply nth_In; assumption.
Qed.

Lemma score_matrix_entries_witness :
  let P := [[ev 0 60; ev 1 62]; [ev 4 60]] in
  let Q_ := [[ev 0 60]; []; [ev 4 60; ev 1 62; ev 9 9]] in
  (forall a b, In a P -> In b Q_ -> a <> [] \/ b <> [])
  /\ exists s,
       _compute_score_matrix P Q_ "cardinality_score" = Ok s
       /\ nrows s = 2%nat /\ ncols s = 3%nat.
Proof.
  intros P Q_.
  assert (H : forall a b, In a P -> In b Q_ -> a <> [] \/ b <> []).
  { intros a b Ha _. left. simpl in Ha.
    destruct Ha as [<-|[<-|[]]]; discriminate. }
  split; [exact H|].
  destruct (score_matrix_entries P Q_ H) as (s & s' & Hs & _ & Hn & Hm & _).
  exists s. auto.
Defined.

Lemma similarity_neq (sim : string) :
  sim <> "cardinality_score"%string ->
  String.eqb sim "cardinality_score" = false.
Proof. intros H. apply String.eqb_neq, H. Qed.

Lemma mapM_head_raise {A B} (f : A -> result B) (a : A) (l : list A) (e : exn) :
  f a = Raise e -> mapM f (a :: l) = Raise e.
Proof. intros H. simpl. rewrite H. reflexivity. Qed.

Lemma score_matrix_unknown_metric (sim : string) (P Q_ : pattern) :
  sim <> "cardinality_score"%string -> P <> [] -> Q_ <> [] ->
  _compute_score_matrix P Q_ sim = Raise (ValueError msg_similarity).
Proof.
  intros Hs HP HQ. rewrite score_matrix_rows.
  destruct P as [|a P']; [congruence|]. destruct Q_ as [|b Q']; [congruence|].
  rewrite (mapM_head_raise _ a P' (ValueError msg_similarity)); [reflexivity|].
  apply mapM_head_raise. unfold score_cell.
  rewrite (similarity_neq sim Hs). reflexivity.
Qed.

(** X7.  A similarity metric other than "cardinality_score" is refused
    inside the loops only: on well-formed collections with events
    [establishment_FPR] and [occurrence_FPR] raise the [ValueError] of
    [_compute_score_matrix], while a pattern without occurrences on either
    side of [_compute_score_matrix] yields the empty matrix without any
    error. *)
Theorem unknown_similarity_metric (sim : string) (thres : Q)
  (ref est : patterns) :
  sim <> "cardinality_score"%string ->
  well_formed ref = true -> well_formed est = true ->
  no_events ref est = false ->
  establishment_FPR sim ref est = ([], Raise (ValueError msg_similarity))
  /\ occurrence_FPR thres sim ref est = ([], Raise (ValueError msg_similarity))
  /\ (forall P : pattern,
         _compute_score_matrix P [] sim = Ok (np_zeros (length P) 0)
         /\ _compute_score_matrix [] P sim = Ok (np_zeros 0 (length P))).
Proof.
  intros Hs Hr He Hn.
  destruct (no_events_false ref est Hn) as [Hrne Hene].
  destruct ref as [|rp ref'] eqn:Eref; [congruence|]. rewrite <- Eref in *.
  destruct est as [|ep est'] eqn:Eest; [congruence|]. rewrite <- Eest in *.
  assert (Hrp : rp <> []).
  { apply (well_formed_no_empty ref rp Hr). rewrite Eref. left; reflexivity. }
  assert (Hep : ep <> []).
  { apply (well_formed_no_empty est ep He). rewrite Eest. left; reflexivity. }
  pose proof (score_matrix_unknown_metric sim rp ep Hs Hrp Hep) as Hsm.
  split; [|split].
  - unfold establishment_FPR. rewrite validate_with_events by assumption.
    unfold py_lift, establishment_FPR_body.
    rewrite Hn, establishment_matrix_rows, Eref, Eest.
    rewrite (mapM_head_raise _ rp ref' (ValueError msg_similarity));
      [reflexivity|].
    apply mapM_head_raise. unfold establishment_cell. rewrite Hsm. reflexivity.
  - unfold occurrence_FPR. rewrite validate_with_events by assumption.
    unfold py_lift, occurrence_FPR_body.
    rewrite Hn, occurrence_loop_cells, Eref, Eest.
    rewrite (mapM_head_raise _ rp ref' (ValueError msg_similarity));
      [reflexivity|].
    apply mapM_head_raise. unfold occurrence_cell. rewrite Hsm. reflexivity.
  - intros P. split.
    + rewrite score_matrix_rows. simpl.
      rewrite (mapM_ok_map _ (fun _ => [])) by reflexivity.
      simpl. unfold np_zeros. simpl. f_equal. f_equal.
      induction P as [|a P IH]; simpl; [reflexivity | f_equal; exact IH].
    + rewrite score_matrix_rows. reflexivity.
Qed.

Lemma unknown_similarity_metric_witness :
  "normalised_matching_score"%string <> "cardinality_score"%string
  /\ well_formed [[[ev 0 60]]] = true
  /\ no_events [[[ev 0 60]]] [[[ev 0 60]]] = false
  /\ establishment_FPR "normalised_matching_score" [[[ev 0 60]]] [[[ev 0 60]]]
     = ([], Raise (ValueError msg_similarity)).
Proof.
  assert (H : "normalised_matching_score"%string <> "cardinality_score"%string)
    by discriminate.
  split; [exact H|]. split; [reflexivity|]. split; [reflexivity|].
  apply (unknown_similarity_metric "normalised_matching_score" (3 # 4)
           [[[ev 0 60]]] [[[ev 0 60]]] H eq_refl eq_refl eq_refl).
Defined.

(** ** The transposition test of standard_FPR *)

Lemma np_sum_zip_minus (r r' : list Q) :
  length r = length r' ->
  np_sum (zip_with Qminus r r') == np_sum r - np_sum r'.
Proof.
  revert r'; induction r as [|x r IH]; intros [|y r']; simpl;
    try discriminate.
  - intros _. unfold np_sum; simpl. lra.
  - intros [= H]. rewrite !np_sum_cons, (IH r' H). lra.
Qed.

Lemma zip_with_length {A B C} (f : A -> B -> C) (l : list A) (l' : list B) :
  length l = length l' -> length (zip_with f l l') = length l.
Proof.
  revert l'; induction l as [|a l IH]; intros [|b l']; simpl;
    try discriminate; auto.
Qed.

Lemma array_sum_cons (r : list Q) (a : list (list Q)) :
  array_sum (r :: a) == np_sum r + array_sum a.
Proof. unfold array_sum. simpl. apply np_sum_app. Qed.

(** The first differences of an array whose rows have one length add up
    to the last row minus the first. *)
Lemma diff_telescopes (k : nat) (a : list (list Q)) :
  a <> [] -> Forall (fun r => length r = k) a ->
  array_sum (np_diff a) == np_sum (last a []) - np_sum (hd [] a).
Proof.
  intros Hne Hk. induction Hk as [|r0 a Hr0 Hk IH]; [congruence|].
  destruct a as [|r1 rest].
  - unfold np_diff, array_sum; simpl. unfold np_sum at 1; simpl. lra.
  - assert (Hr1 : length r1 = k) by (inversion Hk; assumption).
    change (np_diff (r0 :: r1 :: rest))
      with (zip_with Qminus r1 r0 :: np_diff (r1 :: rest)).
    rewrite array_sum_cons, IH by discriminate.
    rewrite np_sum_zip_minus by congruence.
    change (last (r0 :: r1 :: rest) []) with (last (r1 :: rest) []).
    simpl hd. lra.
Qed.

Lemma array_sub_rows (P Q_ : occurrence) :
  length P = length Q_ -> events_are_pairs P -> events_are_pairs Q_ ->
  Forall (fun r => length r = 2%nat) (array_sub P Q_).
Proof.
  unfold events_are_pairs, array_sub. intros Hlen HP. revert Q_ Hlen.
  induction HP as [|p P Hp _ IH]; intros [|q Q_] Hlen HQ; simpl;
    try discriminate; constructor.
  - inversion HQ; subst. rewrite zip_with_length; congruence.
  - inversion HQ; subst. apply IH; [simpl in Hlen; lia | assumption].
Qed.

Lemma zip_with_hd {A B C} (f : A -> B -> C) (a : A) (b : B)
  (l : list A) (l' : list B) (d : C) :
  hd d (zip_with f (a :: l) (b :: l')) = f a b.
Proof. reflexivity. Qed.

Lemma zip_with_last {A B C} (f : A -> B -> C) (l : list A) (l' : list B)
  (da : A) (db : B) (d : C) :
  length l = length l' -> l <> [] ->
  last (zip_with f l l') d = f (last l da) (last l' db).
Proof.
  revert l'; induction l as [|a l IH]; intros [|b l'] Hlen Hne;
    try discriminate; [congruence|].
  destruct l as [|a' l0]; destruct l' as [|b' l0']; try discriminate;
    [reflexivity|].
  change (last (zip_with f (a :: a' :: l0) (b :: b' :: l0')) d)
    with (last (zip_with f (a' :: l0) (b' :: l0')) d).
  rewrite IH; [reflexivity | simpl in *; lia | discriminate].
Qed.

Lemma transposition_test_end_points (tol : Q) (P Q_ : occurrence) :
  length P = length Q_ -> P <> [] ->
  events_are_pairs P -> events_are_pairs Q_ ->
  transposition_test tol P Q_
  = Qle_bool
      (Qabs ((np_sum (last P []) - np_sum (last Q_ []))
             - (np_sum (hd [] P) - np_sum (hd [] Q_))))
      tol.
Proof.
  intros Hlen Hne HP HQ. unfold transposition_test.
  assert (HD : array_sub P Q_ <> []).
  { destruct P as [|p P']; [congruence|].
    destruct Q_ as [|q Q']; [discriminate|]. discriminate. }
  rewrite (diff_telescopes 2 (array_sub P Q_) HD (array_sub_rows P Q_ Hlen HP HQ)).
  unfold array_sub.
  rewrite (zip_with_last (zip_with Qminus) P Q_ [] [] [] Hlen Hne).
  destruct P as [|p P']; [congruence|].
  destruct Q_ as [|q Q']; [discriminate|].
  rewrite zip_with_hd.
  assert (Hp : length p = 2%nat) by (inversion HP; assumption).
  assert (Hq : length q = 2%nat) by (inversion HQ; assumption).
  assert (Hlp : length (last (p :: P') []) = 2%nat).
  { unfold events_are_pairs in HP. rewrite Forall_forall in HP.
    apply HP. apply (@exists_last _ (p :: P')) in Hne as (l' & a & E).
    rewrite E, last_last. apply in_or_app. right. left. reflexivity. }
  assert (Hlq : length (last (q :: Q') []) = 2%nat).
  { unfold events_are_pairs in HQ. rewrite Forall_forall in HQ.
    apply HQ.
    destruct (@exists_last _ (q :: Q') ltac:(discriminate)) as (l' & a & E).
    rewrite E, last_last. apply in_or_app. right. left. reflexivity. }
  pose proof (np_sum_zip_minus _ _ (eq_trans Hlp (eq_sym Hlq))) as E1.
  pose proof (np_sum_zip_minus p q (eq_trans Hp (eq_sym Hq))) as E2.
  simpl hd. apply Qleb_comp; [|reflexivity].
  apply Qabs_wd. rewrite E1, E2. reflexivity.
Qed.

(** X8.  For two prototypes of one length whose events are pairs, the
    test of [standard_FPR] only looks at their first and last events: it
    compares with [tol] the absolute value of (sum of last P - sum of last
    Q) - (sum of first P - sum of first Q), onset and pitch added
    together. *)
Theorem standard_test_compares_end_points (tol : Q) (P Q_ : occurrence) :
  length P = length Q_ -> P <> [] ->
  events_are_pairs P -> events_are_pairs Q_ ->
  transposition_test tol P Q_
  = Qle_bool
      (Qabs ((np_sum (last P []) - np_sum (last Q_ []))
             - (np_sum (hd [] P) - np_sum (hd [] Q_))))
      tol.
Proof. apply transposition_test_end_points. Qed.

Lemma standard_test_end_points_witness :
  let P := [ev 0 60; ev 1 62; ev 3 64] in
  let Q_ := [ev 0 60; ev 7 11; ev 2 65] in
  length P = length Q_ /\ P <> []
  /\ events_are_pairs P /\ events_are_pairs Q_
  /\ transposition_test (tol defaults) P Q_
     = Qle_bool
         (Qabs ((np_sum (last P []) - np_sum (last Q_ []))
                - (np_sum (hd [] P) - np_sum (hd [] Q_))))
         (tol defaults).
Proof.
  intros P Q_.
  assert (HP : events_are_pairs P) by (repeat constructor).
  assert (HQ : events_are_pairs Q_) by (repeat constructor).
  assert (Hne : P <> []) by discriminate.
  split; [reflexivity|]. split; [exact Hne|]. split; [exact HP|].
  split; [exact HQ|].
  apply (standard_test_compares_end_points (tol defaults) P Q_ eq_refl Hne HP HQ).
Defined.

(** X9.  Two prototypes that hold one event each pass the test of
    [standard_FPR] for every tolerance that is not negative, whatever the
    two events are. *)
Theorem standard_single_events_always_match (tol : Q) (p q : onset_midi) :
  0 <= tol -> prototypes_match tol [p] [q] = true.
Proof.
  intros Htol. unfold prototypes_match, transposition_test. simpl.
  apply Qle_bool_true. exact Htol.
Qed.

Lemma standard_single_events_witness :
  0 <= tol defaults
  /\ prototypes_match (tol defaults) [ev 0 60] [ev 17 3] = true.
Proof.
  assert (H : 0 <= tol defaults) by discriminate.
  split; [exact H|].
  apply (standard_single_events_always_match (tol defaults) (ev 0 60) (ev 17 3) H).
Defined.

Lemma Forall2_last {A B} (R : A -> B -> Prop) (l : list A) (l' : list B)
  (da : A) (db : B) :
  Forall2 R l l' -> l <> [] -> R (last l da) (last l' db).
Proof.
  induction 1 as [|a b l l' Hab H IH]; [congruence|]. intros _.
  destruct H as [|a' b' l0 l0' Hab' H]; [exact Hab|].
  change (R (last (a' :: l0) da) (last (b' :: l0') db)).
  apply IH. discriminate.
Qed.

Lemma translated_pair_sum (dt dp : Q) (p q : onset_midi) :
  length q = 2%nat -> same_tuple p (zip_with Qplus q [dt; dp]) ->
  length p = 2%nat /\ np_sum p - np_sum q == dt + dp.
Proof.
  destruct q as [|t [|m [|x q]]]; try discriminate. intros _ H.
  unfold same_tuple in H. simpl in H.
  inversion H as [|a b l l' Ha H1]; subst.
  inversion H1 as [|a' b' l0 l0' Hb H2]; subst.
  inversion H2; subst. split; [reflexivity|].
  unfold np_sum. simpl. rewrite Ha, Hb. lra.
Qed.

Lemma translation_pairs (dt dp : Q) (P Q_ : occurrence) :
  events_are_pairs Q_ -> translation_of dt dp P Q_ ->
  events_are_pairs P
  /\ Forall2 (fun p q => np_sum p - np_sum q == dt + dp) P Q_.
Proof.
  unfold events_are_pairs, translation_of. intros HQ H.
  induction H as [|p q P Q_ Hpq H IH]; [split; constructor|].
  inversion HQ as [|? ? Hq HQ']; subst.
  destruct (translated_pair_sum dt dp p q Hq Hpq) as [Hp Hs].
  destruct (IH HQ') as [IH1 IH2]. split; constructor; assumption.
Qed.

(** X10.  A prototype that is a constant (onset, pitch) translation of
    another, event by event, passes the test of [standard_FPR] for every
    tolerance that is not negative. *)
Theorem standard_translation_matches (tol dt dp : Q) (P Q_ : occurrence) :
  0 <= tol -> events_are_pairs Q_ -> translation_of dt dp P Q_ ->
  prototypes_match tol P Q_ = true.
Proof.
  intros Htol HQ Htr.
  destruct (translation_pairs dt dp P Q_ HQ Htr) as [HP Hsum].
  pose proof (Forall2_length Htr) as Hlen.
  unfold prototypes_match. rewrite Hlen, Nat.eqb_refl. simpl.
  destruct P as [|p P'] eqn:EP.
  - destruct Q_; [|discriminate]. apply Qle_bool_true. exact Htol.
  - rewrite <- EP in *.
    assert (Hne : P <> []) by (rewrite EP; discriminate).
    rewrite (transposition_test_end_points tol P Q_ Hlen Hne HP HQ).
    apply Qle_bool_true.
    pose proof (Forall2_last _ P Q_ [] [] Hsum Hne) as Hl.
    assert (Hh : np_sum (hd [] P) - np_sum (hd [] Q_) == dt + dp).
    { destruct Hsum as [|p0 q0 P0 Q0 H0 _]; [congruence | exact H0]. }
    simpl in Hl.
    setoid_replace (np_sum (last P []) - np_sum (last Q_ [])
                    - (np_sum (hd [] P) - np_sum (hd [] Q_)))
      with 0 by (rewrite Hl, Hh; lra).
    exact Htol.
Qed.

Lemma standard_translation_witness :
  let P := [ev 2 65; ev 3 67; ev 5 64] in
  let Q_ := [ev 0 60; ev 1 62; ev 3 59] in
  0 <= tol defaults /\ events_are_pairs Q_
  /\ translation_of 2 5 P Q_
  /\ prototypes_match (tol defaults) P Q_ = true.
Proof.
  intros P Q_.
  assert (Ht : 0 <= tol defaults) by discriminate.
  assert (HQ : events_are_pairs Q_) by (repeat constructor).
  assert (Htr : translation_of 2 5 P Q_).
  { unfold translation_of, same_tuple. repeat constructor. }
  split; [exact Ht|]. split; [exact HQ|]. split; [exact Htr|].
  apply (standard_translation_matches (tol defaults) 2 5 P Q_ Ht HQ Htr).
Defined.

(** ** Closed forms of the metrics *)

Lemma max_mean_matrix_of {A B} (g : A -> B -> Q) (xs : list A) (ys : list B)
  (dy : B) :
  xs <> [] -> ys <> [] ->
  (col_max <- np_max_axis0 (matrix_of g xs ys) ;;
   precision <- np_mean col_max ;;
   row_max <- np_max_axis1 (matrix_of g xs ys) ;;
   recall <- np_mean row_max ;;
   Ok (precision, recall))
  = Ok (col_max_mean g xs ys, row_max_mean g xs ys).
Proof.
  intros Hx Hy.
  rewrite (axis0_matrix_of g xs ys dy Hx). cbn [bind].
  rewrite (map_seq_nth (fun b => list_max (map (fun a => g a b) xs)) ys dy).
  rewrite np_mean_ok by (destruct ys; [congruence | discriminate]).
  cbn [bind]. rewrite length_map.
  rewrite (axis1_matrix_of g xs ys Hy). cbn [bind].
  rewrite np_mean_ok by (destruct xs; [congruence | discriminate]).
  cbn [bind]. rewrite length_map. reflexivity.
Qed.

Lemma no_empty_occurrence_In (ps : patterns) (pat : pattern) (occ : occurrence) :
  no_empty_occurrence ps = true -> In pat ps -> In occ pat -> occ <> [].
Proof.
  unfold no_empty_occurrence. rewrite forallb_forall. intros H Hp Ho.
  specialize (H pat Hp). rewrite forallb_forall in H. specialize (H occ Ho).
  intros ->. discriminate.
Qed.

Lemma first_layer_ok (ref_occs est_occs : occurrence) :
  ref_occs <> [] -> est_occs <> [] ->
  compute_first_layer_PR ref_occs est_occs
  = Ok (first_layer_P ref_occs est_occs, first_layer_R ref_occs est_occs).
Proof.
  intros Hr He. unfold compute_first_layer_PR.
  rewrite !py_div_pos by (apply length_pos; assumption). reflexivity.
Qed.

Lemma compute_layer_ok {A} (func : A -> A -> result (Q * Q))
  (P R : A -> A -> Q) (ref est : list A) :
  (forall r e, In r ref -> In e est -> func r e = Ok (P r e, R r e)) ->
  compute_layer func ref est
  = Ok (matrix_of (fun r e => f_measure (P r e) (R r e)) ref est).
Proof.
  intros H. rewrite compute_layer_rows.
  rewrite (rows_ok_map _ (fun r e => f_measure (P r e) (R r e)));
    [reflexivity|].
  intros r e Hr He. unfold layer_cell. rewrite (H r e Hr He). reflexivity.
Qed.

Lemma second_layer_ok (rp ep : pattern) :
  rp <> [] -> ep <> [] ->
  (forall a, In a rp -> a <> []) -> (forall b, In b ep -> b <> []) ->
  compute_second_layer_PR rp ep
  = Ok (col_max_mean first_layer_F rp ep, row_max_mean first_layer_F rp ep).
Proof.
  intros Hr He Ha Hb. unfold compute_second_layer_PR.
  rewrite (compute_layer_ok compute_first_layer_PR first_layer_P first_layer_R).
  - cbn [bind]. apply (max_mean_matrix_of first_layer_F rp ep []); assumption.
  - intros a b Hina Hinb. apply first_layer_ok; auto.
Qed.

(** On well-formed collections with events and without empty occurrences
    [three_layer_FPR] is the double max-then-mean reduction. *)
Lemma three_layer_body_ok (ref est : patterns) :
  well_formed ref = true -> well_formed est = true ->
  no_events ref est = false ->
  no_empty_occurrence ref = true -> no_empty_occurrence est = true ->
  three_layer_FPR_body ref est
  = Ok (Triple (f_measure (col_max_mean second_layer_F ref est)
                  (row_max_mean second_layer_F ref est))
          (col_max_mean second_layer_F ref est)
          (row_max_mean second_layer_F ref est)).
Proof.
  intros Hr He Hn Hcr Hce.
  destruct (no_events_false ref est Hn) as [Hrne Hene].
  unfold three_layer_FPR_body. rewrite Hn.
  rewrite (compute_layer_ok compute_second_layer_PR
             (col_max_mean first_layer_F) (row_max_mean first_layer_F)).
  - cbn [bind].
    pose proof (max_mean_matrix_of second_layer_F ref est [] Hrne Hene) as H.
    unfold second_layer_F in H at 1 2.
    destruct (np_max_axis0 _) as [cm|e]; cbn [bind] in *; [|discriminate].
    destruct (np_mean cm) as [p|e]; cbn [bind] in *; [|discriminate].
    destruct (np_max_axis1 _) as [rm|e]; cbn [bind] in *; [|discriminate].
    destruct (np_mean rm) as [r|e]; cbn [bind] in *; [|discriminate].
    injection H as -> ->. reflexivity.
  - intros rp ep Hrp Hep. apply second_layer_ok.
    + apply (well_formed_no_empty ref rp Hr Hrp).
    + apply (well_formed_no_empty est ep He Hep).
    + intros a. apply (no_empty_occurrence_In ref rp a Hcr Hrp).
    + intros b. apply (no_empty_occurrence_In est ep b Hce Hep).
Qed.

Lemma establishment_body_ok (ref est : patterns) :
  well_formed ref = true -> well_formed est = true ->
  no_events ref est = false -> scores_defined ref est ->
  establishment_FPR_body "cardinality_score" ref est
  = Ok (Triple (f_measure (col_max_mean best_score ref est)
                  (row_max_mean best_score ref est))
          (col_max_mean best_score ref est)
          (row_max_mean best_score ref est)).
Proof.
  intros Hr He Hn Hd.
  destruct (no_events_false ref est Hn) as [Hrne Hene].
  unfold establishment_FPR_body.
  rewrite Hn, (establishment_matrix_ok ref est Hr He Hd). cbn [bind].
  pose proof (max_mean_matrix_of best_score ref est [] Hrne Hene) as H.
  destruct (np_max_axis0 _) as [cm|e]; cbn [bind] in *; [|discriminate].
  destruct (np_mean cm) as [p|e]; cbn [bind] in *; [|discriminate].
  destruct (np_max_axis1 _) as [rm|e]; cbn [bind] in *; [|discriminate].
  destruct (np_mean rm) as [r|e]; cbn [bind] in *; [|discriminate].
  injection H as -> ->. reflexivity.
Qed.

Lemma no_empty_scores_defined (ref est : patterns) :
  no_empty_occurrence ref = true -> scores_defined ref est.
Proof.
  intros H [(pat & Hp & Ho) _].
  apply (no_empty_occurrence_In ref pat [] H Hp Ho). reflexivity.
Qed.

(** ** No exception on collections without empty occurrences *)

Lemma standard_body_ok (tol : Q) (ref est : patterns) :
  well_formed ref = true -> well_formed est = true ->
  no_events ref est = false ->
  let k := float_of_nat (length (filter (is_matched tol est) ref)) in
  standard_FPR_body tol ref est
  = Ok (Triple (f_measure (k / float_of_nat (length est))
                  (k / float_of_nat (length ref)))
          (k / float_of_nat (length est)) (k / float_of_nat (length ref))).
Proof.
  intros Hr He Hn k.
  destruct (no_events_false ref est Hn) as [Hrne Hene].
  unfold standard_FPR_body.
  rewrite Hn, (count_matches_spec tol ref est Hr He). cbn [bind].
  rewrite !py_div_pos by (apply length_pos; assumption). reflexivity.
Qed.

Lemma occurrence_loop_total (thres : Q) (ref est : patterns) :
  well_formed ref = true -> well_formed est = true ->
  no_empty_occurrence ref = true -> no_empty_occurrence est = true ->
  exists st, occurrence_loop thres "cardinality_score" ref est = Ok st.
Proof.
  intros Hr He Hcr Hce. rewrite occurrence_loop_cells.
  destruct (mapM_total
              (fun rp => mapM (occurrence_cell thres "cardinality_score" rp) est)
              ref) as [css Hcss].
  - intros rp Hrp. apply mapM_total. intros ep Hep.
    apply occurrence_cell_total.
    + apply (well_formed_no_empty ref rp Hr Hrp).
    + apply (well_formed_no_empty est ep He Hep).
    + intros a b Ha Hb. split.
      * apply (no_empty_occurrence_In ref rp a Hcr Hrp Ha).
      * apply (no_empty_occurrence_In est ep b Hce Hep Hb).
  - rewrite Hcss. simpl. eauto.
Qed.

Lemma occurrence_body_total (thres : Q) (ref est : patterns) :
  well_formed ref = true -> well_formed est = true ->
  no_empty_occurrence ref = true -> no_empty_occurrence est = true ->
  exists f p r,
    occurrence_FPR_body thres "cardinality_score" ref est = Ok (Triple f p r).
Proof.
  intros Hr He Hcr Hce.
  destruct (no_events ref est) eqn:Hn.
  - unfold occurrence_FPR_body. rewrite Hn. unfold zero_scores. eauto.
  - destruct (occurrence_loop_total thres ref est Hr He Hcr Hce) as [st Hst].
    destruct (rel_idx st) as [|x l] eqn:E.
    + rewrite (occurrence_body_not_relevant _ _ _ _ st Hn Hst E). eauto.
    + rewrite (occurrence_body_relevant _ _ _ _ st Hn Hst)
        by (rewrite E; discriminate).
      eauto.
Qed.

Lemma three_layer_returns (ref est : patterns) :
  well_formed ref = true -> well_formed est = true ->
  no_empty_occurrence ref = true -> no_empty_occurrence est = true ->
  exists f p r,
    three_layer_FPR ref est = (validate_warnings ref est, Ok (Triple f p r)).
Proof.
  intros Hr He Hcr Hce. unfold three_layer_FPR.
  rewrite (validate_well_formed _ ref est Hr He). unfold py_lift; simpl.
  rewrite app_nil_r.
  destruct (no_events ref est) eqn:Hn.
  - unfold three_layer_FPR_body. rewrite Hn. unfold zero_scores. eauto.
  - rewrite (three_layer_body_ok ref est Hr He Hn Hcr Hce). eauto.
Qed.

Lemma establishment_returns (ref est : patterns) :
  well_formed ref = true -> well_formed est = true ->
  no_empty_occurrence ref = true ->
  exists f p r,
    establishment_FPR "cardinality_score" ref est
    = (validate_warnings ref est, Ok (Triple f p r)).
Proof.
  intros Hr He Hcr. unfold establishment_FPR.
  rewrite (validate_well_formed _ ref est Hr He). unfold py_lift; simpl.
  rewrite app_nil_r.
  destruct (no_events ref est) eqn:Hn.
  - unfold establishment_FPR_body. rewrite Hn. unfold zero_scores. eauto.
  - rewrite (establishment_body_ok ref est Hr He Hn
               (no_empty_scores_defined ref est Hcr)). eauto.
Qed.

Lemma first_n_firstn {A} (l : list A) (n : Z) :
  exists k, first_n l n = firstn k l.
Proof. unfold first_n. destruct (_ <? 0)%Z; eauto. Qed.

Lemma forallb_firstn {A} (f : A -> bool) (k : nat) (l : list A) :
  forallb f l = true -> forallb f (firstn k l) = true.
Proof.
  revert k; induction l as [|a l IH]; intros [|k]; simpl; auto.
  intros [H1 H2]%andb_prop. rewrite H1, (IH k H2). reflexivity.
Qed.

Lemma first_n_well_formed (est : patterns) (n : Z) :
  well_formed est = true -> well_formed (first_n est n) = true.
Proof.
  destruct (first_n_firstn est n) as [k ->]. apply forallb_firstn.
Qed.

Lemma first_n_no_empty_occurrence (est : patterns) (n : Z) :
  no_empty_occurrence est = true ->
  no_empty_occurrence (first_n est n) = true.
Proof.
  destruct (first_n_firstn est n) as [k ->]. apply forallb_firstn.
Qed.

(** X11.  With the default similarity metric, no metric of the registry
    raises on well-formed collections whose occurrences all hold at least
    one event: each returns a value, whatever the tolerance, the threshold
    and [n] are. *)
Theorem registry_returns_without_empty_occurrences
  (kw : kwargs) (ref est : patterns) :
  similarity_metric kw = "cardinality_score"%string ->
  well_formed ref = true -> well_formed est = true ->
  no_empty_occurrence ref = true -> no_empty_occurrence est = true ->
  forall name metric,
    In (name, metric) METRICS ->
    exists v, outcome (metric kw ref est) = Ok v.
Proof.
  intros Hsim Hr He Hcr Hce name metric Hin.
  unfold METRICS in Hin. simpl in Hin.
  destruct Hin as [H|[H|[H|[H|[H|[H|[]]]]]]]; inversion H; subst; clear H;
    cbv beta; rewrite ?Hsim.
  - unfold standard_FPR. rewrite (validate_well_formed _ ref est Hr He).
    unfold py_lift, outcome; simpl.
    destruct (no_events ref est) eqn:Hn.
    + unfold standard_FPR_body. rewrite Hn. eauto.
    + rewrite (standard_body_ok (tol kw) ref est Hr He Hn). eauto.
  - destruct (establishment_returns ref est Hr He Hcr) as (f & p & r & ->).
    simpl. eauto.
  - unfold occurrence_FPR. rewrite (validate_well_formed _ ref est Hr He).
    unfold py_lift, outcome; simpl.
    destruct (occurrence_body_total (thres kw) ref est Hr He Hcr Hce)
      as (f & p & r & ->). eauto.
  - destruct (three_layer_returns ref est Hr He Hcr Hce) as (f & p & r & ->).
    simpl. eauto.
  - unfold first_n_three_layer_P.
    rewrite (validate_well_formed _ ref est Hr He). unfold outcome; simpl.
    unfold first_n_three_layer_P_body.
    destruct (no_events ref est); [simpl; eauto|].
    destruct (three_layer_returns ref (first_n est (n kw)) Hr
                (first_n_well_formed est (n kw) He) Hcr
                (first_n_no_empty_occurrence est (n kw) Hce))
      as (f & p & r & ->).
    simpl. eauto.
  - unfold first_n_target_proportion_R.
    rewrite (validate_well_formed _ ref est Hr He). unfold outcome; simpl.
    unfold first_n_target_proportion_R_body.
    destruct (no_events ref est); [simpl; eauto|].
    destruct (establishment_returns ref (first_n est (n kw)) Hr
                (first_n_well_formed est (n kw) He) Hcr)
      as (f & p & r & ->).
    simpl. eauto.
Qed.

Lemma registry_returns_witness :
  let reference := [[[ev 0 60; ev 1 62]; [ev 4 60]]; [[ev 2 64]]] in
  let estimated := [[[ev 0 60]]; [[ev 2 64]; [ev 7 70]]] in
  similarity_metric defaults = "cardinality_score"%string
  /\ well_formed reference = true /\ well_formed estimated = true
  /\ no_empty_occurrence reference = true
  /\ no_empty_occurrence estimated = true
  /\ exists v,
       outcome (occurrence_FPR (thres defaults) (similarity_metric defaults)
                  reference estimated) = Ok v.
Proof.
  intros reference estimated.
  split; [reflexivity|]. split; [reflexivity|]. split; [reflexivity|].
  split; [reflexivity|]. split; [reflexivity|].
  apply (registry_returns_without_empty_occurrences defaults reference estimated
           eq_refl eq_refl eq_refl eq_refl eq_refl "occurrence_FPR"%string
           (fun kw => occurrence_FPR (thres kw) (similarity_metric kw))).
  unfold METRICS. simpl. tauto.
Defined.

(** ** A collection against itself *)

Lemma list_max_in_unit (l : list Q) :
  l <> [] -> Forall in_unit_interval l -> in_unit_interval (list_max l).
Proof.
  intros Hne Hl. apply (reduce_max_Forall _ l); [exact Hl|].
  apply reduce_max_ok, Hne.
Qed.

Lemma max_mean_in_unit_closed {A B} (g : A -> B -> Q) (xs : list A)
  (ys : list B) :
  xs <> [] -> ys <> [] ->
  (forall a b, In a xs -> In b ys -> in_unit_interval (g a b)) ->
  in_unit_interval (col_max_mean g xs ys)
  /\ in_unit_interval (row_max_mean g xs ys).
Proof.
  intros Hx Hy Hg. split.
  - unfold col_max_mean.
    set (cm := map (fun b => list_max (map (fun a => g a b) xs)) ys).
    replace (length ys) with (length cm) by (unfold cm; apply length_map).
    apply (np_mean_in_unit cm).
    + unfold cm. apply Forall_map, Forall_forall. intros b Hb.
      apply list_max_in_unit; [destruct xs; [congruence | discriminate]|].
      apply Forall_map, Forall_forall. intros a Ha. apply Hg; assumption.
    + apply np_mean_ok. unfold cm. destruct ys; [congruence | discriminate].
  - unfold row_max_mean.
    set (rm := map (fun a => list_max (map (g a) ys)) xs).
    replace (length xs) with (length rm) by (unfold rm; apply length_map).
    apply (np_mean_in_unit rm).
    + unfold rm. apply Forall_map, Forall_forall. intros a Ha.
      apply list_max_in_unit; [destruct ys; [congruence | discriminate]|].
      apply Forall_map, Forall_forall. intros b Hb. apply Hg; assumption.
    + apply np_mean_ok. unfold rm. destruct xs; [congruence | discriminate].
Qed.

Lemma max_mean_self {A} (g : A -> A -> Q) (xs : list A) :
  xs <> [] ->
  (forall a b, In a xs -> In b xs -> in_unit_interval (g a b)) ->
  (forall a, In a xs -> g a a == 1) ->
  col_max_mean g xs xs == 1 /\ row_max_mean g xs xs == 1.
Proof.
  intros Hx Hg Hd. split.
  - unfold col_max_mean.
    set (cm := map (fun b => list_max (map (fun a => g a b) xs)) xs).
    replace (length xs) with (length cm) by (unfold cm; apply length_map).
    apply quotient_of_ones; unfold cm.
    + destruct xs; [congruence | discriminate].
    + apply Forall_map, Forall_forall. intros b Hb.
      apply (list_max_one _ (g b b)).
      * apply Forall_map, Forall_forall. intros a Ha. apply Hg; assumption.
      * apply (in_map (fun a => g a b)), Hb.
      * apply Hd, Hb.
  - unfold row_max_mean.
    set (rm := map (fun a => list_max (map (g a) xs)) xs).
    replace (length xs) with (length rm) by (unfold rm; apply length_map).
    apply quotient_of_ones; unfold rm.
    + destruct xs; [congruence | discriminate].
    + apply Forall_map, Forall_forall. intros a Ha.
      apply (list_max_one _ (g a a)).
      * apply Forall_map, Forall_forall. intros b Hb. apply Hg; assumption.
      * apply in_map, Ha.
      * apply Hd, Ha.
Qed.

Lemma first_layer_F_in_unit (a b : occurrence) :
  a <> [] -> b <> [] -> in_unit_interval (first_layer_F a b).
Proof.
  intros Ha Hb.
  destruct (first_layer_in_unit a b _ (first_layer_ok a b Ha Hb)) as [Hp Hr].
  apply f_measure_in_unit; assumption.
Qed.

Lemma first_layer_F_self (a : occurrence) :
  a <> [] -> distinct_events a = true -> first_layer_F a a == 1.
Proof.
  intros Ha Hd. unfold first_layer_F, first_layer_P, first_layer_R.
  rewrite (intersection_self a Hd).
  pose proof (float_of_nat_pos (length a) (length_pos a Ha)).
  apply f_measure_ones; field; lra.
Qed.

Lemma second_layer_F_in_unit (rp ep : pattern) :
  rp <> [] -> ep <> [] ->
  (forall a, In a rp -> a <> []) -> (forall b, In b ep -> b <> []) ->
  in_unit_interval (second_layer_F rp ep).
Proof.
  intros Hr He Ha Hb.
  destruct (max_mean_in_unit_closed first_layer_F rp ep Hr He) as [Hp Hq].
  - intros a b Hina Hinb. apply first_layer_F_in_unit; auto.
  - apply f_measure_in_unit; assumption.
Qed.

Lemma second_layer_F_self (rp : pattern) :
  rp <> [] ->
  (forall a, In a rp -> a <> [] /\ distinct_events a = true) ->
  second_layer_F rp rp == 1.
Proof.
  intros Hr Hc.
  destruct (max_mean_self first_layer_F rp Hr) as [Hp Hq].
  - intros a b Ha Hb. apply first_layer_F_in_unit; [apply (Hc a Ha) | apply (Hc b Hb)].
  - intros a Ha. apply first_layer_F_self; apply (Hc a Ha).
  - apply f_measure_ones; assumption.
Qed.

Lemma best_score_in_unit (rp ep : pattern) :
  rp <> [] -> ep <> [] ->
  (forall a b, In a rp -> In b ep -> a <> [] \/ b <> []) ->
  in_unit_interval (best_score rp ep).
Proof.
  intros Hr He H.
  apply (establishment_cell_in_unit "cardinality_score" rp ep).
  apply establishment_cell_ok; assumption.
Qed.

Lemma best_score_self (rp : pattern) :
  rp <> [] ->
  (forall a, In a rp -> a <> [] /\ distinct_events a = true) ->
  best_score rp rp == 1.
Proof.
  intros Hr Hc. unfold best_score.
  destruct rp as [|a rp'] eqn:E; [congruence|]. rewrite <- E in *.
  assert (Ha : In a rp) by (rewrite E; left; reflexivity).
  apply (list_max_one _ (cardinality_score a a)).
  - apply Forall_concat, Forall_map, Forall_forall. intros x Hx.
    apply Forall_map, Forall_forall. intros y Hy.
    apply cardinality_score_in_unit. left. apply (Hc x Hx).
  - apply in_concat. exists (map (cardinality_score a) rp). split.
    + apply (in_map (fun x => map (cardinality_score x) rp)), Ha.
    + apply in_map, Ha.
  - apply cardinality_score_self; apply (Hc a Ha).
Qed.

Lemma occurrences_clean_no_empty (ps : patterns) :
  occurrences_clean ps = true -> no_empty_occurrence ps = true.
Proof.
  unfold occurrences_clean, no_empty_occurrence. intros H.
  apply forallb_forall. intros pat Hp. apply forallb_forall. intros occ Ho.
  rewrite forallb_forall in H. specialize (H pat Hp).
  rewrite forallb_forall in H. specialize (H occ Ho).
  apply andb_prop in H as [H _]. exact H.
Qed.

(** X12.  On a well-formed collection with events, where no occurrence is
    empty or holds an event twice, [establishment_FPR] and
    [three_layer_FPR] called with the collection as reference and as
    estimate return (1, 1, 1). *)
Theorem identical_collections_score_one (C : patterns) :
  well_formed C = true -> no_events C C = false ->
  occurrences_clean C = true ->
  returns_triple (establishment_FPR "cardinality_score" C C) 1 1 1
  /\ returns_triple (three_layer_FPR C C) 1 1 1.
Proof.
  intros Hwf Hn Hc.
  destruct (no_events_false C C Hn) as [Hne _].
  pose proof (occurrences_clean_no_empty C Hc) as Hce.
  assert (Hpat : forall rp, In rp C ->
             rp <> [] /\ forall a, In a rp -> a <> [] /\ distinct_events a = true).
  { intros rp Hrp. split; [apply (well_formed_no_empty C rp Hwf Hrp)|].
    intros a Ha. apply (occurrences_clean_In C rp a Hc Hrp Ha). }
  split.
  - unfold returns_triple, establishment_FPR.
    rewrite validate_with_events by assumption. unfold py_lift, outcome; simpl.
    rewrite (establishment_body_ok C C Hwf Hwf Hn
               (no_empty_scores_defined C C Hce)).
    destruct (max_mean_self best_score C Hne) as [Hp Hr].
    + intros rp ep Hrp Hep. apply best_score_in_unit;
        [apply (Hpat rp Hrp) | apply (Hpat ep Hep)|].
      intros a b Ha _. left. apply (proj2 (Hpat rp Hrp) a Ha).
    + intros rp Hrp. apply best_score_self; apply (Hpat rp Hrp).
    + eexists _, _, _. split; [reflexivity|].
      split; [apply f_measure_ones; assumption | auto].
  - unfold returns_triple, three_layer_FPR.
    rewrite validate_with_events by assumption. unfold py_lift, outcome; simpl.
    rewrite (three_layer_body_ok C C Hwf Hwf Hn Hce Hce).
    destruct (max_mean_self second_layer_F C Hne) as [Hp Hr].
    + intros rp ep Hrp Hep.
      destruct (Hpat rp Hrp) as [Hr1 Hr2]. destruct (Hpat ep Hep) as [He1 He2].
      apply second_layer_F_in_unit; [exact Hr1 | exact He1 | |].
      * intros a Ha. apply (Hr2 a Ha).
      * intros b Hb. apply (He2 b Hb).
    + intros rp Hrp. apply second_layer_F_self; apply (Hpat rp Hrp).
    + eexists _, _, _. split; [reflexivity|].
      split; [apply f_measure_ones; assumption | auto].
Qed.

Lemma identical_collections_witness :
  let C := [[[ev 0 60; ev 1 62]; [ev 4 60; ev 5 62]]; [[ev 2 64]]] in
  well_formed C = true /\ no_events C C = false
  /\ occurrences_clean C = true
  /\ returns_triple (establishment_FPR "cardinality_score" C C) 1 1 1
  /\ returns_triple (three_layer_FPR C C) 1 1 1.
Proof.
  intros C.
  split; [reflexivity|]. split; [reflexivity|]. split; [reflexivity|].
  apply (identical_collections_score_one C eq_refl eq_refl eq_refl).
Defined.

Lemma is_matched_self (tol : Q) (C : patterns) (rp : pattern) :
  0 <= tol -> rp <> [] -> In rp C -> is_matched tol C rp = true.
Proof.
  intros Htol Hne Hin. destruct rp as [|P rest]; [congruence|].
  unfold is_matched. apply existsb_exists. exists (P :: rest).
  split; [exact Hin | apply prototypes_match_self, Htol].
Qed.

(** X13.  On a well-formed collection with events and a tolerance that is
    not negative, [standard_FPR] called with the collection as reference
    and as estimate returns (1, 1, 1): every prototype matches itself. *)
Theorem standard_identical_collections (tol : Q) (C : patterns) :
  0 <= tol -> well_formed C = true -> no_events C C = false ->
  returns_triple (standard_FPR tol C C) 1 1 1.
Proof.
  intros Htol Hwf Hn.
  destruct (no_events_false C C Hn) as [Hne _].
  unfold returns_triple, standard_FPR.
  rewrite validate_with_events by assumption. unfold py_lift, outcome.
  cbn [snd]. rewrite (standard_body_ok tol C C Hwf Hwf Hn). cbv zeta.
  rewrite forallb_filter_id.
  2:{ apply forallb_forall. intros rp Hrp. apply is_matched_self; auto.
      apply (well_formed_no_empty C rp Hwf Hrp). }
  pose proof (float_of_nat_pos (length C) (length_pos C Hne)) as Hpos.
  assert (H1 : float_of_nat (length C) / float_of_nat (length C) == 1)
    by (field; lra).
  eexists _, _, _. split; [reflexivity|].
  split; [apply f_measure_ones; exact H1 | auto].
Qed.

Lemma standard_identical_witness :
  let C := [[[ev 0 60; ev 1 62]; [ev 4 60]]; [[ev 2 64; ev 2 64]; []]] in
  0 <= tol defaults /\ well_formed C = true /\ no_events C C = false
  /\ returns_triple (standard_FPR (tol defaults) C C) 1 1 1.
Proof.
  intros C.
  assert (Ht : 0 <= tol defaults) by discriminate.
  split; [exact Ht|]. split; [reflexivity|]. split; [reflexivity|].
  apply (standard_identical_collections (tol defaults) C Ht eq_refl eq_refl).
Defined.

(** ** Swapping reference and estimate *)

Lemma fold_max_compat (l l' : list Q) (x x' : Q) :
  x == x' -> Forall2 Qeq l l' -> fold_left Qmax l x == fold_left Qmax l' x'.
Proof.
  intros Hx H. revert x x' Hx.
  induction H as [|a b l l' Hab _ IH]; intros x x' Hx; simpl; [exact Hx|].
  apply IH. rewrite Hx, Hab. reflexivity.
Qed.

Lemma list_max_compat (l l' : list Q) :
  Forall2 Qeq l l' -> list_max l == list_max l'.
Proof.
  intros [|a b l0 l0' Hab H]; [reflexivity|]. simpl.
  apply fold_max_compat; assumption.
Qed.

Lemma np_sum_compat (l l' : list Q) :
  Forall2 Qeq l l' -> np_sum l == np_sum l'.
Proof.
  induction 1 as [|a b l l' Hab _ IH]; [reflexivity|].
  rewrite !np_sum_cons, Hab, IH. reflexivity.
Qed.

Lemma Forall2_map_same {A B} (R : B -> B -> Prop) (f f' : A -> B) (l : list A) :
  (forall a, In a l -> R (f a) (f' a)) -> Forall2 R (map f l) (map f' l).
Proof.
  induction l as [|a l IH]; intros H; simpl; constructor.
  - apply H. left; reflexivity.
  - apply IH. intros a' Ha. apply H. right; exact Ha.
Qed.

Lemma f_measure_compat (p p' r r' : Q) :
  p == p' -> r == r' -> f_measure p r == f_measure p' r'.
Proof.
  intros Hp Hr. unfold f_measure.
  rewrite (Qleb_comp (p + r) (p' + r') ltac:(rewrite Hp, Hr; reflexivity)
             0 0 ltac:(reflexivity)).
  destruct (Qle_bool (p' + r') 0); [reflexivity|].
  rewrite Hp, Hr. reflexivity.
Qed.

Lemma f_measure_sym (p r : Q) : f_measure p r == f_measure r p.
Proof.
  unfold f_measure.
  rewrite (Qleb_comp (p + r) (r + p) ltac:(ring) 0 0 ltac:(reflexivity)).
  destruct (Qle_bool (r + p) 0) eqn:E; [reflexivity|].
  assert (Hpos : ~ r + p == 0).
  { intros H. rewrite H in E. discriminate. }
  field. intros H. apply Hpos. rewrite <- H. ring.
Qed.

(** The mean of the column maxima of an array is the mean of the row
    maxima of its transpose. *)
Lemma max_mean_swap {A B} (g : A -> B -> Q) (g' : B -> A -> Q)
  (xs : list A) (ys : list B) :
  (forall a b, In a xs -> In b ys -> g a b == g' b a) ->
  col_max_mean g xs ys == row_max_mean g' ys xs
  /\ row_max_mean g xs ys == col_max_mean g' ys xs.
Proof.
  intros H. unfold col_max_mean, row_max_mean. split.
  - apply Qdiv_comp; [|reflexivity]. apply np_sum_compat.
    apply Forall2_map_same. intros b Hb. apply list_max_compat.
    apply Forall2_map_same. intros a Ha. apply H; assumption.
  - apply Qdiv_comp; [|reflexivity]. apply np_sum_compat.
    apply Forall2_map_same. intros a Ha. apply list_max_compat.
    apply Forall2_map_same. intros b Hb. apply H; assumption.
Qed.

Lemma list_max_same_elements (l l' : list Q) :
  l <> [] -> l' <> [] ->
  (forall x, In x l -> In x l') -> (forall x, In x l' -> In x l) ->
  list_max l == list_max l'.
Proof.
  intros Hl Hl' H1 H2. apply Qle_antisym.
  - apply list_max_ub, H1, list_max_in, Hl.
  - apply list_max_ub, H2, list_max_in, Hl'.
Qed.

Lemma in_score_rows (rp ep : pattern) (x : Q) :
  In x (concat (map (fun a => map (cardinality_score a) ep) rp))
  <-> exists a b, In a rp /\ In b ep /\ x = cardinality_score a b.
Proof.
  rewrite in_concat. split.
  - intros (row & Hrow & Hx). apply in_map_iff in Hrow as (a & <- & Ha).
    apply in_map_iff in Hx as (b & <- & Hb). eauto.
  - intros (a & b & Ha & Hb & ->).
    exists (map (cardinality_score a) ep). split.
    + apply (in_map (fun a0 => map (cardinality_score a0) ep)), Ha.
    + apply in_map, Hb.
Qed.

Lemma best_score_swap (rp ep : pattern) :
  rp <> [] -> ep <> [] -> best_score rp ep == best_score ep rp.
Proof.
  intros Hr He. unfold best_score. apply list_max_same_elements.
  - destruct rp as [|a rp']; [congruence|].
    destruct ep as [|b ep']; [congruence|]. discriminate.
  - destruct rp as [|a rp']; [congruence|].
    destruct ep as [|b ep']; [congruence|]. discriminate.
  - intros x (a & b & Ha & Hb & ->)%in_score_rows.
    apply in_score_rows. exists b, a. rewrite cardinality_score_sym. auto.
  - intros x (b & a & Hb & Ha & ->)%in_score_rows.
    apply in_score_rows. exists a, b. rewrite cardinality_score_sym. auto.
Qed.

Lemma first_layer_F_swap (a b : occurrence) :
  first_layer_F a b == first_layer_F b a.
Proof.
  unfold first_layer_F, first_layer_P, first_layer_R.
  rewrite (intersection_size_sym b a). apply f_measure_sym.
Qed.

Lemma second_layer_F_swap (rp ep : pattern) :
  second_layer_F rp ep == second_layer_F ep rp.
Proof.
  unfold second_layer_F.
  destruct (max_mean_swap first_layer_F first_layer_F rp ep) as [H1 H2].
  { intros a b _ _. apply first_layer_F_swap. }
  rewrite (f_measure_sym (col_max_mean first_layer_F rp ep)).
  apply f_measure_compat; assumption.
Qed.

Lemma no_events_swap (ref est : patterns) :
  no_events ref est = no_events est ref.
Proof. unfold no_events. apply orb_comm. Qed.

(** X14.  On well-formed collections with events and without empty
    occurrences, exchanging reference and estimate exchanges the precision
    and the recall of [establishment_FPR] and of [three_layer_FPR] and
    keeps their F-measure. *)
Theorem swapping_collections_swaps_precision_and_recall (ref est : patterns) :
  well_formed ref = true -> well_formed est = true ->
  no_events ref est = false ->
  no_empty_occurrence ref = true -> no_empty_occurrence est = true ->
  (exists f p r f' p' r',
      establishment_FPR "cardinality_score" ref est = ([], Ok (Triple f p r))
      /\ establishment_FPR "cardinality_score" est ref
         = ([], Ok (Triple f' p' r'))
      /\ f' == f /\ p' == r /\ r' == p)
  /\ (exists f p r f' p' r',
         three_layer_FPR ref est = ([], Ok (Triple f p r))
         /\ three_layer_FPR est ref = ([], Ok (Triple f' p' r'))
         /\ f' == f /\ p' == r /\ r' == p).
Proof.
  intros Hr He Hn Hcr Hce.
  assert (Hn' : no_events est ref = false) by (rewrite no_events_swap; exact Hn).
  split.
  - destruct (max_mean_swap best_score best_score ref est) as [H1 H2].
    { intros rp ep Hrp Hep. apply best_score_swap.
      - apply (well_formed_no_empty ref rp Hr Hrp).
      - apply (well_formed_no_empty est ep He Hep). }
    eexists _, _, _, _, _, _.
    split.
    { unfold establishment_FPR. rewrite validate_with_events by assumption.
      unfold py_lift.
      rewrite (establishment_body_ok ref est Hr He Hn
                 (no_empty_scores_defined ref est Hcr)). reflexivity. }
    split.
    { unfold establishment_FPR. rewrite validate_with_events by assumption.
      unfold py_lift.
      rewrite (establishment_body_ok est ref He Hr Hn'
                 (no_empty_scores_defined est ref Hce)). reflexivity. }
    split; [|split; symmetry; assumption].
    rewrite (f_measure_sym (col_max_mean best_score est ref)).
    apply f_measure_compat; symmetry; assumption.
  - destruct (max_mean_swap second_layer_F second_layer_F ref est) as [H1 H2].
    { intros rp ep _ _. apply second_layer_F_swap. }
    eexists _, _, _, _, _, _.
    split.
    { unfold three_layer_FPR. rewrite validate_with_events by assumption.
      unfold py_lift.
      rewrite (three_layer_body_ok ref est Hr He Hn Hcr Hce). reflexivity. }
    split.
    { unfold three_layer_FPR. rewrite validate_with_events by assumption.
      unfold py_lift.
      rewrite (three_layer_body_ok est ref He Hr Hn' Hce Hcr). reflexivity. }
    split; [|split; symmetry; assumption].
    rewrite (f_measure_sym (col_max_mean second_layer_F est ref)).
    apply f_measure_compat; symmetry; assumption.
Qed.

Lemma swapping_collections_witness :
  let reference := [[[ev 0 60; ev 1 62]; [ev 4 60]]; [[ev 2 64]]] in
  let estimated := [[[ev 0 60]]; [[ev 2 64]; [ev 7 70]]; [[ev 1 62; ev 4 60]]] in
  well_formed reference = true /\ well_formed estimated = true
  /\ no_events reference estimated = false
  /\ no_empty_occurrence reference = true
  /\ no_empty_occurrence estimated = true
  /\ exists f p r f' p' r',
       three_layer_FPR reference estimated = ([], Ok (Triple f p r))
       /\ three_layer_FPR estimated reference = ([], Ok (Triple f' p' r'))
       /\ f' == f /\ p' == r /\ r' == p.
Proof.
  intros reference estimated.
  split; [reflexivity|]. split; [reflexivity|]. split; [reflexivity|].
  split; [reflexivity|]. split; [reflexivity|].
  apply (swapping_collections_swaps_precision_and_recall reference estimated
           eq_refl eq_refl eq_refl eq_refl eq_refl).
Defined.

(** ** The first-n metrics *)

(** X15.  The slice taken by the first-n metrics is a prefix of the list
    in its order: of min(len, n) elements for n >= 0, of all but the last
    -n elements for n < 0, and the whole list when n >= len. *)
Theorem first_n_is_a_prefix {A : Type} (l : list A) (n : Z) :
  (exists rest, l = first_n l n ++ rest)
  /\ ((0 <= n)%Z -> length (first_n l n) = Nat.min (length l) (Z.to_nat n))
  /\ ((n < 0)%Z -> length (first_n l n) = (length l - Z.to_nat (- n))%nat)
  /\ ((Z.of_nat (length l) <= n)%Z -> first_n l n = l).
Proof.
  split; [|split; [|split]].
  - destruct (first_n_firstn l n) as [k ->].
    exists (skipn k l). symmetry. apply firstn_skipn.
  - intros Hn. unfold first_n.
    destruct (Z.ltb_spec (Z.min (Z.of_nat (length l)) n) 0) as [H|H]; [lia|].
    rewrite length_firstn. lia.
  - intros Hn. unfold first_n.
    destruct (Z.ltb_spec (Z.min (Z.of_nat (length l)) n) 0) as [H|H]; [|lia].
    rewrite length_firstn. lia.
  - intros Hn. unfold first_n.
    destruct (Z.ltb_spec (Z.min (Z.of_nat (length l)) n) 0) as [H|H]; [lia|].
    rewrite Z.min_l by exact Hn. rewrite Nat2Z.id. apply firstn_all.
Qed.

Lemma first_n_prefix_witness :
  (0 <= 2)%Z
  /\ first_n [10; 20; 30; 40]%nat 2 = [10; 20]%nat
  /\ first_n [10; 20; 30; 40]%nat (-1) = [10; 20; 30]%nat
  /\ length (first_n [10; 20; 30; 40]%nat 2)
     = Nat.min (length [10; 20; 30; 40]%nat) (Z.to_nat 2).
Proof.
  assert (H : (0 <= 2)%Z) by lia.
  split; [exact H|]. split; [reflexivity|]. split; [reflexivity|].
  apply (proj1 (proj2 (first_n_is_a_prefix [10; 20; 30; 40]%nat 2)) H).
Defined.

(** What [validate] does, by the outcome of its checks. *)
Lemma validate_unfold {A} (body : patterns -> patterns -> Py A)
  (ref est : patterns) :
  validate body ref est
  = match for_each check_patterns [ref; est] tt with
    | Ok _ => (validate_warnings ref est ++ warned (body ref est),
               outcome (body ref est))
    | Raise e => (validate_warnings ref est, Raise e)
    end.
Proof.
  unfold validate, validate_warnings, warned, outcome.
  destruct (for_each check_patterns [ref; est] tt) as [u|e];
    destruct (body ref est) as [w r];
    destruct (_n_onset_midi ref =? 0)%nat, (_n_onset_midi est =? 0)%nat;
    simpl; rewrite ?app_nil_r; reflexivity.
Qed.

Lemma validate_warnings_with_events (ref est : patterns) :
  no_events ref est = false -> validate_warnings ref est = [].
Proof.
  unfold no_events, validate_warnings. intros H.
  apply orb_false_elim in H as [-> ->]. reflexivity.
Qed.

(** X16.  When both collections hold events and [n] is at least the
    number of estimated patterns, [first_n_three_layer_P] emits the
    warnings of [three_layer_FPR] and returns its precision, or raises
    what it raises; likewise [first_n_target_proportion_R] with the recall
    of [establishment_FPR]. *)
Theorem first_n_covering_the_estimate (n : Z) (ref est : patterns) :
  no_events ref est = false -> (Z.of_nat (length est) <= n)%Z ->
  (forall f p r,
      outcome (three_layer_FPR ref est) = Ok (Triple f p r) ->
      first_n_three_layer_P n ref est
      = (warned (three_layer_FPR ref est), Ok (Single p)))
  /\ (forall e,
         outcome (three_layer_FPR ref est) = Raise e ->
         first_n_three_layer_P n ref est
         = (warned (three_layer_FPR ref est), Raise e))
  /\ (forall f p r,
         outcome (establishment_FPR "cardinality_score" ref est)
         = Ok (Triple f p r) ->
         first_n_target_proportion_R n ref est
         = (warned (establishment_FPR "cardinality_score" ref est),
            Ok (Single r)))
  /\ (forall e,
         outcome (establishment_FPR "cardinality_score" ref est) = Raise e ->
         first_n_target_proportion_R n ref est
         = (warned (establishment_FPR "cardinality_score" ref est), Raise e)).
Proof.
  intros Hn Hlen.
  assert (Hfn : first_n est n = est).
  { unfold first_n.
    destruct (Z.ltb_spec (Z.min (Z.of_nat (length est)) n) 0) as [H|H]; [lia|].
    rewrite Z.min_l by exact Hlen. rewrite Nat2Z.id. apply firstn_all. }
  pose proof (validate_warnings_with_events ref est Hn) as Hw.
  unfold first_n_three_layer_P, first_n_target_proportion_R,
    three_layer_FPR, establishment_FPR.
  rewrite !(validate_unfold _ ref est), Hw. cbn [app].
  unfold first_n_three_layer_P_body, first_n_target_proportion_R_body.
  rewrite Hn, Hfn.
  unfold three_layer_FPR, establishment_FPR.
  rewrite !(validate_unfold _ ref est), Hw. cbn [app].
  destruct (for_each check_patterns [ref; est] tt) as [u|e0];
    unfold warned, outcome, py_lift; cbn [fst snd].
  - repeat split.
    + intros f p r ->. reflexivity.
    + intros e ->. reflexivity.
    + intros f p r ->. reflexivity.
    + intros e ->. reflexivity.
  - repeat split; try (intros; discriminate); intros e [= ->]; reflexivity.
Qed.

Lemma first_n_covering_witness :
  let reference := [[[ev 0 60; ev 1 62]]] in
  let estimated := [[[ev 0 60]]; [[ev 1 62]]] in
  no_events reference estimated = false
  /\ (Z.of_nat (length estimated) <= n defaults)%Z
  /\ exists f p r,
       outcome (three_layer_FPR reference estimated) = Ok (Triple f p r)
       /\ first_n_three_layer_P (n defaults) reference estimated
          = (warned (three_layer_FPR reference estimated), Ok (Single p)).
Proof.
  intros reference estimated.
  assert (Hlen : (Z.of_nat (length estimated) <= n defaults)%Z)
    by (simpl; lia).
  split; [reflexivity|]. split; [exact Hlen|].
  destruct (outcome (three_layer_FPR reference estimated)) as [[f p r|x]|e]
    eqn:Hv; try (vm_compute in Hv; discriminate).
  exists f, p, r. split; [reflexivity|].
  apply (proj1 (first_n_covering_the_estimate (n defaults) reference estimated
                  eq_refl Hlen) f p r Hv).
Defined.

Lemma first_n_without_events (n : Z) (ref est : patterns)
  (inner : patterns -> patterns -> result pyval) :
  well_formed ref = true -> well_formed est = true ->
  no_events ref est = false ->
  _n_onset_midi (first_n est n) = 0%nat ->
  (forall r e, no_events r e = true -> inner r e = Ok zero_scores) ->
  validate (fun r e => py_lift (inner r e)) ref (first_n est n)
  = (["Estimated patterns are empty."%string], Ok zero_scores).
Proof.
  intros Hr He Hn Hz Hinner.
  rewrite (validate_well_formed _ ref (first_n est n) Hr
             (first_n_well_formed est n He)).
  unfold validate_warnings, py_lift, warned, outcome. cbn [fst snd].
  rewrite Hz. unfold no_events in Hn. apply orb_false_elim in Hn as [Hn1 _].
  rewrite Hn1. cbn [Nat.eqb app]. f_equal.
  apply Hinner. unfold no_events. rewrite Hz. apply orb_true_r.
Qed.

(** X17.  When both collections are well-formed and hold events but the
    first [n] estimated patterns hold none ([n] = 0 for instance), both
    first-n metrics warn that the estimated patterns are empty and return
    the single float 0. *)
Theorem first_n_prefix_without_events (n : Z) (ref est : patterns) :
  well_formed ref = true -> well_formed est = true ->
  no_events ref est = false ->
  _n_onset_midi (first_n est n) = 0%nat ->
  first_n_three_layer_P n ref est
  = (["Estimated patterns are empty."%string], Ok (Single 0))
  /\ first_n_target_proportion_R n ref est
     = (["Estimated patterns are empty."%string], Ok (Single 0)).
Proof.
  intros Hr He Hn Hz. split.
  - unfold first_n_three_layer_P. rewrite validate_with_events by assumption.
    unfold first_n_three_layer_P_body, three_layer_FPR. rewrite Hn.
    rewrite (first_n_without_events n ref est three_layer_FPR_body Hr He Hn Hz).
    + reflexivity.
    + intros r e H. unfold three_layer_FPR_body. rewrite H. reflexivity.
  - unfold first_n_target_proportion_R.
    rewrite validate_with_events by assumption.
    unfold first_n_target_proportion_R_body, establishment_FPR. rewrite Hn.
    rewrite (first_n_without_events n ref est
               (establishment_FPR_body "cardinality_score") Hr He Hn Hz).
    + reflexivity.
    + intros r e H. unfold establishment_FPR_body. rewrite H. reflexivity.
Qed.

Lemma first_n_prefix_without_events_witness :
  let reference := [[[ev 0 60; ev 1 62]]] in
  let estimated := [[[ev 0 60]]; [[ev 1 62]]] in
  well_formed reference = true /\ well_formed estimated = true
  /\ no_events reference estimated = false
  /\ _n_onset_midi (first_n estimated 0) = 0%nat
  /\ first_n_three_layer_P 0 reference estimated
     = (["Estimated patterns are empty."%string], Ok (Single 0)).
Proof.
  intros reference estimated.
  split; [reflexivity|]. split; [reflexivity|]. split; [reflexivity|].
  split; [reflexivity|].
  apply (proj1 (first_n_prefix_without_events 0 reference estimated
                  eq_refl eq_refl eq_refl eq_refl)).
Defined.

(** ** occurrence_FPR and its threshold *)

Lemma relevant_in_row_none (i j : nat) (k : nat) :
  relevant_in_row i j (repeat None k) = [].
Proof. revert j; induction k as [|k IH]; intros j; simpl; auto. Qed.

Lemma relevant_from_none (i : nat) (k m : nat) :
  relevant_from i (repeat (repeat None k) m) = [].
Proof.
  revert i; induction m as [|m IH]; intros i; simpl; [reflexivity|].
  rewrite relevant_in_row_none, IH. reflexivity.
Qed.

Lemma map_const_repeat {A B} (b : B) (l : list A) :
  map (fun _ => b) l = repeat b (length l).
Proof. induction l as [|a l IH]; simpl; [reflexivity | f_equal; exact IH]. Qed.

Lemma occurrence_cell_below_threshold (thres : Q) (rp ep : pattern) :
  1 < thres -> rp <> [] -> ep <> [] ->
  (forall a b, In a rp -> In b ep -> a <> [] \/ b <> []) ->
  occurrence_cell thres "cardinality_score" rp ep = Ok None.
Proof.
  intros Ht Hr He H. unfold occurrence_cell.
  rewrite (score_matrix_ok rp ep H). cbn [bind].
  rewrite (np_max_matrix_of cardinality_score rp ep Hr He). cbn [bind].
  fold (best_score rp ep).
  destruct (Qle_bool thres (best_score rp ep)) eqn:E; [|reflexivity].
  apply Qle_bool_iff in E.
  destruct (best_score_in_unit rp ep Hr He H) as [_ H1]. lra.
Qed.

(** X18.  With a threshold above 1 no pattern pair is relevant: on
    well-formed collections with events whose cardinality scores are all
    defined, [occurrence_FPR] returns exactly (0, 0, 0), without a
    warning. *)
Theorem occurrence_threshold_above_one (thres : Q) (ref est : patterns) :
  1 < thres ->
  well_formed ref = true -> well_formed est = true ->
  no_events ref est = false -> scores_defined ref est ->
  occurrence_FPR thres "cardinality_score" ref est = ([], Ok (Triple 0 0 0)).
Proof.
  intros Ht Hr He Hn Hd.
  unfold occurrence_FPR. rewrite validate_with_events by assumption.
  unfold py_lift. f_equal.
  assert (Hloop : occurrence_loop thres "cardinality_score" ref est
                  = Ok (mk_occ_state
                          (mk_ndarray (length ref) (length est)
                             (map (map (plane_value fst))
                                (repeat (repeat None (length est)) (length ref))))
                          (mk_ndarray (length ref) (length est)
                             (map (map (plane_value snd))
                                (repeat (repeat None (length est)) (length ref))))
                          (relevant_from 0
                             (repeat (repeat None (length est)) (length ref))))).
  { rewrite occurrence_loop_cells.
    rewrite (mapM_ok_map _ (fun _ => repeat None (length est))).
    - rewrite map_const_repeat. reflexivity.
    - intros rp Hrp. rewrite (mapM_ok_map _ (fun _ => None)).
      + rewrite map_const_repeat. reflexivity.
      + intros ep Hep. apply occurrence_cell_below_threshold; auto.
        * apply (well_formed_no_empty ref rp Hr Hrp).
        * apply (well_formed_no_empty est ep He Hep).
        * intros a b. apply (scores_defined_pairs ref est Hd rp ep); assumption. }
  rewrite (occurrence_body_not_relevant _ _ _ _ _ Hn Hloop).
  - reflexivity.
  - apply relevant_from_none.
Qed.

Lemma occurrence_threshold_witness :
  let C := [[[ev 0 60; ev 1 62]; [ev 4 60]]; [[ev 2 64]]] in
  1 < 3 # 2 /\ well_formed C = true /\ no_events C C = false
  /\ scores_defined C C
  /\ occurrence_FPR (3 # 2) "cardinality_score" C C = ([], Ok (Triple 0 0 0)).
Proof.
  intros C.
  assert (Ht : 1 < 3 # 2) by reflexivity.
  assert (Hd : scores_defined C C).
  { apply no_empty_scores_defined. reflexivity. }
  split; [exact Ht|]. split; [reflexivity|]. split; [reflexivity|].
  split; [exact Hd|].
  apply (occurrence_threshold_above_one (3 # 2) C C Ht eq_refl eq_refl eq_refl Hd).
Defined.

Lemma occurrence_cell_ok (thres : Q) (rp ep : pattern) :
  rp <> [] -> ep <> [] ->
  (forall a b, In a rp -> In b ep -> a <> [] \/ b <> []) ->
  occurrence_cell thres "cardinality_score" rp ep
  = Ok (relevant_cell thres rp ep).
Proof.
  intros Hr He H. unfold occurrence_cell, relevant_cell.
  rewrite (score_matrix_ok rp ep H). cbn [bind].
  rewrite (np_max_matrix_of cardinality_score rp ep Hr He). cbn [bind].
  fold (best_score rp ep).
  destruct (Qle_bool thres (best_score rp ep)); [|reflexivity].
  pose proof (max_mean_matrix_of cardinality_score rp ep [] Hr He) as Hm.
  destruct (np_max_axis0 _) as [cm|e]; cbn [bind] in *; [|discriminate].
  destruct (np_mean cm) as [p|e]; cbn [bind] in *; [|discriminate].
  destruct (np_max_axis1 _) as [rm|e]; cbn [bind] in *; [|discriminate].
  destruct (np_mean rm) as [r|e]; cbn [bind] in *; [|discriminate].
  injection Hm as -> ->. reflexivity.
Qed.

Lemma occurrence_loop_ok (thres : Q) (ref est : patterns) :
  well_formed ref = true -> well_formed est = true ->
  scores_defined ref est ->
  let css := map (fun rp => map (relevant_cell thres rp) est) ref in
  occurrence_loop thres "cardinality_score" ref est
  = Ok (mk_occ_state
          (mk_ndarray (length ref) (length est)
             (map (map (plane_value fst)) css))
          (mk_ndarray (length ref) (length est)
             (map (map (plane_value snd)) css))
          (relevant_from 0 css)).
Proof.
  intros Hr He Hd css. rewrite occurrence_loop_cells.
  rewrite (mapM_ok_map _ (fun rp => map (relevant_cell thres rp) est)).
  - reflexivity.
  - intros rp Hrp. apply mapM_ok_map. intros ep Hep.
    apply occurrence_cell_ok.
    + apply (well_formed_no_empty ref rp Hr Hrp).
    + apply (well_formed_no_empty est ep He Hep).
    + intros a b. apply (scores_defined_pairs ref est Hd rp ep); assumption.
Qed.

Lemma nth_error_map_inv {A B} (f : A -> B) (l : list A) (i : nat) (b : B) :
  nth_error (map f l) i = Some b ->
  exists a, nth_error l i = Some a /\ b = f a.
Proof.
  rewrite nth_error_map. destruct (nth_error l i) as [a|]; simpl;
    [intros [= <-]; eauto | discriminate].
Qed.

Lemma nth_error_in_range {A} (l : list A) (i : nat) (d : A) :
  (i < length l)%nat -> nth_error l i = Some (nth i l d).
Proof. intros H. apply nth_error_nth'. exact H. Qed.

(** X19.  On well-formed collections whose cardinality scores are all
    defined, the loops of [occurrence_FPR] end with [rel_idx] holding
    exactly the index pairs (i, j) of the patterns whose best
    occurrence-pair score reaches the threshold, and with [O_PR[i, j]]
    holding, for each such pair, the mean of the column maxima and the
    mean of the row maxima of their score matrix. *)
Theorem occurrence_relevant_pairs (thres : Q) (ref est : patterns) :
  well_formed ref = true -> well_formed est = true ->
  scores_defined ref est ->
  exists st,
    occurrence_loop thres "cardinality_score" ref est = Ok st
    /\ forall i j,
         (In (i, j) (rel_idx st)
          <-> (i < length ref)%nat /\ (j < length est)%nat
              /\ thres <= best_score (nth i ref []) (nth j est []))
         /\ (In (i, j) (rel_idx st) ->
             getitem (O_P st) i j
             = Ok (col_max_mean cardinality_score (nth i ref []) (nth j est []))
             /\ getitem (O_R st) i j
                = Ok (row_max_mean cardinality_score (nth i ref [])
                        (nth j est []))).
Proof.
  intros Hr He Hd.
  pose proof (occurrence_loop_ok thres ref est Hr He Hd) as Hloop.
  cbv zeta in Hloop.
  set (css := map (fun rp => map (relevant_cell thres rp) est) ref) in *.
  eexists. split; [exact Hloop|]. cbn [rel_idx O_P O_R].
  assert (Hiff : forall i j,
             In (i, j) (relevant_from 0 css)
             <-> (i < length ref)%nat /\ (j < length est)%nat
                 /\ relevant_cell thres (nth i ref []) (nth j est []) <> None).
  { intros i j. split.
    - intros H. apply relevant_from_inv in H as (_ & row & pq & Hrow & Hpq).
      rewrite Nat.sub_0_r in Hrow. unfold css in Hrow.
      apply nth_error_map_inv in Hrow as (rp & Hrp & ->).
      apply nth_error_map_inv in Hpq as (ep & Hep & Hcell).
      assert (Hi : (i < length ref)%nat) by (apply nth_error_Some; congruence).
      assert (Hj : (j < length est)%nat) by (apply nth_error_Some; congruence).
      rewrite (nth_error_nth_Some ref i [] rp Hrp).
      rewrite (nth_error_nth_Some est j [] ep Hep).
      split; [exact Hi|]. split; [exact Hj|]. congruence.
    - intros (Hi & Hj & Hc).
      destruct (relevant_cell thres (nth i ref []) (nth j est [])) as [pq|] eqn:E;
        [|congruence].
      apply (relevant_from_intro 0 css i j
               (map (relevant_cell thres (nth i ref [])) est) pq).
      + unfold css. rewrite nth_error_map, (nth_error_in_range ref i [] Hi).
        reflexivity.
      + rewrite nth_error_map, (nth_error_in_range est j [] Hj). simpl.
        rewrite E. reflexivity. }
  intros i j. split.
  - rewrite Hiff. unfold relevant_cell.
    destruct (Qle_bool thres (best_score (nth i ref []) (nth j est []))) eqn:E.
    + apply Qle_bool_iff in E. split; [intros (Hi & Hj & _) | intros (Hi & Hj & _)];
        repeat split; auto; discriminate.
    + split; [intros (_ & _ & H); congruence|].
      intros (_ & _ & H). apply Qle_bool_iff in H. congruence.
  - intros Hin. apply Hiff in Hin as (Hi & Hj & Hc).
    assert (Hcell : nth j (nth i css []) None
                    = relevant_cell thres (nth i ref []) (nth j est [])).
    { unfold css.
      rewrite (nth_error_nth_Some _ i []
                 (map (relevant_cell thres (nth i ref [])) est)).
      - apply nth_error_nth_Some.
        rewrite nth_error_map, (nth_error_in_range est j [] Hj). reflexivity.
      - rewrite nth_error_map, (nth_error_in_range ref i [] Hi). reflexivity. }
    rewrite !getitem_entry by (simpl; assumption).
    rewrite !entry_plane, Hcell.
    unfold relevant_cell in *.
    destruct (Qle_bool thres _); [split; reflexivity | congruence].
Qed.

Lemma occurrence_relevant_pairs_witness :
  let reference := [[[ev 0 60]]; [[ev 0 60]; [ev 1 61]]] in
  let estimated := [[[ev 0 60]]; [[ev 1 61]; [ev 2 62]]] in
  well_formed reference = true /\ well_formed estimated = true
  /\ scores_defined reference estimated
  /\ exists st,
       occurrence_loop (thres defaults) "cardinality_score" reference estimated
       = Ok st
       /\ (In (1, 1)%nat (rel_idx st)
           <-> (1 < length reference)%nat /\ (1 < length estimated)%nat
               /\ thres defaults
                  <= best_score (nth 1 reference []) (nth 1 estimated [])).
Proof.
  intros reference estimated.
  assert (Hd : scores_defined reference estimated).
  { apply no_empty_scores_defined. reflexivity. }
  split; [reflexivity|]. split; [reflexivity|]. split; [exact Hd|].
  destruct (occurrence_relevant_pairs (thres defaults) reference estimated
              eq_refl eq_refl Hd) as (st & Hst & H).
  exists st. split; [exact Hst|]. apply (proj1 (H 1%nat 1%nat)).
Defined.

(** X20.  On well-formed collections with events and without empty
    occurrences [three_layer_FPR] returns, without a warning, the
    max-then-mean reduction applied twice: precision is the mean over the
    estimated patterns of their best layer-2 F-measure against a reference
    pattern, recall the mean over the reference patterns of their best
    layer-2 F-measure against an estimated pattern, where the layer-2
    F-measure of two patterns is obtained in the same way from the
    layer-1 F-measures of their occurrences. *)
Theorem three_layer_closed_form (ref est : patterns) :
  well_formed ref = true -> well_formed est = true ->
  no_events ref est = false ->
  no_empty_occurrence ref = true -> no_empty_occurrence est = true ->
  three_layer_FPR ref est
  = ([], Ok (Triple (f_measure (col_max_mean second_layer_F ref est)
                       (row_max_mean second_layer_F ref est))
               (col_max_mean second_layer_F ref est)
               (row_max_mean second_layer_F ref est)))
  /\ (forall rp ep, In rp ref -> In ep est ->
        compute_second_layer_PR rp ep
        = Ok (col_max_mean first_layer_F rp ep, row_max_mean first_layer_F rp ep)
        /\ forall a b, In a rp -> In b ep ->
             compute_first_layer_PR a b
             = Ok (float_of_nat (length (_occurrence_intersection a b))
                   / float_of_nat (length a),
                   float_of_nat (length (_occurrence_intersection a b))
                   / float_of_nat (length b))).
Proof.
  intros Hr He Hn Hcr Hce. split.
  - unfold three_layer_FPR. rewrite validate_with_events by assumption.
    unfold py_lift. rewrite (three_layer_body_ok ref est Hr He Hn Hcr Hce).
    reflexivity.
  - intros rp ep Hrp Hep.
    assert (Ha : forall a, In a rp -> a <> [])
      by (intros a; apply (no_empty_occurrence_In ref rp a Hcr Hrp)).
    assert (Hb : forall b, In b ep -> b <> [])
      by (intros b; apply (no_empty_occurrence_In est ep b Hce Hep)).
    split.
    + apply second_layer_ok; auto.
      * apply (well_formed_no_empty ref rp Hr Hrp).
      * apply (well_formed_no_empty est ep He Hep).
    + intros a b Hina Hinb. apply first_layer_ok; auto.
Qed.

Lemma three_layer_closed_form_witness :
  let reference := [[[ev 0 60; ev 1 62]; [ev 4 60]]; [[ev 2 64]]] in
  let estimated := [[[ev 0 60]]; [[ev 2 64]; [ev 7 70]]] in
  well_formed reference = true /\ well_formed estimated = true
  /\ no_events reference estimated = false
  /\ no_empty_occurrence reference = true
  /\ no_empty_occurrence estimated = true
  /\ three_layer_FPR reference estimated
     = ([], Ok (Triple (f_measure (col_max_mean second_layer_F reference estimated)
                          (row_max_mean second_layer_F reference estimated))
                  (col_max_mean second_layer_F reference estimated)
                  (row_max_mean second_layer_F reference estimated))).
Proof.
  intros reference estimated.
  split; [reflexivity|]. split; [reflexivity|]. split; [reflexivity|].
  split; [reflexivity|]. split; [reflexivity|].
  apply (proj1 (three_layer_closed_form reference estimated
                  eq_refl eq_refl eq_refl eq_refl eq_refl)).
Defined.
